(** * K9Guard: challenge issuance and verification

    A shallow embedding of the TypeScript sources of k9guard
    ([src/index.ts], [src/core/captchaGenerator.ts],
    [src/core/captchaValidator.ts], [src/utils/*.ts]) and the properties
    of the issuance and verification engine proved about it.

    Conventions of the embedding:
    - a JavaScript string is the list of its UTF-16 code units ([jsstring]);
    - a byte, a code unit and a 32-bit word are integers of [Z], every
      wrap-around is written out;
    - a JavaScript number is an IEEE 754 binary64 value ([spec_float] of the
      standard library at precision 53);
    - mutable state (the generator's nonce set and options) is passed
      explicitly, the random byte source, [Math.random] and the clock are
      tapes consumed by the calls that read them. *)

From Stdlib Require Import ZArith List Bool Lia String Ascii.
From Stdlib Require Import Floats.SpecFloat.
From stdpp Require Import base option list gmap.
Import ListNotations.

Local Open Scope Z_scope.

(** ** JavaScript strings *)

Module JSString.

(** A string is its sequence of UTF-16 code units, each in [0, 65535]. *)
Definition jsstring := list Z.

(** The code units of an ASCII literal. *)
Definition str (s : string) : jsstring :=
  map (fun a => Z.of_nat (nat_of_ascii a)) (list_ascii_of_string s).

Fixpoint eqb (s t : jsstring) : bool :=
  match s, t with
  | [], [] => true
  | a :: s', b :: t' => (a =? b) && eqb s' t'
  | _, _ => false
  end.

(** [s.length]: the number of code units. *)
Definition length (s : jsstring) : Z := Z.of_nat (List.length s).

(** WhiteSpace and LineTerminator code points of ECMAScript: what
    [String.prototype.trim] strips and what [\s] matches. *)
Definition is_space (c : Z) : bool :=
  ((9 <=? c) && (c <=? 13)) || (c =? 32) || (c =? 160) || (c =? 5760)
  || ((8192 <=? c) && (c <=? 8202)) || (c =? 8232) || (c =? 8233)
  || (c =? 8239) || (c =? 8287) || (c =? 12288) || (c =? 65279).

Fixpoint trimStart (s : jsstring) : jsstring :=
  match s with
  | c :: s' => if is_space c then trimStart s' else s
  | [] => []
  end.

Definition trimEnd (s : jsstring) : jsstring := rev (trimStart (rev s)).

Definition trim (s : jsstring) : jsstring := trimEnd (trimStart s).

Definition is_digit (c : Z) : bool := (48 <=? c) && (c <=? 57).

(** [TextEncoder.encode] and Node's default string encoding: UTF-8, a
    surrogate pair is one code point, a lone surrogate becomes U+FFFD. *)
Definition utf8_point (cp : Z) : list Z :=
  if cp <? 128 then [cp]
  else if cp <? 2048 then
    [Z.lor 192 (Z.shiftr cp 6); Z.lor 128 (Z.land cp 63)]
  else if cp <? 65536 then
    [Z.lor 224 (Z.shiftr cp 12); Z.lor 128 (Z.land (Z.shiftr cp 6) 63);
     Z.lor 128 (Z.land cp 63)]
  else
    [Z.lor 240 (Z.shiftr cp 18); Z.lor 128 (Z.land (Z.shiftr cp 12) 63);
     Z.lor 128 (Z.land (Z.shiftr cp 6) 63); Z.lor 128 (Z.land cp 63)].

Definition is_high_surrogate (c : Z) : bool := (55296 <=? c) && (c <=? 56319).
Definition is_low_surrogate (c : Z) : bool := (56320 <=? c) && (c <=? 57343).

Fixpoint utf8 (s : jsstring) : list Z :=
  match s with
  | [] => []
  | c :: rest =>
      if is_high_surrogate c then
        match rest with
        | d :: rest' =>
            if is_low_surrogate d then
              utf8_point (65536 + Z.shiftl (c - 55296) 10 + (d - 56320))
                ++ utf8 rest'
            else utf8_point 65533 ++ utf8 rest
        | [] => utf8_point 65533
        end
      else if is_low_surrogate c then utf8_point 65533 ++ utf8 rest
      else utf8_point c ++ utf8 rest
  end.

(** One hexadecimal digit, lower case. *)
Definition hex_digit (d : Z) : Z := if d <? 10 then 48 + d else 87 + d.

(** [b.toString(16).padStart(2, '0')] for a byte [b]. *)
Definition hex_byte (b : Z) : jsstring := [hex_digit (b / 16); hex_digit (b mod 16)].

(** [Array.from(bytes).map(b => b.toString(16).padStart(2, '0')).join('')] *)
Definition hex (bytes : list Z) : jsstring := concat (map hex_byte bytes).

(** The decimal digits of a natural number, most significant first
    ([fuel] bounds the number of digits). *)
Fixpoint digits_fuel (fuel : nat) (n : Z) (acc : jsstring) : jsstring :=
  match fuel with
  | O => acc
  | S fuel' =>
      if n <? 10 then (48 + n) :: acc
      else digits_fuel fuel' (n / 10) ((48 + n mod 10) :: acc)
  end.

Definition digits (n : Z) : jsstring :=
  digits_fuel (S (Z.to_nat (Z.log2 n))) n [].

End JSString.
Export JSString.

(** ** src/utils/crypto.ts: the digest of the issuer *)

Module CryptoHash.

(** A store into a [Uint8Array]: the value is reduced modulo 256 and a
    store beyond the length is ignored. *)
Definition u8_store (i : nat) (v : Z) (a : list Z) : list Z :=
  <[i := v mod 256]> a.

(** [new Uint8Array(32)] *)
Definition zeroes32 : list Z := repeat 0 32.

(** Body of the first loop of [computeHashSync] at index [i]. *)
Definition absorb (data : list Z) (simpleHash : list Z) (i : nat) : list Z :=
  match data !! i with
  | None => simpleHash
  | Some byteVal =>
      let idx1 := (i mod 32)%nat in
      let idx2 := ((i * 7) mod 32)%nat in
      let val1 := simpleHash !! idx1 in
      let val2 := simpleHash !! idx2 in
      let simpleHash :=
        match val1 with
        | Some val1 => u8_store idx1 (Z.lxor val1 byteVal) simpleHash
        | None => simpleHash
        end in
      match val2 with
      | Some val2 => u8_store idx2 (Z.land ((val2 + byteVal) * 31) 255) simpleHash
      | None => simpleHash
      end
  end.

(** Body of the inner loop of the diffusion rounds at index [i]. *)
Definition mix (round : nat) (simpleHash : list Z) (i : nat) : list Z :=
  let prevIdx := ((i + 31) mod 32)%nat in
  let nextIdx := ((i + 1) mod 32)%nat in
  match simpleHash !! prevIdx, simpleHash !! i, simpleHash !! nextIdx with
  | Some prev, Some curr, Some next =>
      u8_store i (Z.land ((prev + curr * 2 + next) * 7 + Z.of_nat round) 255) simpleHash
  | _, _, _ => simpleHash
  end.

Definition diffuse (simpleHash : list Z) (round : nat) : list Z :=
  fold_left (mix round) (seq 0 32) simpleHash.

(** [CryptoHash.computeHashSync] *)
Definition computeHashSync (data : list Z) : list Z :=
  let simpleHash := fold_left (absorb data) (seq 0 (List.length data)) zeroes32 in
  fold_left diffuse (seq 0 16) simpleHash.

(** The hash object: the chunks given to [update], oldest first. *)
Record t := { dataChunks : list (list Z) }.

Definition create : t := {| dataChunks := [] |}.

(** [update(input)] with a string argument. *)
Definition update (input : jsstring) (h : t) : t :=
  {| dataChunks := dataChunks h ++ [utf8 input] |}.

(** [update(input)] with a [Uint8Array] argument. *)
Definition update_bytes (input : list Z) (h : t) : t :=
  {| dataChunks := dataChunks h ++ [input] |}.

Definition getCombinedData (h : t) : list Z := concat (dataChunks h).

(** [digest()] before its encoding: the 32 bytes. *)
Definition digest_bytes (h : t) : list Z := computeHashSync (getCombinedData h).

(** [digest('hex')] *)
Definition digest_hex (h : t) : jsstring := hex (digest_bytes h).

(** The algorithm as the specification words it: the byte is XORed into
    index [i mod 32], then folded into index [(i*7) mod 32] of the
    accumulator; every round replaces each byte, in increasing index
    order, by the mix of its neighbours. *)
Module Reference.

Definition get (acc : list Z) (i : nat) : Z := nth i acc 0.
Definition set (acc : list Z) (i : nat) (v : Z) : list Z :=
  firstn i acc ++ v :: skipn (S i) acc.

Definition xor_in (i : nat) (byte : Z) (acc : list Z) : list Z :=
  set acc (i mod 32) (Z.lxor (get acc (i mod 32)) byte).

Definition fold_in (i : nat) (byte : Z) (acc : list Z) : list Z :=
  set acc ((i * 7) mod 32) ((get acc ((i * 7) mod 32) + byte) * 31 mod 256).

Fixpoint absorb_from (i : nat) (data : list Z) (acc : list Z) : list Z :=
  match data with
  | [] => acc
  | byte :: data' => absorb_from (S i) data' (fold_in i byte (xor_in i byte acc))
  end.

Definition mixed (roundNumber prev curr next : Z) : Z :=
  ((prev + 2 * curr + next) * 7 + roundNumber) mod 256.

Fixpoint round_from (r : Z) (i : nat) (n : nat) (acc : list Z) : list Z :=
  match n with
  | O => acc
  | S n' =>
      round_from r (S i) n'
        (set acc i (mixed r (get acc ((i + 31) mod 32)) (get acc i)
                           (get acc ((i + 1) mod 32))))
  end.

(** One diffusion round over the 32 bytes. *)
Definition round (r : nat) (acc : list Z) : list Z :=
  round_from (Z.of_nat r) 0 32 acc.

(** [n] successive rounds [step r], [step (r+1)], ... *)
Fixpoint rounds_from (step : nat -> list Z -> list Z)
    (r : nat) (n : nat) (acc : list Z) : list Z :=
  match n with
  | O => acc
  | S n' => rounds_from step (S r) n' (step r acc)
  end.

Definition digest_as_worded (data : list Z) : list Z :=
  rounds_from round 0 16 (absorb_from 0 data (repeat 0 32)).

(** The first step as the code orders it: both values are read before
    either store, so at an index with [i mod 32 = (i*7) mod 32] (the
    multiples of 16) only the fold is kept. *)
Definition absorb_read_first (i : nat) (byte : Z) (acc : list Z) : list Z :=
  let x := Z.lxor (get acc (i mod 32)) byte in
  let f := (get acc ((i * 7) mod 32) + byte) * 31 mod 256 in
  set (set acc (i mod 32) x) ((i * 7) mod 32) f.

Fixpoint absorb_read_first_from (i : nat) (data : list Z) (acc : list Z) : list Z :=
  match data with
  | [] => acc
  | byte :: data' => absorb_read_first_from (S i) data' (absorb_read_first i byte acc)
  end.

Definition digest_read_first (data : list Z) : list Z :=
  rounds_from round 0 16 (absorb_read_first_from 0 data (repeat 0 32)).

End Reference.

End CryptoHash.

(** ** Node's [crypto.createHash('sha256')]: the digest of the verifier

    [src/core/captchaValidator.ts] imports [createHash] from Node's built-in
    [crypto] module, not from [src/utils/crypto.ts]; its digest is SHA-256
    (FIPS 180-4), embedded here on 32-bit words held in [Z]. *)

Module NodeCrypto.

Definition w32 (x : Z) : Z := x mod 4294967296.
Definition add32 (x y : Z) : Z := w32 (x + y).
Definition rotr (n x : Z) : Z := Z.lor (Z.shiftr x n) (w32 (Z.shiftl x (32 - n))).
Definition not32 (x : Z) : Z := Z.lxor x 4294967295.

Definition Ch (x y z : Z) : Z := Z.lxor (Z.land x y) (Z.land (not32 x) z).
Definition Maj (x y z : Z) : Z :=
  Z.lxor (Z.lxor (Z.land x y) (Z.land x z)) (Z.land y z).
Definition Sigma0 (x : Z) : Z := Z.lxor (Z.lxor (rotr 2 x) (rotr 13 x)) (rotr 22 x).
Definition Sigma1 (x : Z) : Z := Z.lxor (Z.lxor (rotr 6 x) (rotr 11 x)) (rotr 25 x).
Definition sigma0 (x : Z) : Z := Z.lxor (Z.lxor (rotr 7 x) (rotr 18 x)) (Z.shiftr x 3).
Definition sigma1 (x : Z) : Z := Z.lxor (Z.lxor (rotr 17 x) (rotr 19 x)) (Z.shiftr x 10).

(** The first 64 primes. *)
Definition primes : list Z :=
  [2; 3; 5; 7; 11; 13; 17; 19; 23; 29; 31; 37; 41; 43; 47; 53; 59; 61; 67; 71; 73; 79;
   83; 89; 97; 101; 103; 107; 109; 113; 127; 131; 137; 139; 149; 151; 157; 163; 167;
   173; 179; 181; 191; 193; 197; 199; 211; 223; 227; 229; 233; 239; 241; 251; 257; 263;
   269; 271; 277; 281; 283; 293; 307; 311].

(** The integer cube root, bit by bit from bit [bits - 1] down. *)
Fixpoint cube_root (bits : nat) (n r : Z) : Z :=
  match bits with
  | O => r
  | S bits' =>
      let r' := r + 2 ^ Z.of_nat bits' in
      cube_root bits' n (if r' * r' * r' <=? n then r' else r)
  end.

(** The round constants: the first 32 bits of the fractional parts of the
    cube roots of the first 64 primes. *)
Definition K : list Z :=
  Eval vm_compute in map (fun p => w32 (cube_root 40 (p * 2 ^ 96) 0)) primes.

(** The initial hash value: the first 32 bits of the fractional parts of
    the square roots of the first 8 primes. *)
Definition H0 : list Z :=
  Eval vm_compute in map (fun p => w32 (Z.sqrt (p * 2 ^ 64))) (firstn 8 primes).

(** Padding: the bit 1, zeros up to 56 modulo 64 bytes, the bit length on
    64 bits, big endian. *)
Definition be_bytes (n : nat) (x : Z) : list Z :=
  map (fun k => Z.shiftr x (8 * Z.of_nat k) mod 256) (rev (seq 0 n)).

Definition pad (msg : list Z) : list Z :=
  let len := Z.of_nat (List.length msg) in
  let zeros := Z.to_nat ((55 - len) mod 64) in
  msg ++ [128] ++ repeat 0 zeros ++ be_bytes 8 (8 * len).

Fixpoint words (bytes : list Z) : list Z :=
  match bytes with
  | a :: b :: c :: d :: rest =>
      (Z.shiftl a 24 + Z.shiftl b 16 + Z.shiftl c 8 + d) :: words rest
  | _ => []
  end.

(** The message schedule: [w] holds the last 16 words, oldest first. *)
Fixpoint schedule (n : nat) (w : list Z) : list Z :=
  match n with
  | O => []
  | S n' =>
      let new :=
        add32 (add32 (sigma1 (nth 14 w 0)) (nth 9 w 0))
              (add32 (sigma0 (nth 1 w 0)) (nth 0 w 0)) in
      new :: schedule n' (tl w ++ [new])
  end.

Definition round (st : list Z) (kw : Z * Z) : list Z :=
  match st with
  | [a; b; c; d; e; f; g; h] =>
      let t1 := add32 (add32 (add32 h (Sigma1 e)) (add32 (Ch e f g) (fst kw))) (snd kw) in
      let t2 := add32 (Sigma0 a) (Maj a b c) in
      [add32 t1 t2; a; b; c; add32 d t1; e; f; g]
  | _ => st
  end.

Definition compress (h : list Z) (block : list Z) : list Z :=
  let w := block ++ schedule 48 block in
  let st := fold_left round (combine K w) h in
  map (fun p => add32 (fst p) (snd p)) (combine h st).

Fixpoint blocks (n : nat) (ws : list Z) : list (list Z) :=
  match n with
  | O => []
  | S n' => firstn 16 ws :: blocks n' (skipn 16 ws)
  end.

Definition sha256 (msg : list Z) : list Z :=
  let ws := words (pad msg) in
  let h := fold_left compress (blocks (List.length ws / 16) ws) H0 in
  concat (map (be_bytes 4) h).

(** [createHash('sha256').update(s).digest('hex')] *)
Definition sha256_hex (s : jsstring) : jsstring := hex (sha256 (utf8 s)).

End NodeCrypto.

(** ** JavaScript numbers

    A Number is an IEEE 754 binary64 value; the arithmetic is the one of
    [SpecFloat] at precision 53 with round to nearest, ties to even. *)

Module Number.

Definition number := spec_float.

Definition prec : Z := 53.
Definition emax : Z := 1024.

Definition NaN : number := S754_nan.
Definition Infinity : number := S754_infinity false.

(** The Number of an integer (exact below 2^53 in magnitude). *)
Definition of_Z (z : Z) : number := binary_normalize prec emax z 0 false.

Definition add (x y : number) : number := SFadd prec emax x y.
Definition sub (x y : number) : number := SFsub prec emax x y.
Definition mul (x y : number) : number := SFmul prec emax x y.
Definition div (x y : number) : number := SFdiv prec emax x y.

(** [x < y], [x > y] and [x === y] on Numbers: false when either is NaN,
    the two zeros are equal. *)
Definition ltb (x y : number) : bool := SFltb x y.
Definition gtb (x y : number) : bool := SFltb y x.
Definition strict_eq (x y : number) : bool := SFeqb x y.

Definition isNaN (x : number) : bool :=
  match x with S754_nan => true | _ => false end.

Definition isFinite (x : number) : bool :=
  match x with S754_nan | S754_infinity _ => false | _ => true end.

(** The value [m * 2^e] as a fraction of two positive integers. *)
Definition fraction (m : positive) (e : Z) : Z * Z :=
  if 0 <=? e then (Zpos m * 2 ^ e, 1) else (Zpos m, 2 ^ (- e)).

(** [Math.floor] *)
Definition floor (x : number) : number :=
  match x with
  | S754_finite s m e =>
      let '(n, d) := fraction m e in
      of_Z ((if s then - n else n) / d)
  | _ => x
  end.

(** [Math.round]: the nearest integer, a tie going up; a result that is
    zero keeps the sign of the argument. *)
Definition round (x : number) : number :=
  match x with
  | S754_finite s m e =>
      let '(n, d) := fraction m e in
      let k := (2 * (if s then - n else n) + d) / (2 * d) in
      if k =? 0 then S754_zero s else of_Z k
  | _ => x
  end.

(** The index a Number denotes in [array[x]]: its value when that is a
    natural number. *)
Definition to_index (x : number) : option nat :=
  match x with
  | S754_zero _ => Some O
  | S754_finite false m e =>
      let '(n, d) := fraction m e in
      if n mod d =? 0 then Some (Z.to_nat (n / d)) else None
  | _ => None
  end.

(** The Number nearest to [s * 10^p], for an integer [s >= 0]. *)
Definition of_decimal (neg : bool) (s : Z) (p : Z) : number :=
  match s with
  | Zpos m =>
      if 0 <=? p then binary_round prec emax neg (Pos.mul m (Z.to_pos (10 ^ p))) 0
      else
        let '(q, e, l) := SFdiv_core_binary prec emax (Zpos m) 0 (10 ^ (- p)) 0 in
        binary_round_aux prec emax neg q e l
  | _ => S754_zero neg
  end.

(** *** [parseFloat] *)

Fixpoint span_digits (s : jsstring) : jsstring * jsstring :=
  match s with
  | c :: s' =>
      if is_digit c then let '(ds, rest) := span_digits s' in (c :: ds, rest)
      else ([], s)
  | [] => ([], [])
  end.

Definition digits_value (ds : jsstring) : Z :=
  fold_left (fun acc c => 10 * acc + (c - 48)) ds 0.

Fixpoint starts_with (p s : jsstring) : bool :=
  match p, s with
  | [], _ => true
  | a :: p', b :: s' => (a =? b) && starts_with p' s'
  | _ :: _, [] => false
  end.

(** An ExponentPart at the head of [s], when there is one: [e] or [E], an
    optional sign and at least one digit. *)
Definition exponent_part (s : jsstring) : Z :=
  match s with
  | c :: s' =>
      if (c =? 101) || (c =? 69) then
        let '(neg, s'') :=
          match s' with
          | d :: t => if d =? 45 then (true, t) else if d =? 43 then (false, t) else (false, s')
          | [] => (false, s')
          end in
        let '(ds, _) := span_digits s'' in
        match ds with
        | [] => 0
        | _ => if neg then - digits_value ds else digits_value ds
        end
      else 0
  | [] => 0
  end.

(** The longest prefix that is a StrDecimalLiteral, after the leading
    white space, gives the value; without one the result is NaN. *)
Definition parseFloat (input : jsstring) : number :=
  let s := trimStart input in
  let '(neg, s) :=
    match s with
    | c :: t => if c =? 45 then (true, t) else if c =? 43 then (false, t) else (false, s)
    | [] => (false, s)
    end in
  if starts_with (str "Infinity") s then S754_infinity neg
  else
    let '(int_part, rest) := span_digits s in
    let '(frac_part, rest) :=
      match rest with
      | c :: t =>
          if c =? 46 then
            let '(fs, rest') := span_digits t in
            match int_part, fs with
            | [], [] => ([], rest)
            | _, _ => (fs, rest')
            end
          else ([], rest)
      | [] => ([], rest)
      end in
    match int_part, frac_part with
    | [], [] => NaN
    | _, _ =>
        of_decimal neg (digits_value (int_part ++ frac_part))
          (exponent_part rest - Z.of_nat (List.length frac_part))
    end.

(** *** [Number.prototype.toString()] in radix 10 *)

(** [floor (v * 10^k)] for [v = n/d]. *)
Definition scaled (v : Z * Z) (k : Z) : Z :=
  let '(n, d) := v in
  if 0 <=? k then (n * 10 ^ k) / d else n / (d * 10 ^ (- k)).

(** The least [n] from [n0] on with [v < 10^n]. *)
Fixpoint magnitude (fuel : nat) (v : Z * Z) (n : Z) : Z :=
  match fuel with
  | O => n
  | S fuel' => if scaled v (- n) =? 0 then n else magnitude fuel' v (n + 1)
  end.

(** The shortest digit string [s] of [k] digits (and its exponent [n])
    with [s * 10^(n-k)] rounding to the number, the nearest one when two
    fit, the even one on a tie. *)
Fixpoint shortest (fuel : nat) (x : number) (v : Z * Z) (n k : Z) : Z * Z * Z :=
  let lo := scaled v (k - n) in
  let hi := lo + 1 in
  let fits c := match of_decimal false c (n - k), x with
                | S754_finite _ m1 e1, S754_finite _ m2 e2 => (Zpos m1 =? Zpos m2) && (e1 =? e2)
                | _, _ => false
                end in
  (* twice the distance of v * 10^(k-n) to lo, compared with 1 *)
  let '(num, den) := v in
  let twice_frac :=
    if 0 <=? k - n then (2 * (num * 10 ^ (k - n) - lo * den)) ?= den
    else (2 * (num - lo * (den * 10 ^ (n - k)))) ?= (den * 10 ^ (n - k)) in
  let pick :=
    match fits lo, fits hi with
    | true, false => Some lo
    | false, true => Some hi
    | true, true =>
        match twice_frac with
        | Lt => Some lo
        | Gt => Some hi
        | Eq => Some (if Z.even lo then lo else hi)
        end
    | false, false => None
    end in
  match pick, fuel with
  | Some s, _ => if s =? 10 ^ k then (n + 1, k, s / 10) else (n, k, s)
  | None, S fuel' => shortest fuel' x v n (k + 1)
  | None, O => (n, k, lo)
  end.

Definition zeros (n : Z) : jsstring := repeat 48 (Z.to_nat n).

Definition toString (x : number) : jsstring :=
  match x with
  | S754_nan => str "NaN"
  | S754_zero _ => str "0"
  | S754_infinity s => (if s then str "-" else []) ++ str "Infinity"
  | S754_finite sg m e =>
      let v := fraction m e in
      (* 30103/100000 approximates log10 2 from above: the search starts
         at most two below the result *)
      let n0 := magnitude 8 v ((Zpos (digits2_pos m) + e - 1) * 30103 / 100000 - 1) in
      let '(n, k, s) := shortest 17 x v n0 1 in
      let ds := digits s in
      (if sg then str "-" else []) ++
      if (k <=? n) && (n <=? 21) then ds ++ zeros (n - k)
      else if (0 <? n) && (n <=? 21) then
        firstn (Z.to_nat n) ds ++ str "." ++ skipn (Z.to_nat n) ds
      else if (-6 <? n) && (n <=? 0) then str "0." ++ zeros (- n) ++ ds
      else
        let ex := n - 1 in
        let tail := str "e" ++ (if ex <? 0 then str "-" else str "+") ++ digits (Z.abs ex) in
        match ds with
        | d :: (_ :: _) as rest => d :: str "." ++ rest ++ tail
        | _ => ds ++ tail
        end
  end.

End Number.
Export Number.

(** ** JavaScript values and [JSON.parse] *)

Module JS.

#[local] Set Warnings "-register-all".

(** The values that cross the wire: what [JSON.parse] builds, and
    [undefined]. *)
Inductive Value :=
| Undefined
| Null
| Bool (b : bool)
| Num (x : number)
| Str (s : jsstring)
| Arr (items : list Value)
| Obj (props : list (jsstring * Value)).

Inductive Exception :=
| TypeError
| RangeError (msg : jsstring)
| Error (msg : jsstring).

(** The result of a call that changes no state: a value or an
    exception. *)
Inductive Outcome (A : Type) :=
| Returns (a : A)
| Throws (e : Exception).
Arguments Returns {A} a.
Arguments Throws {A} e.

(** [typeof v] *)
Definition typeof (v : Value) : jsstring :=
  match v with
  | Undefined => str "undefined"
  | Null | Arr _ | Obj _ => str "object"
  | Bool _ => str "boolean"
  | Num _ => str "number"
  | Str _ => str "string"
  end.

(** ToBoolean: what [!v] and [v || d] test. *)
Definition truthy (v : Value) : bool :=
  match v with
  | Undefined | Null => false
  | Bool b => b
  | Num (S754_zero _) | Num S754_nan => false
  | Num _ => true
  | Str [] => false
  | Str _ => true
  | Arr _ | Obj _ => true
  end.

(** [v === 'literal'] *)
Definition is_str (v : Value) (s : jsstring) : bool :=
  match v with Str t => JSString.eqb t s | _ => false end.

(** An own property of an object, the last of duplicate keys; [undefined]
    when missing. *)
Fixpoint lookup (k : jsstring) (props : list (jsstring * Value)) : Value :=
  match props with
  | [] => Undefined
  | (k', v) :: rest =>
      match lookup k rest with
      | Undefined => if JSString.eqb k' k then v else Undefined
      | found => found
      end
  end.

(** [v.k] for the property names the code reads ([type], [questions],
    ...), none of which an array, string, number or boolean has. The read
    raises on [undefined] and [null]. *)
Definition get (v : Value) (k : jsstring) : Outcome Value :=
  match v with
  | Undefined | Null => Throws TypeError
  | Obj props => Returns (lookup k props)
  | _ => Returns Undefined
  end.

(** [Array.isArray(v)] *)
Definition isArray (v : Value) : bool :=
  match v with Arr _ => true | _ => false end.

(** [v.k] where the code has made sure that [v] is an object. *)
Definition prop (v : Value) (k : jsstring) : Value :=
  match v with
  | Obj props => lookup k props
  | _ => Undefined
  end.

Fixpoint has_key (k : jsstring) (props : list (jsstring * Value)) : bool :=
  match props with
  | [] => false
  | (k', _) :: rest => JSString.eqb k' k || has_key k rest
  end.

(** ToString: an array joins its elements with commas ([null] and
    [undefined] elements give the empty string), an object gives
    ["[object Object]"] unless an own (hence not callable) [toString]
    shadows the inherited method, which is a TypeError. *)
Fixpoint ToString (v : Value) : Outcome jsstring :=
  match v with
  | Undefined => Returns (str "undefined")
  | Null => Returns (str "null")
  | Bool b => Returns (if b then str "true" else str "false")
  | Num x => Returns (toString x)
  | Str s => Returns s
  | Arr items =>
      (fix join (first : bool) (l : list Value) : Outcome jsstring :=
         match l with
         | [] => Returns []
         | x :: l' =>
             let sep := if first then [] else [44] in
             match (match x with
                    | Undefined | Null => Returns []
                    | _ => ToString x
                    end), join false l' with
             | Returns a, Returns b => Returns (sep ++ a ++ b)
             | Throws e, _ => Throws e
             | _, Throws e => Throws e
             end
         end) true items
  | Obj props =>
      if has_key (str "toString") props then Throws TypeError
      else Returns (str "[object Object]")
  end.

(** [v.toString()]: the read of the method raises on [undefined] and
    [null]. *)
Definition method_toString (v : Value) : Outcome jsstring :=
  match v with
  | Undefined | Null => Throws TypeError
  | _ => ToString v
  end.

(** *** [JSON.parse] *)

Definition is_json_ws (c : Z) : bool :=
  (c =? 32) || (c =? 9) || (c =? 10) || (c =? 13).

Fixpoint skip_ws (s : jsstring) : jsstring :=
  match s with
  | c :: s' => if is_json_ws c then skip_ws s' else s
  | [] => []
  end.

Definition hex_value (c : Z) : option Z :=
  if is_digit c then Some (c - 48)
  else if (97 <=? c) && (c <=? 102) then Some (c - 87)
  else if (65 <=? c) && (c <=? 70) then Some (c - 55)
  else None.

(** The characters of a JSON string after its opening quote. *)
Fixpoint parse_string (s : jsstring) : option (jsstring * jsstring) :=
  match s with
  | [] => None
  | c :: s' =>
      if c =? 34 then Some ([], s')
      else if c <? 32 then None
      else if c =? 92 then
        match s' with
        | e :: s'' =>
            let continue ch rest :=
              match parse_string rest with
              | Some (t, r) => Some (ch :: t, r)
              | None => None
              end in
            if e =? 34 then continue 34 s''
            else if e =? 92 then continue 92 s''
            else if e =? 47 then continue 47 s''
            else if e =? 98 then continue 8 s''
            else if e =? 102 then continue 12 s''
            else if e =? 110 then continue 10 s''
            else if e =? 114 then continue 13 s''
            else if e =? 116 then continue 9 s''
            else if e =? 117 then
              match s'' with
              | h1 :: h2 :: h3 :: h4 :: s3 =>
                  match hex_value h1, hex_value h2, hex_value h3, hex_value h4 with
                  | Some a, Some b, Some c', Some d =>
                      continue (((a * 16 + b) * 16 + c') * 16 + d) s3
                  | _, _, _, _ => None
                  end
              | _ => None
              end
            else None
        | [] => None
        end
      else
        match parse_string s' with
        | Some (t, r) => Some (c :: t, r)
        | None => None
        end
  end.

(** A JSON number: an optional minus, an integer part without a leading
    zero (or the single digit 0), an optional fraction of at least one
    digit, an optional exponent of at least one digit. *)
Definition parse_number (s : jsstring) : option (Value * jsstring) :=
  let '(neg, s) := match s with
                   | c :: t => if c =? 45 then (true, t) else (false, s)
                   | [] => (false, s)
                   end in
  let '(int_part, rest) := span_digits s in
  match int_part with
  | [] => None
  | d :: more =>
      if (d =? 48) && negb (match more with [] => true | _ => false end) then None
      else
        let frac :=
          match rest with
          | c :: t =>
              if c =? 46 then
                let '(fs, rest') := span_digits t in
                match fs with [] => None | _ => Some (fs, rest') end
              else Some ([], rest)
          | [] => Some ([], rest)
          end in
        match frac with
        | None => None
        | Some (fs, rest) =>
            let ex :=
              match rest with
              | c :: t =>
                  if (c =? 101) || (c =? 69) then
                    let '(eneg, t') :=
                      match t with
                      | g :: u => if g =? 45 then (true, u)
                                  else if g =? 43 then (false, u) else (false, t)
                      | [] => (false, t)
                      end in
                    let '(es, rest') := span_digits t' in
                    match es with
                    | [] => None
                    | _ => Some ((if eneg then - digits_value es else digits_value es), rest')
                    end
                  else Some (0, rest)
              | [] => Some (0, rest)
              end in
            match ex with
            | None => None
            | Some (e, rest) =>
                Some (Num (of_decimal neg (digits_value (int_part ++ fs))
                             (e - Z.of_nat (List.length fs))), rest)
            end
        end
  end.

(** One JSON value at the head of the text. Every call consumes a
    character before it recurses, so the length of the text is fuel
    enough. *)
Fixpoint parse_value (fuel : nat) (s : jsstring) : option (Value * jsstring) :=
  match fuel with
  | O => None
  | S fuel' =>
      match skip_ws s with
      | [] => None
      | c :: t =>
          if c =? 34 then
            match parse_string t with
            | Some (x, r) => Some (Str x, r)
            | None => None
            end
          else if c =? 91 then
            match skip_ws t with
            | d :: r =>
                if d =? 93 then Some (Arr [], r)
                else
                  (fix elements (n : nat) (s : jsstring) (acc : list Value) :=
                     match n with
                     | O => None
                     | S n' =>
                         match parse_value fuel' s with
                         | Some (v, r) =>
                             match skip_ws r with
                             | e :: r' =>
                                 if e =? 44 then elements n' r' (v :: acc)
                                 else if e =? 93 then Some (Arr (rev (v :: acc)), r')
                                 else None
                             | [] => None
                             end
                         | None => None
                         end
                     end) fuel' t []
            | [] => None
            end
          else if c =? 123 then
            match skip_ws t with
            | d :: r =>
                if d =? 125 then Some (Obj [], r)
                else
                  (fix members (n : nat) (s : jsstring) (acc : list (jsstring * Value)) :=
                     match n with
                     | O => None
                     | S n' =>
                         match skip_ws s with
                         | q :: s1 =>
                             if q =? 34 then
                               match parse_string s1 with
                               | Some (k, s2) =>
                                   match skip_ws s2 with
                                   | colon :: s3 =>
                                       if colon =? 58 then
                                         match parse_value fuel' s3 with
                                         | Some (v, r) =>
                                             match skip_ws r with
                                             | e :: r' =>
                                                 if e =? 44 then members n' r' ((k, v) :: acc)
                                                 else if e =? 125 then
                                                   Some (Obj (rev ((k, v) :: acc)), r')
                                                 else None
                                             | [] => None
                                             end
                                         | None => None
                                         end
                                       else None
                                   | [] => None
                                   end
                               | None => None
                               end
                             else None
                         | [] => None
                         end
                     end) fuel' t []
            | [] => None
            end
          else if starts_with (str "true") (c :: t) then Some (Bool true, skipn 4 (c :: t))
          else if starts_with (str "false") (c :: t) then Some (Bool false, skipn 5 (c :: t))
          else if starts_with (str "null") (c :: t) then Some (Null, skipn 4 (c :: t))
          else parse_number (c :: t)
      end
  end.

(** [JSON.parse(text)]; [None] is the SyntaxError. *)
Definition JSON_parse (text : jsstring) : option Value :=
  match parse_value (S (List.length text)) text with
  | Some (v, rest) =>
      match skip_ws rest with
      | [] => Some v
      | _ => None
      end
  | None => None
  end.

(** [JSON.stringify] of an array of strings made of printable ASCII. *)
Fixpoint quote_chars (s : jsstring) : jsstring :=
  match s with
  | [] => []
  | c :: s' =>
      if (c =? 34) || (c =? 92) then 92 :: c :: quote_chars s'
      else c :: quote_chars s'
  end.

Definition quote (s : jsstring) : jsstring := 34 :: quote_chars s ++ [34].

Fixpoint join_commas (l : list jsstring) : jsstring :=
  match l with
  | [] => []
  | [x] => x
  | x :: rest => x ++ 44 :: join_commas rest
  end.

Definition stringify_strings (l : list jsstring) : jsstring :=
  91 :: join_commas (map quote l) ++ [93].

End JS.
Export JS.

(** ** src/types/index.ts *)

Module Types.

#[local] Set Warnings "-register-all".

(** [CaptchaChallenge]. [type] is any string (the verifier compares it with
    the kinds it knows), [answer] is whatever the record carries (the
    verifier only asks whether it is a number; a record that crossed the
    wire may not have it), [steps] is optional. *)
Inductive CaptchaChallenge : Type := Challenge {
  type : jsstring;
  question : jsstring;
  answer : Value;
  nonce : jsstring;
  expiry : number;
  hashedAnswer : jsstring;
  salt : jsstring;
  steps : option (list CaptchaChallenge)
}.

(** [CustomQuestion]; [sanitize] copies [difficulty] as it finds it. *)
Record CustomQuestion := {
  cq_question : jsstring;
  cq_answer : jsstring;
  cq_difficulty : Value
}.

End Types.
Export Types.

(** ** src/core/captchaValidator.ts *)

Module CaptchaValidator.

Definition MAX_INPUT_LENGTH : Z := 1000.

(** The character class of [VALID_CHAR_REGEX]:
    [a-zA-Z0-9\s\-] , the twelve Turkish letters and [.,'!?]. *)
Definition valid_char (c : Z) : bool :=
  ((97 <=? c) && (c <=? 122)) || ((65 <=? c) && (c <=? 90)) || is_digit c
  || is_space c || (c =? 45)
  || (c =? 231) || (c =? 199) || (c =? 287) || (c =? 286) || (c =? 305) || (c =? 304)
  || (c =? 246) || (c =? 214) || (c =? 351) || (c =? 350) || (c =? 252) || (c =? 220)
  || (c =? 46) || (c =? 44) || (c =? 39) || (c =? 33) || (c =? 63).

(** [VALID_CHAR_REGEX.test(s)]: the class, repeated, from start to end. *)
Definition VALID_CHAR_REGEX_test (s : jsstring) : bool := forallb valid_char s.

Definition isValidInput (input : Value) : bool :=
  match input with
  | Str s =>
      if (JSString.length s =? 0) || (JSString.length s >? MAX_INPUT_LENGTH)
      then false else true
  | _ => false
  end.

(** [createHash('sha256').update(userInput + challenge.salt).digest('hex')
    === challenge.hashedAnswer], with the [createHash] of Node. *)
Definition verifyAnswer (challenge : CaptchaChallenge) (userInput : jsstring) : bool :=
  let userHash := NodeCrypto.sha256_hex (userInput ++ salt challenge) in
  JSString.eqb userHash (hashedAnswer challenge).

Definition isNumericChallenge (challenge : CaptchaChallenge) : bool :=
  JSString.eqb (type challenge) (str "math")
  || JSString.eqb (type challenge) (str "sequence")
  || (JSString.eqb (type challenge) (str "mixed")
      && JSString.eqb (typeof (answer challenge)) (str "number")).

Definition validateNumeric (challenge : CaptchaChallenge) (userInput : jsstring) : bool :=
  let inputNum := parseFloat userInput in
  if isNaN inputNum || negb (isFinite inputNum) then false
  else verifyAnswer challenge (toString inputNum).

Definition validateText (challenge : CaptchaChallenge) (userInput : jsstring) : bool :=
  let sanitized := trim userInput in
  if negb (VALID_CHAR_REGEX_test sanitized) then false
  else verifyAnswer challenge sanitized.

Definition validateCustom (challenge : CaptchaChallenge) (userInput : jsstring) : bool :=
  let sanitized := trim userInput in
  if negb (VALID_CHAR_REGEX_test sanitized) then false
  else verifyAnswer challenge sanitized.

(** The loop of [validateMulti] from index [i] on: [steps] and [parsed] are
    what is left of the two arrays. A step of the array is an object, so
    [!step] is false; an element of [parsed] that is missing or not a
    string ends the loop with [false]. *)
Fixpoint validateSteps (validate : CaptchaChallenge -> jsstring -> bool)
    (steps : list CaptchaChallenge) (parsed : list Value) : bool :=
  match steps with
  | [] => true
  | step :: steps' =>
      match parsed with
      | Str input :: parsed' =>
          if negb (validate step input) then false
          else validateSteps validate steps' parsed'
      | _ => false
      end
  end.

Definition validateMulti (validate : CaptchaChallenge -> jsstring -> bool)
    (challenge : CaptchaChallenge) (userInput : jsstring) : bool :=
  match steps challenge with
  | None | Some [] => false
  | Some challenge_steps =>
      match JSON_parse userInput with
      | None => false
      | Some (Arr parsed) =>
          if negb (List.length parsed =? List.length challenge_steps)%nat then false
          else validateSteps validate challenge_steps parsed
      | Some _ => false
      end
  end.

(** [CaptchaValidator.validate]; the recursion is the call of [validate]
    on a step in [validateMulti]. *)
Fixpoint validate (challenge : CaptchaChallenge) (userInput : jsstring) {struct challenge} : bool :=
  if negb (isValidInput (Str userInput)) then false
  else if JSString.eqb (type challenge) (str "multi") then
    validateMulti validate challenge userInput
  else if JSString.eqb (type challenge) (str "custom") then
    validateCustom challenge userInput
  else if isNumericChallenge challenge then
    validateNumeric challenge userInput
  else validateText challenge userInput.

End CaptchaValidator.

(** ** Effects: the random byte source, [Math.random], the clock

    A call that reads them consumes a tape; a tape that ends before the call
    is served makes the call [Starved]. An exception keeps the state reached
    when it was raised. *)

Module Effect.

Inductive Result (S A : Type) : Type :=
| Ok (a : A) (s : S)
| Fail (e : Exception) (s : S)
| Starved.
Arguments Ok {S A} a s.
Arguments Fail {S A} e s.
Arguments Starved {S A}.

Definition M (S A : Type) : Type := S -> Result S A.

Definition ret {S A : Type} (a : A) : M S A := fun s => Ok a s.

Definition bind {S A B : Type} (m : M S A) (k : A -> M S B) : M S B :=
  fun s =>
    match m s with
    | Ok a s' => k a s'
    | Fail e s' => Fail e s'
    | Starved => Starved
    end.

Definition throw {S A : Type} (e : Exception) : M S A := fun s => Fail e s.

Definition starve {S A : Type} : M S A := fun _ => Starved.

Definition read {S : Type} : M S S := fun s => Ok s s.

Definition write {S : Type} (s : S) : M S unit := fun _ => Ok tt s.

Definition of_outcome {S A : Type} (o : Outcome A) : M S A :=
  match o with
  | Returns a => ret a
  | Throws e => throw e
  end.

(** A computation on the second component of the state. *)
Definition on_snd {G W A : Type} (m : M W A) : M (G * W) A :=
  fun '(g, w) =>
    match m w with
    | Ok a w' => Ok a (g, w')
    | Fail e w' => Fail e (g, w')
    | Starved => Starved
    end.

End Effect.
Export Effect.

Notation "'let*' x ':=' m 'in' k" := (bind m (fun x => k))
  (at level 10, x name, m at level 100, k at level 200).

Module World.

Record t := {
  entropy : list Z;      (** the bytes the secure source will deliver *)
  prng : list number;    (** the results of the coming [Math.random()] calls *)
  clock : list Z         (** the results of the coming [Date.now()] calls *)
}.

(** [crypto.getRandomValues] on a buffer of [size] bytes. *)
Definition getRandomValues (size : nat) : M t (list Z) :=
  fun w =>
    if (List.length (entropy w) <? size)%nat then Starved
    else Ok (firstn size (entropy w))
            {| entropy := skipn size (entropy w); prng := prng w; clock := clock w |}.

Definition Math_random : M t number :=
  fun w =>
    match prng w with
    | [] => Starved
    | x :: rest => Ok x {| entropy := entropy w; prng := rest; clock := clock w |}
    end.

Definition Date_now : M t Z :=
  fun w =>
    match clock w with
    | [] => Starved
    | now :: rest => Ok now {| entropy := entropy w; prng := prng w; clock := rest |}
    end.

End World.

(** ** src/utils/crypto.ts: [CryptoUtils] and [CryptoBuffer] *)

Module CryptoBuffer.

(** [readUInt32LE(offset)] *)
Definition readUInt32LE (buffer : list Z) (offset : Z) : Outcome Z :=
  if (offset <? 0) || (offset + 4 >? JSString.length buffer) then
    Throws (RangeError (str "Offset out of bounds"))
  else
    match buffer !! Z.to_nat offset, buffer !! Z.to_nat (offset + 1),
          buffer !! Z.to_nat (offset + 2), buffer !! Z.to_nat (offset + 3) with
    | Some b0, Some b1, Some b2, Some b3 =>
        Returns
          (Z.lor (Z.lor (Z.lor b0 (Z.shiftl b1 8)) (Z.shiftl b2 16)) (Z.shiftl b3 24)
           mod 4294967296)
    | _, _, _, _ => Throws (RangeError (str "Buffer read error"))
    end.

(** [toString('hex')] *)
Definition toString_hex (buffer : list Z) : jsstring := hex buffer.

End CryptoBuffer.

Module CryptoUtils.

(** [randomBytes(size)]; the Web Crypto API is taken to be there. Node's
    [crypto.randomBytes], which some generators import instead, reads the
    same secure source. *)
Definition randomBytes (size : Z) : M World.t (list Z) :=
  if (size <=? 0) || (size >? 65536) then
    throw (RangeError (str "Size must be between 1 and 65536"))
  else World.getRandomValues (Z.to_nat size).

(** [s.toLowerCase()] on the letters that matter for the comparison with
    ['sha256']: of all characters only [A-Z] map into ASCII. *)
Definition toLowerCase_ascii (s : jsstring) : jsstring :=
  map (fun c => if (65 <=? c) && (c <=? 90) then c + 32 else c) s.

(** [createHash(algorithm)] *)
Definition createHash (algorithm : jsstring) : Outcome CryptoHash.t :=
  if negb (JSString.eqb (toLowerCase_ascii algorithm) (str "sha256")) then
    Throws (Error (str "Only SHA-256 is supported"))
  else Returns CryptoHash.create.

End CryptoUtils.

(** ** src/utils/random.ts *)

Module Random.

Import CryptoUtils.

(** [buffer.readUInt32LE(0) / 0xFFFFFFFF] *)
Definition unit_interval (u : Z) : number := div (of_Z u) (of_Z 4294967295).

Definition getRandomNumber (difficulty : Value) : M World.t number :=
  let* buffer := randomBytes 4 in
  let* u := of_outcome (CryptoBuffer.readUInt32LE buffer 0) in
  let rand := unit_interval u in
  if is_str difficulty (str "easy") then
    ret (add (Number.floor (mul rand (of_Z 10))) (of_Z 1))
  else if is_str difficulty (str "medium") then
    ret (add (Number.floor (mul rand (of_Z 50))) (of_Z 1))
  else ret (add (Number.floor (mul rand (of_Z 100))) (of_Z 1)).

Definition operators : list jsstring := [str "+"; str "-"; str "*"; str "/"].

Definition getRandomOperator : M World.t jsstring :=
  let* buffer := randomBytes 1 in
  let index := nth 0 buffer 0 mod 4 in
  ret (nth (Z.to_nat index) operators []).

Definition chars : jsstring :=
  str "ABCDEFGHIJKLMNOPQRSTUVWXYZabcdefghijklmnopqrstuvwxyz0123456789".

(** [chars.charAt(i)]: the empty string out of range. *)
Definition charAt (s : jsstring) (i : Z) : jsstring :=
  match s !! Z.to_nat i with
  | Some c => [c]
  | None => []
  end.

Definition generateRandomString (difficulty : Value) : M World.t jsstring :=
  let length := if is_str difficulty (str "easy") then 4
                else if is_str difficulty (str "medium") then 6 else 8 in
  let* buffer := randomBytes length in
  ret (concat (map (fun b => charAt chars (b mod 62)) buffer)).

Definition generateNonce : M World.t jsstring :=
  let* buffer := randomBytes 16 in ret (CryptoBuffer.toString_hex buffer).

Definition generateSalt : M World.t jsstring :=
  let* buffer := randomBytes 8 in ret (CryptoBuffer.toString_hex buffer).

End Random.

(** ** The puzzle providers *)

(** The question banks of [src/locale/en.json] and [src/locale/tr.json],
    which are not part of the sources at hand: a parameter of everything
    that reads them. *)
Module Locale.

Record QA := { qa_question : jsstring; qa_answer : jsstring }.

Record Data := {
  en_riddles : list QA;
  tr_riddles : list QA;
  en_logics : list QA;
  tr_logics : list QA
}.

(** [bank[u % bank.length]]: [undefined] for an empty bank. *)
Definition pick (bank : list QA) (u : Z) : option QA :=
  match bank with
  | [] => None
  | _ => bank !! Z.to_nat (u mod Z.of_nat (List.length bank))
  end.

(** The names every object literal inherits from [Object.prototype]. *)
Definition inherited_keys : list jsstring :=
  [str "constructor"; str "__proto__"; str "hasOwnProperty"; str "isPrototypeOf";
   str "propertyIsEnumerable"; str "toLocaleString"; str "toString"; str "valueOf";
   str "__defineGetter__"; str "__defineSetter__"; str "__lookupGetter__";
   str "__lookupSetter__"].

(** What [this.data[key]] is, [data] being the literal [{ en: ..., tr: ... }]:
    one of the two banks, a member of [Object.prototype], or [undefined]. *)
Inductive Entry :=
| Bank (bank : list QA)
| Inherited
| Missing.

Definition entry (en tr : list QA) (key : jsstring) : Entry :=
  if JSString.eqb key (str "en") then Bank en
  else if JSString.eqb key (str "tr") then Bank tr
  else if existsb (JSString.eqb key) inherited_keys then Inherited
  else Missing.

(** A parameter [locale = 'en']: the default stands in for [undefined]. *)
Definition or_en (locale : Value) : Value :=
  match locale with Undefined => Str (str "en") | _ => locale end.

End Locale.

(** src/utils/riddleBank.ts *)
Module RiddleBank.

(** [this.data[locale]]: the property name is the string of [locale]
    (an array with the one element ['tr'] names [tr]); the conversion
    raises a TypeError on an object whose own [toString] is not a
    function. *)
Definition data (locales : Locale.Data) (locale : Value) : Outcome Locale.Entry :=
  match ToString locale with
  | Throws e => Throws e
  | Returns key =>
      Returns (Locale.entry (Locale.en_riddles locales) (Locale.tr_riddles locales) key)
  end.

(** [getRandom(locale = 'en', difficulty = 'easy')]. On [undefined] the
    read of [riddles.length] raises; a member of [Object.prototype] has no
    element at any index, so the result is [undefined]. *)
Definition getRandom (locales : Locale.Data) (locale difficulty : Value)
  : M World.t (option Locale.QA) :=
  let* riddles := of_outcome (data locales (Locale.or_en locale)) in
  let* buffer := CryptoUtils.randomBytes 4 in
  let* u := of_outcome (CryptoBuffer.readUInt32LE buffer 0) in
  match riddles with
  | Locale.Bank riddles => ret (Locale.pick riddles u)
  | Locale.Inherited => ret None
  | Locale.Missing => throw TypeError
  end.

End RiddleBank.

(** src/utils/logicGenerator.ts *)
Module LogicGenerator.

(** [this.data[locale]], as in [RiddleBank]. *)
Definition data (locales : Locale.Data) (locale : Value) : Outcome Locale.Entry :=
  match ToString locale with
  | Throws e => Throws e
  | Returns key =>
      Returns (Locale.entry (Locale.en_logics locales) (Locale.tr_logics locales) key)
  end.

Definition getRandom (locales : Locale.Data) (locale difficulty : Value)
  : M World.t (option Locale.QA) :=
  let* logics := of_outcome (data locales (Locale.or_en locale)) in
  let* buffer := CryptoUtils.randomBytes 4 in
  let* u := of_outcome (CryptoBuffer.readUInt32LE buffer 0) in
  match logics with
  | Locale.Bank logics => ret (Locale.pick logics u)
  | Locale.Inherited => ret None
  | Locale.Missing => throw TypeError
  end.

End LogicGenerator.

(** A puzzle: the question and the answer, a string or a number. *)
Record Puzzle := { p_question : jsstring; p_answer : Value }.

(** src/utils/sequenceGenerator.ts *)
Module SequenceGenerator.

(** [array.join(', ')] *)
Fixpoint join (l : list jsstring) : jsstring :=
  match l with
  | [] => []
  | [x] => x
  | x :: rest => x ++ str ", " ++ join rest
  end.

(** [u >> 8]: the shift of the signed 32-bit reading of [u]. *)
Definition sar8 (u : Z) : Z :=
  Z.shiftr (if u >=? 2147483648 then u - 4294967296 else u) 8.

Definition letters : list jsstring :=
  [str "A"; str "B"; str "C"; str "D"; str "E"; str "F"; str "G"; str "H"; str "I"; str "J"].

Definition letter (i : Z) : jsstring := nth (Z.to_nat i) letters (str "undefined").

Definition generate (difficulty : Value) : M World.t Puzzle :=
  if is_str difficulty (str "easy") then
    let* buffer := CryptoUtils.randomBytes 4 in
    let* u := of_outcome (CryptoBuffer.readUInt32LE buffer 0) in
    let start := Z.rem u 5 + 1 in
    let step := Z.rem (sar8 u) 3 + 1 in
    let sequence := [start; start + step; start + 2 * step] in
    let answer := start + 3 * step in
    ret {| p_question := join (map (fun k => toString (of_Z k)) sequence) ++ str ", ?";
           p_answer := Num (of_Z answer) |}
  else if is_str difficulty (str "medium") then
    let* buffer := CryptoUtils.randomBytes 4 in
    let* u := of_outcome (CryptoBuffer.readUInt32LE buffer 0) in
    let start := Z.rem u 4 in
    let step := 2 in
    let sequence := [letter start; letter (start + step); letter (start + 2 * step)] in
    let nextIndex := start + 3 * step in
    if nextIndex >=? Z.of_nat (List.length letters) then
      ret {| p_question := join sequence ++ str ", ?"; p_answer := Str (str "?") |}
    else
      ret {| p_question := join sequence ++ str ", ?"; p_answer := Str (letter nextIndex) |}
  else
    let sequence := [1; 1; 2; 3] in
    ret {| p_question := join (map (fun k => toString (of_Z k)) sequence) ++ str ", ?";
           p_answer := Num (of_Z 5) |}.

End SequenceGenerator.

(** src/utils/scrambleGenerator.ts *)
Module ScrambleGenerator.

Definition words : list jsstring :=
  [str "apple"; str "cat"; str "dog"; str "house"; str "sun"; str "moon"; str "car";
   str "tree"; str "book"; str "water"; str "bread"; str "milk"; str "fish"; str "bird";
   str "flower"; str "star"; str "hand"; str "eye"; str "nose"; str "mouth"].

(** [array[x]] for a Number [x] *)
Definition at_number {A : Type} (l : list A) (x : number) : option A :=
  match to_index x with
  | Some i => l !! i
  | None => None
  end.

(** The loop of [scramble], [i] counting down to 1. *)
Fixpoint shuffle (i : nat) (arr : jsstring) : M World.t jsstring :=
  match i with
  | O => ret arr
  | S i' =>
      let* buffer := CryptoUtils.randomBytes 4 in
      let* u := of_outcome (CryptoBuffer.readUInt32LE buffer 0) in
      let j := Z.to_nat (u mod (Z.of_nat i + 1)) in
      match arr !! i, arr !! j with
      | Some ai, Some aj => shuffle i' (<[j := ai]> (<[i := aj]> arr))
      | _, _ => shuffle i' arr
      end
  end.

Definition scramble (word : jsstring) : M World.t jsstring :=
  shuffle (List.length word - 1) word.

Definition generate (difficulty : Value) : M World.t Puzzle :=
  let* buffer := CryptoUtils.randomBytes 4 in
  let* u := of_outcome (CryptoBuffer.readUInt32LE buffer 0) in
  let rand := Random.unit_interval u in
  let word :=
    if is_str difficulty (str "easy") then
      at_number words (Number.floor (mul rand (of_Z 10)))
    else if is_str difficulty (str "medium") then
      at_number words (Number.floor (mul rand (of_Z (Z.of_nat (List.length words)))))
    else Some (str "typescript") in
  match word with
  | None => throw TypeError     (* [word.split] on [undefined] *)
  | Some word =>
      let* scrambled := scramble word in
      ret {| p_question := scrambled; p_answer := Str word |}
  end.

End ScrambleGenerator.

(** src/utils/reverseGenerator.ts *)
Module ReverseGenerator.

Definition easyWords : list jsstring :=
  [str "cat"; str "dog"; str "sun"; str "moon"; str "star"; str "fish"; str "bird";
   str "tree"; str "ball"; str "book"; str "door"; str "lamp"; str "rock"; str "leaf";
   str "wind"; str "fire"; str "ice"; str "sky"; str "sea"; str "fog"; str "rain";
   str "snow"; str "bear"; str "wolf"; str "coin"; str "key"; str "cup"; str "pen";
   str "box"; str "hat"; str "map"; str "web"].

Definition mediumWords : list jsstring :=
  [str "apple"; str "house"; str "water"; str "bread"; str "ocean"; str "river";
   str "tiger"; str "eagle"; str "storm"; str "cloud"; str "flame"; str "frost";
   str "stone"; str "metal"; str "glass"; str "paper"; str "forest"; str "desert";
   str "valley"; str "castle"; str "bridge"; str "garden"; str "market"; str "temple";
   str "dragon"; str "wizard"; str "knight"; str "shield"; str "sword"; str "crown";
   str "jewel"; str "crystal"; str "planet"; str "galaxy"; str "comet"; str "nebula";
   str "cipher"; str "enigma"; str "puzzle"; str "riddle"; str "shadow"; str "mirror";
   str "portal"; str "beacon"; str "anchor"; str "compass"; str "lantern"; str "prism"].

Definition hardWords : list jsstring :=
  [str "typescript"; str "javascript"; str "encryption"; str "cryptography";
   str "algorithm"; str "infrastructure"; str "architecture"; str "authentication";
   str "authorization"; str "vulnerability"; str "cybersecurity"; str "blockchain";
   str "metamorphosis"; str "constellation"; str "synchronization"; str "transformation";
   str "illumination"; str "orchestration"; str "denomination"; str "comprehension";
   str "manifestation"; str "extraordinary"; str "revolutionary"; str "sophisticated";
   str "kaleidoscope"; str "optimization"; str "crystallization"; str "configuration";
   str "implementation"; str "parallelization"; str "serialization";
   str "decentralization"; str "internationalization"; str "containerization";
   str "virtualization"; str "obfuscation"; str "triangulation"; str "interpolation";
   str "extrapolation"; str "approximation"; str "segmentation"; str "fragmentation";
   str "concatenation"; str "regeneration"; str "degeneration"].

(** The three [if]s that choose [wordPool]; it stays [undefined] for any
    other difficulty. *)
Definition wordPool (difficulty : Value) : option (list jsstring) :=
  let pool := None in
  let pool := if is_str difficulty (str "easy") then Some easyWords else pool in
  let pool := if is_str difficulty (str "medium") then Some mediumWords else pool in
  let pool := if is_str difficulty (str "hard") then Some hardWords else pool in
  pool.

(** The word is drawn with [Math.random()], not with the secure source. *)
Definition generate (difficulty : Value) : M World.t Puzzle :=
  let pool := wordPool difficulty in
  let* r := World.Math_random in
  match pool with
  | None => throw TypeError     (* [wordPool.length] on [undefined] *)
  | Some pool =>
      match ScrambleGenerator.at_number pool
              (Number.floor (mul r (of_Z (Z.of_nat (List.length pool))))) with
      | None => throw TypeError   (* [text.split] on [undefined] *)
      | Some text =>
          let reversed := rev text in
          ret {| p_question := reversed; p_answer := Str text |}
      end
  end.

End ReverseGenerator.

(** ** src/validators/customQuestionValidator.ts *)

Module CustomQuestionValidator.

Definition MAX_QUESTIONS : Z := 100.
Definition MAX_QUESTION_LENGTH : Z := 500.
Definition MAX_ANSWER_LENGTH : Z := 200.
Definition MIN_QUESTION_LENGTH : Z := 5.
Definition MIN_ANSWER_LENGTH : Z := 1.
Definition VALID_DIFFICULTY : list jsstring := [str "easy"; str "medium"; str "hard"].

(** [{ valid: true }] or [{ valid: false, error }] *)
Inductive Validation := Valid | Invalid (error : jsstring).

Definition valid (v : Validation) : bool :=
  match v with Valid => true | Invalid _ => false end.

Definition validateSingle (question : Value) : Validation :=
  if negb (JSString.eqb (typeof question) (str "object"))
     || (match question with Null => true | _ => false end) then
    Invalid (str "Each question must be an object")
  else
    match prop question (str "question") with
    | Str q_question =>
        match prop question (str "answer") with
        | Str q_answer =>
            match prop question (str "difficulty") with
            | Str q_difficulty =>
                if negb (existsb (JSString.eqb q_difficulty) VALID_DIFFICULTY) then
                  Invalid (str "Difficulty must be one of: easy, medium, hard")
                else if JSString.length q_question <? MIN_QUESTION_LENGTH then
                  Invalid (str "Question must be at least 5 characters")
                else if JSString.length q_question >? MAX_QUESTION_LENGTH then
                  Invalid (str "Question must not exceed 500 characters")
                else if JSString.length q_answer <? MIN_ANSWER_LENGTH then
                  Invalid (str "Answer cannot be empty")
                else if JSString.length q_answer >? MAX_ANSWER_LENGTH then
                  Invalid (str "Answer must not exceed 200 characters")
                else Valid
            | _ => Invalid (str "Difficulty must be specified")
            end
        | _ => Invalid (str "Answer must be a string")
        end
    | _ => Invalid (str "Question text must be a string")
    end.

(** The loop over the questions, [i] being the index of the head. *)
Fixpoint validateFrom (i : Z) (questions : list Value) : Validation :=
  match questions with
  | [] => Valid
  | questionItem :: rest =>
      match validateSingle questionItem with
      | Invalid error =>
          Invalid (str "Question " ++ digits (i + 1) ++ str ": " ++ error)
      | Valid => validateFrom (i + 1) rest
      end
  end.

Definition validate (questions : Value) : Validation :=
  match questions with
  | Arr items =>
      if Z.of_nat (List.length items) =? 0 then
        Invalid (str "At least one question is required")
      else if Z.of_nat (List.length items) >? MAX_QUESTIONS then
        Invalid (str "Maximum 100 questions allowed")
      else validateFrom 0 items
  | _ => Invalid (str "Questions must be an array")
  end.

(** One element of [sanitize]: [q.question.trim()] and [q.answer.trim()]
    raise unless the two are strings. *)
Definition sanitizeOne (q : Value) : Outcome CustomQuestion :=
  match q with
  | Undefined | Null => Throws TypeError
  | _ =>
      match prop q (str "question"), prop q (str "answer") with
      | Str question, Str answer =>
          Returns {| cq_question := trim question; cq_answer := trim answer;
                     cq_difficulty := prop q (str "difficulty") |}
      | _, _ => Throws TypeError
      end
  end.

Fixpoint sanitizeAll (questions : list Value) : Outcome (list CustomQuestion) :=
  match questions with
  | [] => Returns []
  | q :: rest =>
      match sanitizeOne q with
      | Throws e => Throws e
      | Returns q' =>
          match sanitizeAll rest with
          | Throws e => Throws e
          | Returns rest' => Returns (q' :: rest')
          end
      end
  end.

Definition sanitize (questions : Value) : Outcome (list CustomQuestion) :=
  match questions with
  | Arr items => sanitizeAll items
  | _ => Throws TypeError
  end.

(** The array of objects that [sanitize] builds. *)
Definition to_value (questions : list CustomQuestion) : Value :=
  Arr (map (fun q => Obj [(str "question", Str (cq_question q));
                          (str "answer", Str (cq_answer q));
                          (str "difficulty", cq_difficulty q)]) questions).

End CustomQuestionValidator.

(** ** src/utils/customQuestionGenerator.ts *)

Module CustomQuestionGenerator.

Definition selectRandom (questions : list CustomQuestion)
  : M World.t (jsstring * jsstring) :=
  match questions with
  | [] => ret ([], [])
  | _ =>
      let* buffer := CryptoUtils.randomBytes 4 in
      let* u := of_outcome (CryptoBuffer.readUInt32LE buffer 0) in
      match questions !! Z.to_nat (u mod Z.of_nat (List.length questions)) with
      | Some selected => ret (cq_question selected, cq_answer selected)
      | None => throw TypeError
      end
  end.

(** [generate(difficulty?)]: [None] is the call without an argument. *)
Definition generate (questions : list CustomQuestion) (difficulty : option jsstring)
  : M World.t (jsstring * jsstring) :=
  let candidates :=
    match difficulty with
    | Some ((_ :: _) as d) => filter (fun q => is_str (cq_difficulty q) d) questions
    | _ => questions
    end in
  match candidates with
  | [] => selectRandom questions
  | _ => selectRandom candidates
  end.

End CustomQuestionGenerator.

(** ** src/core/captchaGenerator.ts *)

(** An options object, seen through the properties the code reads. *)
Record Options := {
  o_type : Value;
  o_difficulty : Value;
  o_locale : Value;
  o_questions : Value
}.

Module CaptchaGenerator.

Record t := {
  standardOptions : option Options;
  customOptions : option Options;
  customGenerator : option (list CustomQuestion);
  usedNonces : gset jsstring
}.

Definition isCustomOptions (options : Options) : bool :=
  is_str (o_type options) (str "custom") && isArray (o_questions options).

(** [new CaptchaGenerator(options)] *)
Definition constructor (options : Options) : Outcome t :=
  if isCustomOptions options then
    match CustomQuestionValidator.validate (o_questions options) with
    | CustomQuestionValidator.Invalid error =>
        Throws (Error (str "Invalid custom questions: " ++ error))
    | CustomQuestionValidator.Valid =>
        match CustomQuestionValidator.sanitize (o_questions options) with
        | Throws e => Throws e
        | Returns sanitized =>
            Returns {| standardOptions := None; customOptions := Some options;
                       customGenerator := Some sanitized; usedNonces := ∅ |}
        end
    end
  else
    Returns {| standardOptions := Some options; customOptions := None;
               customGenerator := None; usedNonces := ∅ |}.

Definition getDifficulty (g : t) : Value :=
  match standardOptions g with
  | None => Str (str "easy")
  | Some o => o_difficulty o
  end.

Definition getLocale (g : t) : Value :=
  match standardOptions g with
  | None => Str (str "en")
  | Some o => if truthy (o_locale o) then o_locale o else Str (str "en")
  end.

(** The argument of [createChallenge]. *)
Record Base := {
  b_type : jsstring;
  b_question : jsstring;
  b_answer : Value;
  b_steps : option (list CaptchaChallenge)
}.

Definition addNonce (nonce : jsstring) : M (t * World.t) unit :=
  fun '(g, w) =>
    Ok tt ({| standardOptions := standardOptions g; customOptions := customOptions g;
              customGenerator := customGenerator g;
              usedNonces := {[nonce]} ∪ usedNonces g |}, w).

(** The [do ... while] of [createChallenge]; every turn consumes 16 bytes
    of the source, whose length bounds the turns. *)
Fixpoint drawNonce (turns : nat) : M (t * World.t) jsstring :=
  match turns with
  | O => starve
  | S turns' =>
      let* nonce := on_snd Random.generateNonce in
      let* s := read in
      if bool_decide (nonce ∈ usedNonces (fst s)) then drawNonce turns'
      else ret nonce
  end.

Definition createChallenge (base : Base) : M (t * World.t) CaptchaChallenge :=
  let* s := read in
  let* nonce := drawNonce (S (List.length (World.entropy (snd s)))) in
  let* _ := addNonce nonce in
  let* now := on_snd World.Date_now in
  let expiry := of_Z (now + 5 * 60 * 1000) in
  let* salt := on_snd Random.generateSalt in
  let* hash := of_outcome (CryptoUtils.createHash (str "sha256")) in
  let* answer := of_outcome (method_toString (b_answer base)) in
  let hashedAnswer := CryptoHash.digest_hex (CryptoHash.update (answer ++ salt) hash) in
  ret {| type := b_type base; question := b_question base; answer := b_answer base;
         nonce := nonce; expiry := expiry; hashedAnswer := hashedAnswer; salt := salt;
         steps := b_steps base |}.

Definition calculateMath (a : number) (op : jsstring) (b : number) : number :=
  if JSString.eqb op (str "+") then add a b
  else if JSString.eqb op (str "-") then sub a b
  else if JSString.eqb op (str "*") then mul a b
  else if JSString.eqb op (str "/") then
    if strict_eq b (of_Z 0) then NaN
    else div (Number.round (mul (div a b) (of_Z 100))) (of_Z 100)
  else of_Z 0.

(** [generateMath]; the retry on a NaN answer consumes bytes of the
    source, whose length bounds the retries. *)
Fixpoint generateMathWithin (tries : nat) : M (t * World.t) CaptchaChallenge :=
  match tries with
  | O => starve
  | S tries' =>
      let* s := read in
      let* num1 := on_snd (Random.getRandomNumber (getDifficulty (fst s))) in
      let* num2 := on_snd (Random.getRandomNumber (getDifficulty (fst s))) in
      let* operator := on_snd Random.getRandomOperator in
      let* num2 :=
        if JSString.eqb operator (str "/") && strict_eq num2 (of_Z 0) then
          let* n := on_snd (Random.getRandomNumber (getDifficulty (fst s))) in
          ret (add n (of_Z 1))
        else ret num2 in
      let question := toString num1 ++ str " " ++ operator ++ str " " ++ toString num2 in
      let answer := calculateMath num1 operator num2 in
      if isNaN answer then generateMathWithin tries'
      else createChallenge {| b_type := str "math"; b_question := question;
                              b_answer := Num answer; b_steps := None |}
  end.

Definition generateMath : M (t * World.t) CaptchaChallenge :=
  let* s := read in
  generateMathWithin (S (List.length (World.entropy (snd s)))).

Definition generateText : M (t * World.t) CaptchaChallenge :=
  let* s := read in
  let* text := on_snd (Random.generateRandomString (getDifficulty (fst s))) in
  createChallenge {| b_type := str "text"; b_question := text; b_answer := Str text;
                     b_steps := None |}.

Definition generateSequence : M (t * World.t) CaptchaChallenge :=
  let* s := read in
  let* seq := on_snd (SequenceGenerator.generate (getDifficulty (fst s))) in
  createChallenge {| b_type := str "sequence"; b_question := p_question seq;
                     b_answer := p_answer seq; b_steps := None |}.

Definition generateScramble : M (t * World.t) CaptchaChallenge :=
  let* s := read in
  let* scr := on_snd (ScrambleGenerator.generate (getDifficulty (fst s))) in
  createChallenge {| b_type := str "scramble"; b_question := p_question scr;
                     b_answer := p_answer scr; b_steps := None |}.

Definition generateReverse : M (t * World.t) CaptchaChallenge :=
  let* s := read in
  let* rev := on_snd (ReverseGenerator.generate (getDifficulty (fst s))) in
  createChallenge {| b_type := str "reverse"; b_question := p_question rev;
                     b_answer := p_answer rev; b_steps := None |}.

Definition generateCustom : M (t * World.t) CaptchaChallenge :=
  let* s := read in
  match customGenerator (fst s) with
  | None => throw (Error (str "Custom generator not initialized"))
  | Some questions =>
      let* custom := on_snd (CustomQuestionGenerator.generate questions None) in
      createChallenge {| b_type := str "custom"; b_question := fst custom;
                         b_answer := Str (snd custom); b_steps := None |}
  end.

Section WithLocales.

Variable locales : Locale.Data.

Definition generateRiddle : M (t * World.t) CaptchaChallenge :=
  let* s := read in
  let* riddle := on_snd (RiddleBank.getRandom locales (getLocale (fst s))
                                              (getDifficulty (fst s))) in
  match riddle with
  | None => throw TypeError     (* [riddle.question] on [undefined] *)
  | Some riddle =>
      createChallenge {| b_type := str "riddle"; b_question := Locale.qa_question riddle;
                         b_answer := Str (Locale.qa_answer riddle); b_steps := None |}
  end.

Definition generateLogic : M (t * World.t) CaptchaChallenge :=
  let* s := read in
  let* logic := on_snd (LogicGenerator.getRandom locales (getLocale (fst s))
                                                 (getDifficulty (fst s))) in
  match logic with
  | None => throw TypeError
  | Some logic =>
      createChallenge {| b_type := str "logic"; b_question := Locale.qa_question logic;
                         b_answer := Str (Locale.qa_answer logic); b_steps := None |}
  end.

Definition generateMulti : M (t * World.t) CaptchaChallenge :=
  let* step1 := generateMath in
  let* step2 := generateRiddle in
  createChallenge {| b_type := str "multi"; b_question := str "Complete two steps";
                     b_answer := Str []; b_steps := Some [step1; step2] |}.

Definition types : list jsstring :=
  [str "math"; str "text"; str "riddle"; str "sequence"; str "scramble"; str "logic";
   str "reverse"].

(** [this.standardOptions.type = type] *)
Definition setType (type : Value) : M (t * World.t) unit :=
  fun '(g, w) =>
    match standardOptions g with
    | None => Ok tt (g, w)
    | Some o =>
        Ok tt ({| standardOptions :=
                    Some {| o_type := type; o_difficulty := o_difficulty o;
                            o_locale := o_locale o; o_questions := o_questions o |};
                  customOptions := customOptions g;
                  customGenerator := customGenerator g;
                  usedNonces := usedNonces g |}, w)
    end.

(** [generateMixed], given the [generate] it calls back. The type is put
    back only after [generate] has returned, and only if it was truthy. *)
Definition generateMixed (generate : M (t * World.t) CaptchaChallenge)
  : M (t * World.t) CaptchaChallenge :=
  let* buffer := on_snd (CryptoUtils.randomBytes 1) in
  let randomType := nth (Z.to_nat (nth 0 buffer 0 mod 7)) types [] in
  let* s := read in
  let previousType :=
    match standardOptions (fst s) with
    | None => Undefined
    | Some o => o_type o
    end in
  let* _ := setType (Str randomType) in
  let* challenge := generate in
  let* _ := if truthy previousType then setType previousType else ret tt in
  createChallenge {| b_type := str "mixed"; b_question := question challenge;
                     b_answer := answer challenge; b_steps := steps challenge |}.

(** [generate]; [generateMixed] consumes a byte of the source before it
    calls [generate] again, so the length of the source bounds the
    depth. *)
Fixpoint generateWithin (depth : nat) : M (t * World.t) CaptchaChallenge :=
  match depth with
  | O => starve
  | S depth' =>
      let* s := read in
      match customOptions (fst s) with
      | Some _ => generateCustom
      | None =>
          match standardOptions (fst s) with
          | None => throw (Error (str "Generator not properly initialized"))
          | Some o =>
              let captchaType := o_type o in
              if is_str captchaType (str "math") then generateMath
              else if is_str captchaType (str "text") then generateText
              else if is_str captchaType (str "riddle") then generateRiddle
              else if is_str captchaType (str "sequence") then generateSequence
              else if is_str captchaType (str "scramble") then generateScramble
              else if is_str captchaType (str "logic") then generateLogic
              else if is_str captchaType (str "reverse") then generateReverse
              else if is_str captchaType (str "multi") then generateMulti
              else generateMixed (generateWithin depth')
          end
      end
  end.

Definition generate : M (t * World.t) CaptchaChallenge :=
  let* s := read in
  generateWithin (2 + List.length (World.entropy (snd s))).

End WithLocales.

End CaptchaGenerator.

(** ** src/index.ts *)

Module K9Guard.

(** The instance: its generator. The private [options] field is the very
    object the generator holds and is not read after construction. *)
Record t := { generator : CaptchaGenerator.t }.

(** The default of the constructor's parameter. *)
Definition defaultOptions : Value :=
  Obj [(str "type", Str (str "math")); (str "difficulty", Str (str "medium"))].

(** [v || 'literal'] *)
Definition or_else (v : Value) (d : jsstring) : Value :=
  if truthy v then v else Str d.

Definition processOptions (options : Value) : Outcome Options :=
  if negb (JSString.eqb (typeof options) (str "object"))
     || (match options with Null => true | _ => false end) then
    Returns {| o_type := Str (str "math"); o_difficulty := Str (str "medium");
               o_locale := Str (str "en"); o_questions := Undefined |}
  else
    let opt := options in
    if is_str (prop opt (str "type")) (str "custom") then
      if negb (isArray (prop opt (str "questions"))) then
        Throws (Error (str "Custom type requires questions array"))
      else
        match CustomQuestionValidator.validate (prop opt (str "questions")) with
        | CustomQuestionValidator.Invalid error =>
            Throws (Error (str "Invalid custom questions: " ++ error))
        | CustomQuestionValidator.Valid =>
            match CustomQuestionValidator.sanitize (prop opt (str "questions")) with
            | Throws e => Throws e
            | Returns questions =>
                Returns {| o_type := Str (str "custom"); o_difficulty := Undefined;
                           o_locale := Undefined;
                           o_questions := CustomQuestionValidator.to_value questions |}
            end
        end
    else
      Returns {| o_type := or_else (prop opt (str "type")) (str "math");
                 o_difficulty := or_else (prop opt (str "difficulty")) (str "medium");
                 o_locale := or_else (prop opt (str "locale")) (str "en");
                 o_questions := Undefined |}.

(** [new K9Guard(options)]; an argument left out is [Undefined]. *)
Definition constructor (options : Value) : Outcome t :=
  let options := match options with Undefined => defaultOptions | _ => options end in
  match processOptions options with
  | Throws e => Throws e
  | Returns processedOptions =>
      match CaptchaGenerator.constructor processedOptions with
      | Throws e => Throws e
      | Returns g => Returns {| generator := g |}
      end
  end.

Definition generate (locales : Locale.Data) : M (t * World.t) CaptchaChallenge :=
  fun '(k, w) =>
    match CaptchaGenerator.generate locales (generator k, w) with
    | Ok c (g, w') => Ok c ({| generator := g |}, w')
    | Fail e (g, w') => Fail e ({| generator := g |}, w')
    | Starved => Starved
    end.

(** What [validate] may be handed as its challenge: any plain value, as
    [JSON.parse] builds them. An object is seen through the properties
    that are read: the seven fields, [steps] (again any value), and, for
    an object that stands where the array of steps is expected, its
    [length] and its properties [0], [1], ... *)
#[local] Set Warnings "-register-all".

Record PropertiesOf (U : Type) := {
  r_type : Value;
  r_question : Value;
  r_answer : Value;
  r_nonce : Value;
  r_expiry : Value;
  r_hashedAnswer : Value;
  r_salt : Value;
  r_steps : U;
  r_length : Value;
  r_items : list U
}.
Arguments r_type {U} _.
Arguments r_question {U} _.
Arguments r_answer {U} _.
Arguments r_nonce {U} _.
Arguments r_expiry {U} _.
Arguments r_hashedAnswer {U} _.
Arguments r_salt {U} _.
Arguments r_steps {U} _.
Arguments r_length {U} _.
Arguments r_items {U} _.
Arguments Build_PropertiesOf {U} _ _ _ _ _ _ _ _ _ _.

Inductive Unknown :=
| UUndefined
| UNull
| UBoolean (b : bool)
| UNumber (x : number)
| UString (s : jsstring)
| UArray (items : list Unknown)
| UObject (c : PropertiesOf Unknown).

Definition Properties : Type := PropertiesOf Unknown.

Definition typeof_unknown (u : Unknown) : jsstring :=
  match u with
  | UUndefined => str "undefined"
  | UNull | UArray _ | UObject _ => str "object"
  | UBoolean _ => str "boolean"
  | UNumber _ => str "number"
  | UString _ => str "string"
  end.

(** [c.k] for one of the seven fields: a TypeError on [undefined] and
    [null], [undefined] on the other primitives and on an array. *)
Definition read_property (u : Unknown) (k : Properties -> Value) : Outcome Value :=
  match u with
  | UUndefined | UNull => Throws TypeError
  | UObject c => Returns (k c)
  | _ => Returns Undefined
  end.

(** [typeof c.k === t], in a chain of [&&]. *)
Definition and_typeof (u : Unknown) (k : Properties -> Value) (t : jsstring)
    (rest : Outcome bool) : Outcome bool :=
  match read_property u k with
  | Throws e => Throws e
  | Returns v => if JSString.eqb (typeof v) t then rest else Returns false
  end.

Definition isValidChallenge (challenge : Unknown) : Outcome bool :=
  if negb (JSString.eqb (typeof_unknown challenge) (str "object"))
     || (match challenge with UNull => true | _ => false end) then Returns false
  else
    let c := challenge in
    and_typeof c r_type (str "string")
      (and_typeof c r_question (str "string")
        (and_typeof c r_nonce (str "string")
          (and_typeof c r_expiry (str "number")
            (and_typeof c r_hashedAnswer (str "string")
              (and_typeof c r_salt (str "string") (Returns true)))))).

(** *** [CaptchaValidator.validate] on the object as it was handed over

    [K9Guard.validate] has checked six fields of the challenge itself;
    the steps, and the fields of each step, are whatever the record
    holds. This is src/core/captchaValidator.ts read without the types:
    [CaptchaValidator.validate] above is its restriction to records of
    the declared type. *)

(** [!v] *)
Definition falsy (u : Unknown) : bool :=
  match u with
  | UUndefined | UNull => true
  | UBoolean b => negb b
  | UNumber x => negb (truthy (Num x))
  | UString s => negb (truthy (Str s))
  | UArray _ | UObject _ => false
  end.

(** [challenge.k] on a value that is neither [undefined] nor [null]. *)
Definition field (u : Unknown) (k : Properties -> Value) : Value :=
  match u with
  | UObject c => k c
  | _ => Undefined
  end.

(** [steps.length === 0] *)
Definition length_is_zero (steps : Unknown) : bool :=
  match steps with
  | UString s => (List.length s =? 0)%nat
  | UArray items => (List.length items =? 0)%nat
  | UObject c =>
      match r_length c with
      | Num x => strict_eq x (of_Z 0)
      | _ => false
      end
  | _ => false
  end.

(** [n !== steps.length], [n] being the length of an array. *)
Definition length_differs (n : nat) (steps : Unknown) : bool :=
  negb
    match steps with
    | UString s => (n =? List.length s)%nat
    | UArray items => (n =? List.length items)%nat
    | UObject c =>
        match r_length c with
        | Num x => strict_eq (of_Z (Z.of_nat n)) x
        | _ => false
        end
    | _ => false
    end.

(** [userInput + challenge.salt], hashed and compared: the conversion of
    the salt to a string raises a TypeError on an object whose own
    [toString] is not a function. *)
Definition verifyAnswer (challenge : Unknown) (userInput : jsstring) : Outcome bool :=
  match ToString (field challenge r_salt) with
  | Throws e => Throws e
  | Returns salt =>
      let userHash := NodeCrypto.sha256_hex (userInput ++ salt) in
      Returns match field challenge r_hashedAnswer with
              | Str hashedAnswer => JSString.eqb userHash hashedAnswer
              | _ => false
              end
  end.

Definition isNumericChallenge (challenge : Unknown) : bool :=
  is_str (field challenge r_type) (str "math")
  || is_str (field challenge r_type) (str "sequence")
  || (is_str (field challenge r_type) (str "mixed")
      && JSString.eqb (typeof (field challenge r_answer)) (str "number")).

Definition validateNumeric (challenge : Unknown) (userInput : jsstring) : Outcome bool :=
  let inputNum := parseFloat userInput in
  if isNaN inputNum || negb (isFinite inputNum) then Returns false
  else verifyAnswer challenge (toString inputNum).

(** [validateText], and [validateCustom], which has the same body. *)
Definition validateText (challenge : Unknown) (userInput : jsstring) : Outcome bool :=
  let sanitized := trim userInput in
  if negb (CaptchaValidator.VALID_CHAR_REGEX_test sanitized) then Returns false
  else verifyAnswer challenge sanitized.

(** The loop of [validateMulti]: [items] are the steps from index [i] on,
    [parsed] the answers from [i] on; the loop ends with the answers, a
    step that is missing is [undefined]. *)
Fixpoint validateSteps (validate : Unknown -> jsstring -> Outcome bool)
    (items : list Unknown) (parsed : list Value) {struct items} : Outcome bool :=
  match parsed with
  | [] => Returns true
  | input :: parsed' =>
      match items with
      | [] => Returns false
      | step :: items' =>
          if falsy step then Returns false
          else
            match input with
            | Str input =>
                match validate step input with
                | Throws e => Throws e
                | Returns false => Returns false
                | Returns true => validateSteps validate items' parsed'
                end
            | _ => Returns false
            end
      end
  end.

(** [validateMulti]. When [steps] is a string, each step is one of its
    characters, on which [validate] gives [false]: the first turn of the
    loop ends it. *)
Definition validateMulti (validate : Unknown -> jsstring -> Outcome bool)
    (steps : Unknown) (userInput : jsstring) : Outcome bool :=
  if falsy steps || length_is_zero steps then Returns false
  else
    match JSON_parse userInput with
    | Some (Arr parsed) =>
        if length_differs (List.length parsed) steps then Returns false
        else
          match steps with
          | UArray items => validateSteps validate items parsed
          | UObject c => validateSteps validate (r_items c) parsed
          | _ => Returns false
          end
    | _ => Returns false
    end.

Fixpoint validateAny (challenge : Unknown) (userInput : jsstring) {struct challenge}
  : Outcome bool :=
  if negb (CaptchaValidator.isValidInput (Str userInput)) then Returns false
  else if is_str (field challenge r_type) (str "multi") then
    match challenge with
    | UObject c => validateMulti validateAny (r_steps c) userInput
    | _ => Returns false
    end
  else if is_str (field challenge r_type) (str "custom") then
    validateText challenge userInput
  else if isNumericChallenge challenge then
    validateNumeric challenge userInput
  else validateText challenge userInput.

(** A challenge of the declared type as the object it is. *)
Fixpoint of_challenge (c : CaptchaChallenge) : Unknown :=
  UObject
    {| r_type := Str (type c); r_question := Str (question c);
       r_answer := answer c; r_nonce := Str (nonce c);
       r_expiry := Num (expiry c); r_hashedAnswer := Str (hashedAnswer c);
       r_salt := Str (salt c);
       r_steps :=
         match steps c with
         | None => UUndefined
         | Some sts =>
             UArray ((fix each (l : list CaptchaChallenge) : list Unknown :=
                        match l with
                        | [] => []
                        | s :: l' => of_challenge s :: each l'
                        end) sts)
         end;
       r_length := Undefined; r_items := [] |}.

(** [validate(challenge, userInput)], [now] being what [Date.now()]
    returns. After [isValidChallenge] the expiry is a number. *)
Definition validate (now : Z) (challenge : Unknown) (userInput : Value) : Outcome bool :=
  match isValidChallenge challenge with
  | Throws e => Throws e
  | Returns false => Returns false
  | Returns true =>
      match userInput with
      | Str userInput =>
          let expired :=
            match field challenge r_expiry with
            | Num expiry => gtb (of_Z now) expiry
            | _ => false
            end in
          if expired then Returns false
          else validateAny challenge userInput
      | _ => Returns false
      end
  end.

End K9Guard.

(** ** Vocabulary of the statements *)

Definition is_byte (b : Z) : Prop := 0 <= b < 256.

(** A challenge object that lacks one of the six fields [isValidChallenge]
    asks for, or has it at another type. *)
Definition missing_field (c : K9Guard.Properties) : Prop :=
  typeof (K9Guard.r_type c) <> str "string"
  \/ typeof (K9Guard.r_question c) <> str "string"
  \/ typeof (K9Guard.r_nonce c) <> str "string"
  \/ typeof (K9Guard.r_expiry c) <> str "number"
  \/ typeof (K9Guard.r_hashedAnswer c) <> str "string"
  \/ typeof (K9Guard.r_salt c) <> str "string".

Definition structurally_incomplete (challenge : K9Guard.Unknown) : Prop :=
  match challenge with
  | K9Guard.UObject c => missing_field c
  | _ => True
  end.

(** The kinds that are verified as numbers. *)
Definition numeric_kind (c : CaptchaChallenge) : Prop :=
  type c = str "math" \/ type c = str "sequence"
  \/ (type c = str "mixed" /\ exists x, answer c = Num x).

(** The nonces of a challenge and of its steps. *)
Fixpoint all_nonces (c : CaptchaChallenge) : list jsstring :=
  nonce c ::
  match steps c with
  | None => []
  | Some sts =>
      (fix of_steps (l : list CaptchaChallenge) : list jsstring :=
         match l with
         | [] => []
         | s :: l' => all_nonces s ++ of_steps l'
         end) sts
  end.

(** A challenge and its steps. *)
Definition with_steps (c : CaptchaChallenge) : list CaptchaChallenge :=
  c :: match steps c with Some sts => sts | None => [] end.

(** The calls of [generate] on one generator instance, each in the world
    it finds: the challenges issued, in order. A call that raised was caught
    by the caller and the instance used again. *)
Inductive issues (locales : Locale.Data)
  : CaptchaGenerator.t -> list CaptchaChallenge -> CaptchaGenerator.t -> Prop :=
| issues_none (g : CaptchaGenerator.t) : issues locales g [] g
| issues_one (g g1 g2 : CaptchaGenerator.t) (w w1 : World.t)
    (c : CaptchaChallenge) (cs : list CaptchaChallenge) :
    CaptchaGenerator.generate locales (g, w) = Ok c (g1, w1) ->
    issues locales g1 cs g2 ->
    issues locales g (c :: cs) g2
| issues_raised (g g1 g2 : CaptchaGenerator.t) (w w1 : World.t)
    (e : Exception) (cs : list CaptchaChallenge) :
    CaptchaGenerator.generate locales (g, w) = Fail e (g1, w1) ->
    issues locales g1 cs g2 ->
    issues locales g cs g2.

(** What a call may do to the generator and to the clock: nonces are only
    added, the custom questions and the difficulty and locale of the options
    stay, the clock only advances. *)
Definition same_settings (o o' : option Options) : Prop :=
  match o, o' with
  | None, None => True
  | Some a, Some b =>
      o_difficulty a = o_difficulty b /\ o_locale a = o_locale b
      /\ o_questions a = o_questions b
  | _, _ => False
  end.

Record step_of (s s' : CaptchaGenerator.t * World.t) : Prop := {
  nonces_kept : CaptchaGenerator.usedNonces (fst s) ⊆ CaptchaGenerator.usedNonces (fst s');
  settings_kept :
    same_settings (CaptchaGenerator.standardOptions (fst s))
                  (CaptchaGenerator.standardOptions (fst s'));
  custom_kept :
    CaptchaGenerator.customOptions (fst s') = CaptchaGenerator.customOptions (fst s)
    /\ CaptchaGenerator.customGenerator (fst s') = CaptchaGenerator.customGenerator (fst s);
  clock_advances : exists past, World.clock (snd s) = past ++ World.clock (snd s')
}.

Definition clock_kept (w w' : World.t) : Prop := World.clock w' = World.clock w.

(** The position of the leading bit of [m * 2^e]. *)
Definition magnitude_of (m : positive) (e : Z) : Z := Zpos (digits2_pos m) + e.

(** A finite, non-zero number of the given sign, with a mantissa of at most
    53 bits, whose magnitude lies in [[lo, hi]]. *)
Definition finite_within (s : bool) (lo hi : Z) (x : number) : Prop :=
  exists m e,
    x = S754_finite s m e /\ lo <= magnitude_of m e <= hi /\ Zpos (digits2_pos m) <= 53.

(** Zero, or a positive number below [2^hi]. *)
Definition zero_or_within (hi : Z) (x : number) : Prop :=
  x = S754_zero false \/ finite_within false 1 hi x.

(** The world after [n] bytes of the secure source have been delivered. *)
Definition consumed (n : nat) (w : World.t) : World.t :=
  {| World.entropy := skipn n (World.entropy w); World.prng := World.prng w;
     World.clock := World.clock w |}.

(** Every state a computation ends in, with a value or an exception, is
    related by [R] to the one it started from. *)
Definition respects {S : Type} (R : S -> S -> Prop) {A : Type} (m : M S A) : Prop :=
  forall s,
    match m s with
    | Ok _ s' => R s s'
    | Fail _ s' => R s s'
    | Starved => True
    end.

(** A computation that issues a challenge well: its nonces are new to the
    instance, distinct and recorded, and it and its steps expire five
    minutes after a clock reading taken by the call. *)
Definition issues_well (m : M (CaptchaGenerator.t * World.t) CaptchaChallenge) : Prop :=
  forall g w c g' w',
    m (g, w) = Ok c (g', w') ->
    List.NoDup (all_nonces c)
    /\ (forall n, In n (all_nonces c) ->
          (n ∉ CaptchaGenerator.usedNonces g) /\ (n ∈ CaptchaGenerator.usedNonces g'))
    /\ (exists past, World.clock w = past ++ World.clock w'
          /\ forall x, In x (with_steps c) ->
               exists now, In now past /\ expiry x = of_Z (now + 5 * 60 * 1000)).

(** A character of [0-9a-f]. *)
Definition is_lower_hex (c : Z) : bool :=
  ((48 <=? c) && (c <=? 57)) || ((97 <=? c) && (c <=? 102)).

(** Every value a computation returns satisfies [P]. *)
Definition yields {S A : Type} (P : A -> Prop) (m : M S A) : Prop :=
  forall s a s', m s = Ok a s' -> P a.

(** A character of [A-Za-z0-9]. *)
Definition is_alnum (c : Z) : bool :=
  ((65 <=? c) && (c <=? 90)) || ((97 <=? c) && (c <=? 122)) || is_digit c.

(** The options and the custom questions of the instance are what they
    were. *)
Definition same_options (s s' : CaptchaGenerator.t * World.t) : Prop :=
  CaptchaGenerator.standardOptions (fst s') = CaptchaGenerator.standardOptions (fst s)
  /\ CaptchaGenerator.customOptions (fst s') = CaptchaGenerator.customOptions (fst s)
  /\ CaptchaGenerator.customGenerator (fst s') = CaptchaGenerator.customGenerator (fst s).

(** What [createChallenge] adds to a challenge: a nonce of 32 characters, a
    salt of 16, and the digest, 64 hexadecimal characters, of the answer's
    string followed by the salt. *)
Definition sealed (c : CaptchaChallenge) : Prop :=
  List.length (nonce c) = 32%nat
  /\ List.length (salt c) = 16%nat
  /\ List.length (hashedAnswer c) = 64%nat
  /\ forallb is_lower_hex (hashedAnswer c) = true
  /\ exists a, method_toString (answer c) = Returns a
               /\ hashedAnswer c
                  = CryptoHash.digest_hex (CryptoHash.update (a ++ salt c) CryptoHash.create).

(** The kinds [generate] has a branch for, [mixed] being the last resort. *)
Definition listed_kinds : list jsstring :=
  [str "math"; str "text"; str "riddle"; str "sequence"; str "scramble"; str "logic";
   str "reverse"; str "multi"].

(** The instance with its kind replaced. *)
Definition with_kind (g : CaptchaGenerator.t) (kind : Value) : CaptchaGenerator.t :=
  match CaptchaGenerator.standardOptions g with
  | None => g
  | Some o =>
      {| CaptchaGenerator.standardOptions :=
           Some {| o_type := kind; o_difficulty := o_difficulty o;
                   o_locale := o_locale o; o_questions := o_questions o |};
         CaptchaGenerator.customOptions := CaptchaGenerator.customOptions g;
         CaptchaGenerator.customGenerator := CaptchaGenerator.customGenerator g;
         CaptchaGenerator.usedNonces := CaptchaGenerator.usedNonces g |}
  end.

(** A challenge of the given kind as [generate] builds it: sealed, without
    steps unless it is a multi challenge, which has an empty answer and two
    sealed steps, a math one and a riddle. *)
Definition issued_as (kind : jsstring) (c : CaptchaChallenge) : Prop :=
  type c = kind /\ sealed c
  /\ if JSString.eqb kind (str "multi") then
       answer c = Str []
       /\ exists s1 s2,
            steps c = Some [s1; s2]
            /\ type s1 = str "math" /\ sealed s1 /\ steps s1 = None
            /\ type s2 = str "riddle" /\ sealed s2 /\ steps s2 = None
     else steps c = None.

(** A custom question as an instance keeps it: trimmed, within the length
    bounds of the validator, with one of the three difficulties. *)
Definition well_kept (q : CustomQuestion) : Prop :=
  5 <= JSString.length (cq_question q) <= 500
  /\ 1 <= JSString.length (cq_answer q) <= 200
  /\ trim (cq_question q) = cq_question q
  /\ trim (cq_answer q) = cq_answer q
  /\ In (cq_difficulty q) [Str (str "easy"); Str (str "medium"); Str (str "hard")].

(** The object [sanitize] builds for a question. *)
Definition item (q : CustomQuestion) : Value :=
  Obj [(str "question", Str (cq_question q)); (str "answer", Str (cq_answer q));
       (str "difficulty", cq_difficulty q)].

(** The [i]-th nonce that [createChallenge] draws in the world [w]: sixteen
    bytes of the source, in hexadecimal. *)
Definition candidate (w : World.t) (i : nat) : jsstring :=
  hex (firstn 16 (skipn (16 * i) (World.entropy w))).

(** ** Sample data for the concrete runs *)

Module Sample.

(** A challenge whose [hashedAnswer] is the digest the verifier computes
    for [answer] and [salt]. *)
Definition committed (kind : jsstring) (answer : Value) (text salt : jsstring)
  : CaptchaChallenge :=
  {| type := kind; question := str "?"; answer := answer; nonce := str "00";
     expiry := of_Z 1700000300000;
     hashedAnswer := NodeCrypto.sha256_hex (text ++ salt); salt := salt;
     steps := None |}.

(** A math challenge for the answer 8. *)
Definition eight : CaptchaChallenge :=
  committed (str "math") (Num (of_Z 8)) (str "8") (str "a8cdf2173c6186ab").

(** A text challenge for the answer [cat]. *)
Definition cat : CaptchaChallenge :=
  committed (str "text") (Str (str "cat")) (str "cat") (str "0b30557a9fc4e90e").

(** A multi challenge of the two. *)
Definition two_steps : CaptchaChallenge :=
  {| type := str "multi"; question := str "Complete two steps"; answer := Str [];
     nonce := str "01"; expiry := of_Z 1700000300000;
     hashedAnswer := NodeCrypto.sha256_hex (str "5b80a5caef14395e");
     salt := str "5b80a5caef14395e"; steps := Some [eight; cat] |}.

(** The answers of [two_steps] as JSON, followed by 1000 spaces. *)
Definition padded_answers : jsstring :=
  stringify_strings [str "8"; str "cat"] ++ repeat 32 1000.

(** [8] followed by 1000 letters. *)
Definition eight_and_letters : jsstring := 56 :: repeat 97 1000.

Definition challenge_without_salt : K9Guard.Unknown :=
  K9Guard.UObject
    {| K9Guard.r_type := Str (str "math"); K9Guard.r_question := Str (str "5 + 3");
       K9Guard.r_answer := Undefined; K9Guard.r_nonce := Str (str "00");
       K9Guard.r_expiry := Num (of_Z 1700000000000);
       K9Guard.r_hashedAnswer := Str (str "ab"); K9Guard.r_salt := Undefined;
       K9Guard.r_steps := K9Guard.UUndefined; K9Guard.r_length := Undefined;
       K9Guard.r_items := [] |}.

(** Question banks of one entry each. *)
Definition locales : Locale.Data :=
  {| Locale.en_riddles :=
       [{| Locale.qa_question := str "What has keys but can't open locks?";
           Locale.qa_answer := str "piano" |}];
     Locale.tr_riddles :=
       [{| Locale.qa_question := str "Hangi anahtar kapi acmaz?";
           Locale.qa_answer := str "piyano" |}];
     Locale.en_logics :=
       [{| Locale.qa_question := str "Water is dry. True or False?";
           Locale.qa_answer := str "false" |}];
     Locale.tr_logics :=
       [{| Locale.qa_question := str "Su kurudur. Dogru mu yanlis mi?";
           Locale.qa_answer := str "yanlis" |}] |}.

(** A byte tape. *)
Definition bytes (n : nat) : list Z :=
  map (fun k => (Z.of_nat k * 37 + 11) mod 256) (seq 0 n).

Definition world : World.t :=
  {| World.entropy := bytes 400;
     World.prng := [div (of_Z 1) (of_Z 2); div (of_Z 1) (of_Z 4)];
     World.clock := [1700000000000; 1700000000001; 1700000000002; 1700000000003;
                     1700000000004; 1700000000005; 1700000000006; 1700000000007] |}.

(** The options [{ type, difficulty }]. *)
Definition options (kind difficulty : jsstring) : Value :=
  Obj [(str "type", Str kind); (str "difficulty", Str difficulty)].

(** The generator of [new K9Guard({ type, difficulty })]. *)
Definition generator (kind difficulty : jsstring) : CaptchaGenerator.t :=
  match K9Guard.constructor (options kind difficulty) with
  | Returns k => K9Guard.generator k
  | Throws _ =>
      {| CaptchaGenerator.standardOptions := None; CaptchaGenerator.customOptions := None;
         CaptchaGenerator.customGenerator := None; CaptchaGenerator.usedNonces := ∅ |}
  end.

(** [new K9Guard({ type, difficulty })] *)
Definition guard (kind difficulty : jsstring) : K9Guard.t :=
  {| K9Guard.generator := generator kind difficulty |}.

(** [Sample.world] with the two [Math.random()] results swapped. *)
Definition world_other_prng : World.t :=
  {| World.entropy := World.entropy world;
     World.prng := [div (of_Z 1) (of_Z 4); div (of_Z 1) (of_Z 2)];
     World.clock := World.clock world |}.

(** Options whose three fields are set to values the types do not list. *)
Definition unlisted_options : Value :=
  Obj [(str "type", Str (str "bogus")); (str "difficulty", Str (str "extreme"));
       (str "locale", Str (str "fr"))].

(** [{ type: 'riddle', difficulty: 'easy', locale: 'fr' }] *)
Definition riddle_in_french : Value :=
  Obj [(str "type", Str (str "riddle")); (str "difficulty", Str (str "easy"));
       (str "locale", Str (str "fr"))].

(** [Sample.eight] as the object handed to [validate]. *)
Definition eight_properties : K9Guard.Properties :=
  {| K9Guard.r_type := Str (type eight); K9Guard.r_question := Str (question eight);
     K9Guard.r_answer := answer eight; K9Guard.r_nonce := Str (nonce eight);
     K9Guard.r_expiry := Num (expiry eight);
     K9Guard.r_hashedAnswer := Str (hashedAnswer eight);
     K9Guard.r_salt := Str (salt eight); K9Guard.r_steps := K9Guard.UUndefined;
     K9Guard.r_length := Undefined; K9Guard.r_items := [] |}.

(** [{ locale: 'tr' }]: kind and difficulty left out. *)
Definition only_locale : Value := Obj [(str "locale", Str (str "tr"))].

(** [{ type: 'mixed', difficulty: 'easy', locale: 'fr' }] *)
Definition mixed_in_french : Value :=
  Obj [(str "type", Str (str "mixed")); (str "difficulty", Str (str "easy"));
       (str "locale", Str (str "fr"))].

(** A world whose first byte makes [generateMixed] draw the kind riddle. *)
Definition world_drawing_riddle : World.t :=
  {| World.entropy := 2 :: bytes 100; World.prng := World.prng world;
     World.clock := World.clock world |}.

(** [{ type: 'custom', questions: [{ question: '  2 + 2 = ?  ', answer: ' 4 ',
    difficulty: 'easy' }, { question: 'Capital of France?', answer: 'Paris',
    difficulty: 'hard' }] }] *)
Definition custom_options : Value :=
  Obj [(str "type", Str (str "custom"));
       (str "questions",
        Arr [Obj [(str "question", Str (str "  2 + 2 = ?  "));
                  (str "answer", Str (str " 4 "));
                  (str "difficulty", Str (str "easy"))];
             Obj [(str "question", Str (str "Capital of France?"));
                  (str "answer", Str (str "Paris"));
                  (str "difficulty", Str (str "hard"))]])].

(** As above with one question whose answer is a blank. *)
Definition custom_with_blank_answer : Value :=
  Obj [(str "type", Str (str "custom"));
       (str "questions",
        Arr [Obj [(str "question", Str (str "What is missing?"));
                  (str "answer", Str (str " "));
                  (str "difficulty", Str (str "easy"))]])].

(** Two questions as an instance keeps them. *)
Definition two_questions : list CustomQuestion :=
  [{| cq_question := str "2 + 2 = ?"; cq_answer := str "4";
      cq_difficulty := Str (str "easy") |};
   {| cq_question := str "Capital of France?"; cq_answer := str "Paris";
      cq_difficulty := Str (str "hard") |}].

(** The argument of [createChallenge] for the question [5 / 1]. *)
Definition five_by_one : CaptchaGenerator.Base :=
  {| CaptchaGenerator.b_type := str "math"; CaptchaGenerator.b_question := str "5 / 1";
     CaptchaGenerator.b_answer := Num (of_Z 5); CaptchaGenerator.b_steps := None |}.

(** A complete multi challenge, as [JSON.parse] gives it, whose one step
    has the salt [{ "toString": 1 }]. *)
Definition multi_with_odd_salt : K9Guard.Unknown :=
  K9Guard.UObject
    {| K9Guard.r_type := Str (str "multi"); K9Guard.r_question := Str (str "q");
       K9Guard.r_answer := Str []; K9Guard.r_nonce := Str (str "01");
       K9Guard.r_expiry := Num (of_Z 1700000300000);
       K9Guard.r_hashedAnswer := Str (str "ab"); K9Guard.r_salt := Str (str "cd");
       K9Guard.r_steps :=
         K9Guard.UArray
           [K9Guard.UObject
              {| K9Guard.r_type := Undefined; K9Guard.r_question := Undefined;
                 K9Guard.r_answer := Undefined; K9Guard.r_nonce := Undefined;
                 K9Guard.r_expiry := Undefined; K9Guard.r_hashedAnswer := Undefined;
                 K9Guard.r_salt := Obj [(str "toString", Num (of_Z 1))];
                 K9Guard.r_steps := K9Guard.UUndefined; K9Guard.r_length := Undefined;
                 K9Guard.r_items := [] |}];
       K9Guard.r_length := Undefined; K9Guard.r_items := [] |}.

End Sample.

(** * Properties *)

(** ** Numbers: rounding a positive value of moderate size

    The arithmetic of the generators stays far from the overflow and
    underflow thresholds of binary64; there every rounding gives a finite,
    non-zero number whose magnitude (the position of its leading bit) is the
    one of the exact value, or one more. *)

Section Rounding.

Local Open Scope Z_scope.

Lemma digits2_log2 (p : positive) : Zpos (digits2_pos p) = Z.log2 (Zpos p) + 1.
Proof.
  induction p as [p IH|p IH|]; cbn [digits2_pos]; try reflexivity.
  - rewrite Pos2Z.inj_succ, IH. cbn [Z.log2]. destruct p; cbn; lia.
  - rewrite Pos2Z.inj_succ, IH. cbn [Z.log2]. destruct p; cbn; lia.
Qed.

Lemma Zdigits2_log2 (m : Z) : 0 < m -> Zdigits2 m = Z.log2 m + 1.
Proof. destruct m as [|p|p]; try lia. intros _. apply digits2_log2. Qed.

Lemma shr_1_m (mrs : shr_record) :
  0 <= shr_m mrs -> shr_m (shr_1 mrs) = shr_m mrs / 2.
Proof.
  destruct mrs as [m r s]. cbn [shr_m]. intros Hm.
  destruct m as [|[p|p|]|p]; cbn [shr_1 shr_m]; try lia; try reflexivity.
  - rewrite Pos2Z.inj_xI. apply Z.div_unique with (r := 1); lia.
  - rewrite Pos2Z.inj_xO. apply Z.div_unique with (r := 0); lia.
Qed.

(** [iter_pos] is iteration. *)
Lemma iter_pos_invariant {A : Type} (f : A -> A) (P : Z -> A -> Prop) :
  (forall k x, 0 <= k -> P k x -> P (k + 1) (f x)) ->
  forall (n : positive) (k : Z) (x : A),
    0 <= k -> P k x -> P (k + Zpos n) (SpecFloat.iter_pos f n x).
Proof.
  intros Hf n. induction n as [n IH|n IH|]; intros k x Hk Hx; cbn [SpecFloat.iter_pos].
  - replace (k + Zpos n~1) with ((k + 1 + Zpos n) + Zpos n) by lia.
    apply IH; [lia|]. apply IH; [lia|]. apply Hf; assumption.
  - replace (k + Zpos n~0) with ((k + Zpos n) + Zpos n) by lia.
    apply IH; [lia|]. apply IH; assumption.
  - apply Hf; assumption.
Qed.

Lemma shr_m_iter (n : positive) (mrs : shr_record) :
  0 <= shr_m mrs ->
  shr_m (SpecFloat.iter_pos shr_1 n mrs) = shr_m mrs / 2 ^ Zpos n.
Proof.
  intros Hm.
  assert (Hstep : forall k x, 0 <= k ->
            shr_m x = shr_m mrs / 2 ^ k -> shr_m (shr_1 x) = shr_m mrs / 2 ^ (k + 1)).
  { intros k x Hk Hx. rewrite shr_1_m.
    - rewrite Hx, Z.pow_add_r, Z.pow_1_r, Z.div_div by lia. reflexivity.
    - rewrite Hx. apply Z.div_pos; [exact Hm|apply Z.pow_pos_nonneg; lia]. }
  pose proof (iter_pos_invariant shr_1 (fun k x => shr_m x = shr_m mrs / 2 ^ k)
                Hstep n 0 mrs (Z.le_refl 0)) as H.
  cbn beta in H. rewrite Z.add_0_l in H. apply H.
  rewrite Z.pow_0_r, Z.div_1_r. reflexivity.
Qed.

Lemma log2_div_pow2 (m n : Z) :
  0 < m -> 0 <= n -> n <= Z.log2 m -> Z.log2 (m / 2 ^ n) = Z.log2 m - n.
Proof.
  intros Hm Hn Hle. rewrite <- Z.shiftr_div_pow2 by lia.
  rewrite Z.log2_shiftr by lia. lia.
Qed.

Lemma div_pow2_pos (m n : Z) : 0 < m -> 0 <= n -> n <= Z.log2 m -> 0 < m / 2 ^ n.
Proof.
  intros Hm Hn Hle. apply Z.div_str_pos. split; [apply Z.pow_pos_nonneg; lia|].
  transitivity (2 ^ Z.log2 m); [apply Z.pow_le_mono_r; lia|].
  apply Z.log2_spec. exact Hm.
Qed.

Lemma shr_record_of_loc_m (m : Z) (l : location) : shr_m (shr_record_of_loc m l) = m.
Proof. destruct l as [|[| |]]; reflexivity. Qed.

(** The first alignment: a positive mantissa of more than 53 bits loses
    the excess, the magnitude stays. *)
Lemma shr_fexp_pos (m e : Z) (l : location) :
  0 < m -> -1000 <= Zdigits2 m + e <= 1000 ->
  exists mrs e',
    shr_fexp prec emax m e l = (mrs, e')
    /\ 0 < shr_m mrs
    /\ Zdigits2 (shr_m mrs) + e' = Zdigits2 m + e
    /\ Zdigits2 (shr_m mrs) = Z.min 53 (Zdigits2 m)
    /\ (Zdigits2 m <= 53 -> mrs = shr_record_of_loc m l).
Proof.
  intros Hm Hmag. unfold shr_fexp, shr, fexp, emin, prec, emax.
  rewrite (Zdigits2_log2 m Hm) in *.
  pose proof (Z.log2_nonneg m) as Hl.
  replace (Z.max (Z.log2 m + 1 + e - 53) (3 - 1024 - 53) - e) with (Z.log2 m - 52) by lia.
  destruct (Z.log2 m - 52) as [|n|n] eqn:En.
  - eexists. eexists. split; [reflexivity|]. rewrite shr_record_of_loc_m.
    rewrite (Zdigits2_log2 m Hm). repeat split; try lia.
  - eexists. eexists. split; [reflexivity|].
    rewrite shr_m_iter by (rewrite shr_record_of_loc_m; lia).
    rewrite shr_record_of_loc_m.
    assert (Hq : 0 < m / 2 ^ Zpos n) by (apply div_pow2_pos; lia).
    rewrite (Zdigits2_log2 _ Hq), log2_div_pow2 by lia.
    repeat split; try lia.
  - eexists. eexists. split; [reflexivity|]. rewrite shr_record_of_loc_m.
    rewrite (Zdigits2_log2 m Hm). repeat split; try lia.
Qed.

Lemma round_nearest_even_bounds (m : Z) (l : location) :
  m <= round_nearest_even m l <= m + 1.
Proof.
  unfold round_nearest_even. destruct l as [|[| |]]; try lia.
  destruct (Z.even m); lia.
Qed.

Lemma log2_succ_bounds (m : Z) : 0 < m -> Z.log2 m <= Z.log2 (m + 1) <= Z.log2 m + 1.
Proof.
  intros Hm. split; [apply Z.log2_le_mono; lia|].
  pose proof (Z.log2_succ_le m) as H. unfold Z.succ in H. lia.
Qed.

(** Rounding a positive mantissa of moderate magnitude gives a finite
    number of the same sign and of the same magnitude, or one more. *)
Lemma binary_round_aux_finite (s : bool) (m e : Z) (l : location) :
  0 < m -> e <= 900 -> -1000 <= Zdigits2 m + e <= 900 ->
  finite_within s (Zdigits2 m + e) (Zdigits2 m + e + 1)
    (binary_round_aux prec emax s m e l).
Proof.
  intros Hm He Hmag. unfold binary_round_aux.
  destruct (shr_fexp_pos m e l Hm ltac:(lia)) as (mrs1 & e1 & -> & H1 & M1 & D1 & _).
  set (m2 := round_nearest_even (shr_m mrs1) (loc_of_shr_record mrs1)).
  pose proof (round_nearest_even_bounds (shr_m mrs1) (loc_of_shr_record mrs1)) as Hr.
  fold m2 in Hr.
  assert (Hm2 : 0 < m2) by lia.
  assert (D2 : Zdigits2 (shr_m mrs1) <= Zdigits2 m2 <= Zdigits2 (shr_m mrs1) + 1).
  { rewrite (Zdigits2_log2 _ H1), (Zdigits2_log2 _ Hm2).
    assert (m2 = shr_m mrs1 \/ m2 = shr_m mrs1 + 1) as [->| ->] by lia; [lia|].
    pose proof (log2_succ_bounds _ H1). lia. }
  destruct (shr_fexp_pos m2 e1 loc_Exact Hm2 ltac:(lia))
    as (mrs3 & e3 & -> & H3 & M3 & D3 & _).
  destruct (shr_m mrs3) as [|p3|p3] eqn:E3; try lia.
  assert (He3 : e3 <= emax - prec).
  { unfold emax, prec. cbn [Zdigits2] in M3, D3.
    destruct (Z.le_gt_cases (Zdigits2 m) 53); lia. }
  apply Z.leb_le in He3. rewrite He3.
  exists p3, e3. split; [reflexivity|]. unfold magnitude_of.
  cbn [Zdigits2] in M3, D3. lia.
Qed.

Lemma digits2_iter_xO (p : positive) (k : positive) :
  Zpos (digits2_pos (Pos.iter xO p k)) = Zpos (digits2_pos p) + Zpos k.
Proof.
  rewrite !digits2_log2.
  assert (H : Zpos (Pos.iter xO p k) = Zpos p * 2 ^ Zpos k).
  { induction k as [|k IH] using Pos.peano_ind.
    - cbn [Pos.iter]. lia.
    - rewrite Pos.iter_succ, Pos2Z.inj_xO, IH, Pos2Z.inj_succ, Z.pow_succ_r by lia. lia. }
  rewrite H, Z.log2_mul_pow2 by lia. lia.
Qed.

Lemma shl_align_magnitude (m : positive) (e e' : Z) :
  magnitude_of (fst (shl_align m e e')) (snd (shl_align m e e')) = magnitude_of m e
  /\ (e' <= e -> snd (shl_align m e e') = e').
Proof.
  unfold shl_align, magnitude_of. destruct (e' - e) as [|d|d] eqn:Ed; cbn [fst snd].
  - split; [reflexivity|lia].
  - split; [reflexivity|lia].
  - rewrite digits2_iter_xO. split; lia.
Qed.

Lemma binary_round_finite (s : bool) (m : positive) (e : Z) :
  -900 <= e <= 900 -> magnitude_of m e <= 900 ->
  finite_within s (magnitude_of m e) (magnitude_of m e + 1) (binary_round prec emax s m e).
Proof.
  intros He Hmag. unfold binary_round.
  pose proof (shl_align_magnitude m e (fexp prec emax (Zpos (digits2_pos m) + e))) as [Hs _].
  destruct (shl_align m e _) as [mz ez] eqn:Ez. cbn [fst snd] in Hs.
  assert (Hez : ez <= e).
  { unfold shl_align in Ez. destruct (_ - e) as [|d|d] eqn:Ed; inversion Ez; lia. }
  unfold magnitude_of in *. rewrite <- Hs.
  apply (binary_round_aux_finite s (Zpos mz) ez loc_Exact); cbn [Zdigits2]; lia.
Qed.

(** The Number of a positive integer below [2^900]. *)
Lemma of_Z_finite (z : Z) :
  0 < z -> Z.log2 z < 899 ->
  finite_within false (Z.log2 z + 1) (Z.log2 z + 2) (of_Z z).
Proof.
  intros Hz Hl. destruct z as [|p|p]; try lia.
  unfold of_Z, binary_normalize.
  pose proof (binary_round_finite false p 0 ltac:(lia)) as H.
  unfold magnitude_of in H. rewrite digits2_log2, Z.add_0_r in H.
  replace (Z.log2 (Zpos p) + 2) with (Z.log2 (Zpos p) + 1 + 1) by lia.
  apply H. lia.
Qed.

End Rounding.

Section Arithmetic.

Local Open Scope Z_scope.

Lemma finite_within_weaken (s : bool) (lo hi lo' hi' : Z) (x : number) :
  finite_within s lo hi x -> lo' <= lo -> hi <= hi' -> finite_within s lo' hi' x.
Proof.
  intros (m & e & -> & H & D) Hlo Hhi. exists m, e. repeat split; lia.
Qed.

Lemma finite_within_not_nan (s : bool) (lo hi : Z) (x : number) :
  finite_within s lo hi x -> isNaN x = false /\ isFinite x = true.
Proof. intros (m & e & -> & _). split; reflexivity. Qed.

Lemma log2_bounds (m : Z) : 0 < m -> 2 ^ Z.log2 m <= m < 2 ^ (Z.log2 m + 1).
Proof. intros Hm. pose proof (Z.log2_spec m Hm) as H. unfold Z.succ in H. exact H. Qed.

(** The quotient that [SFdiv] rounds. *)
Lemma SFdiv_core_magnitude (m1 m2 : positive) (e1 e2 : Z) :
  -400 <= magnitude_of m1 e1 <= 400 -> -400 <= magnitude_of m2 e2 <= 400 ->
  Zpos (digits2_pos m1) <= 53 -> Zpos (digits2_pos m2) <= 53 ->
  exists q e' l,
    SFdiv_core_binary prec emax (Zpos m1) e1 (Zpos m2) e2 = (q, e', l)
    /\ 0 < q /\ e' <= 900
    /\ magnitude_of m1 e1 - magnitude_of m2 e2 <= Zdigits2 q + e'
       <= magnitude_of m1 e1 - magnitude_of m2 e2 + 1.
Proof.
  unfold magnitude_of. intros H1 H2 D1 D2.
  unfold SFdiv_core_binary, fexp, emin, prec, emax. cbn [Zdigits2].
  rewrite !digits2_log2 in *.
  set (l1 := Z.log2 (Zpos m1)) in *. set (l2 := Z.log2 (Zpos m2)) in *.
  assert (Hl1 : 0 <= l1) by apply Z.log2_nonneg.
  assert (Hl2 : 0 <= l2) by apply Z.log2_nonneg.
  set (e' := Z.min (Z.max (l1 + 1 + e1 - (l2 + 1 + e2) - 53) (3 - 1024 - 53)) (e1 - e2)).
  assert (He' : e' = Z.min (l1 + e1 - l2 - e2 - 53) (e1 - e2)) by lia.
  set (s := e1 - e2 - e').
  assert (Hs : 0 <= s /\ 0 <= l1 + s - l2 - 1) by lia.
  set (m' := match s with Zpos _ => Z.shiftl (Zpos m1) s | 0 => Zpos m1 | Zneg _ => 0 end).
  assert (Hm' : m' = Zpos m1 * 2 ^ s).
  { unfold m'. destruct s as [|p|p] eqn:Es; [lia| |lia].
    rewrite Z.shiftl_mul_pow2 by lia. reflexivity. }
  pose proof (log2_bounds (Zpos m1) ltac:(lia)) as B1.
  pose proof (log2_bounds (Zpos m2) ltac:(lia)) as B2.
  fold l1 in B1. fold l2 in B2.
  assert (Hq : m' / Zpos m2 = fst (Z.div_eucl m' (Zpos m2))) by reflexivity.
  destruct (Z.div_eucl m' (Zpos m2)) as [q r] eqn:Ediv. cbn [fst] in Hq.
  exists q, e', (new_location (Zpos m2) r). split; [reflexivity|].
  assert (Hlow : 2 ^ (l1 + s - l2 - 1) <= q).
  { rewrite <- Hq. apply Z.div_le_lower_bound; [lia|].
    rewrite Hm'. transitivity (2 ^ (l2 + 1) * 2 ^ (l1 + s - l2 - 1)).
    - apply Z.mul_le_mono_nonneg_r; [apply Z.pow_nonneg|]; lia.
    - rewrite <- Z.pow_add_r by lia.
      assert (E : 2 ^ (l2 + 1 + (l1 + s - l2 - 1)) = 2 ^ l1 * 2 ^ s).
      { rewrite <- Z.pow_add_r by lia. f_equal. lia. }
      rewrite E.
      apply Z.mul_le_mono_nonneg_r; [apply Z.pow_nonneg|]; lia. }
  assert (Hup : q < 2 ^ (l1 + 1 + s - l2)).
  { rewrite <- Hq. apply Z.div_lt_upper_bound; [lia|].
    rewrite Hm'. apply Z.lt_le_trans with (2 ^ (l1 + 1) * 2 ^ s).
    - apply Z.mul_lt_mono_pos_r; [apply Z.pow_pos_nonneg|]; lia.
    - rewrite <- Z.pow_add_r by lia.
      assert (E : 2 ^ (l1 + 1 + s) = 2 ^ l2 * 2 ^ (l1 + 1 + s - l2)).
      { rewrite <- Z.pow_add_r by lia. f_equal. lia. }
      rewrite E.
      apply Z.mul_le_mono_nonneg_r; [apply Z.pow_nonneg|]; lia. }
  assert (Hqpos : 0 < q).
  { apply Z.lt_le_trans with (2 ^ (l1 + s - l2 - 1)); [apply Z.pow_pos_nonneg; lia|exact Hlow]. }
  split; [exact Hqpos|]. split; [lia|].
  rewrite (Zdigits2_log2 q Hqpos).
  apply Z.log2_le_pow2 in Hlow; [|exact Hqpos].
  apply Z.log2_lt_pow2 in Hup; [|exact Hqpos].
  lia.
Qed.

Lemma div_finite (lx hx ly hy : Z) (x y : number) :
  finite_within false lx hx x -> finite_within false ly hy y ->
  -400 <= lx -> hx <= 400 -> -400 <= ly -> hy <= 400 ->
  finite_within false (lx - hy) (hx - ly + 2) (div x y).
Proof.
  intros (mx & ex & -> & Hx & Dx) (my & ey & -> & Hy & Dy) ? ? ? ?.
  unfold div. cbn [SFdiv].
  destruct (SFdiv_core_magnitude mx my ex ey ltac:(lia) ltac:(lia) Dx Dy)
    as (q & e' & l & -> & Hq & He' & Hm).
  eapply finite_within_weaken;
    [apply (binary_round_aux_finite (xorb false false) q e' l Hq He'); lia|lia|lia].
Qed.

Lemma mul_finite (lx hx ly hy : Z) (x y : number) :
  finite_within false lx hx x -> finite_within false ly hy y ->
  -400 <= lx -> hx <= 400 -> -400 <= ly -> hy <= 400 ->
  finite_within false (lx + ly - 1) (hx + hy + 1) (mul x y).
Proof.
  intros (mx & ex & -> & Hx & Dx) (my & ey & -> & Hy & Dy) ? ? ? ?.
  unfold mul. cbn [SFmul]. unfold magnitude_of in *.
  rewrite !digits2_log2 in *.
  pose proof (Z.log2_mul_below (Zpos mx) (Zpos my) ltac:(lia) ltac:(lia)) as Hb.
  pose proof (Z.log2_mul_above (Zpos mx) (Zpos my) ltac:(lia) ltac:(lia)) as Ha.
  pose proof (Z.log2_nonneg (Zpos mx)). pose proof (Z.log2_nonneg (Zpos my)).
  assert (Hd : Zdigits2 (Zpos (mx * my))
               = Z.log2 (Zpos mx * Zpos my) + 1).
  { rewrite (Zdigits2_log2 (Zpos (mx * my))) by lia. rewrite Pos2Z.inj_mul. reflexivity. }
  eapply finite_within_weaken;
    [apply (binary_round_aux_finite (xorb false false) (Zpos (mx * my)) (ex + ey) loc_Exact);
     rewrite ?Hd; lia
    |rewrite Hd; lia|rewrite Hd; lia].
Qed.

Lemma of_Z_zero_or_within (z hi : Z) :
  0 <= z < 2 ^ hi -> 0 <= hi <= 800 -> zero_or_within (hi + 1) (of_Z z).
Proof.
  intros Hz Hhi. destruct (Z.eq_dec z 0) as [->|Hne]; [left; reflexivity|right].
  assert (Hl : Z.log2 z < hi) by (apply Z.log2_lt_pow2; lia).
  pose proof (Z.log2_nonneg z).
  eapply finite_within_weaken; [apply of_Z_finite; lia|lia|lia].
Qed.

(** [Math.floor] of a positive number. *)
Lemma floor_zero_or_within (lo hi : Z) (x : number) :
  finite_within false lo hi x -> -400 <= lo -> 0 <= hi <= 400 ->
  zero_or_within (hi + 1) (Number.floor x).
Proof.
  intros (m & e & -> & Hm & D) Hlo Hhi. unfold Number.floor, fraction, magnitude_of in *.
  rewrite digits2_log2 in *.
  pose proof (log2_bounds (Zpos m) ltac:(lia)) as B.
  pose proof (Z.log2_nonneg (Zpos m)) as Hl.
  destruct (0 <=? e) eqn:He.
  - apply Z.leb_le in He. rewrite Z.div_1_r.
    apply of_Z_zero_or_within; [|lia]. split; [lia|].
    apply Z.lt_le_trans with (2 ^ (Z.log2 (Zpos m) + 1) * 2 ^ e).
    + apply Z.mul_lt_mono_pos_r; [apply Z.pow_pos_nonneg|]; lia.
    + rewrite <- Z.pow_add_r by lia. apply Z.pow_le_mono_r; lia.
  - apply Z.leb_gt in He.
    apply of_Z_zero_or_within; [|lia]. split.
    + apply Z.div_pos; [lia|apply Z.pow_pos_nonneg; lia].
    + apply Z.div_lt_upper_bound; [apply Z.pow_pos_nonneg; lia|].
      destruct (Z.le_gt_cases 0 (Z.log2 (Zpos m) + 1 + e)) as [Hge|Hlt].
      * apply Z.lt_le_trans with (2 ^ (Z.log2 (Zpos m) + 1)); [lia|].
        rewrite <- Z.pow_add_r by lia. apply Z.pow_le_mono_r; lia.
      * apply Z.lt_le_trans with (2 ^ (Z.log2 (Zpos m) + 1)); [lia|].
        transitivity (2 ^ (- e) * 1); [rewrite Z.mul_1_r; apply Z.pow_le_mono_r; lia|].
        apply Z.mul_le_mono_nonneg_l; [apply Z.pow_nonneg; lia|].
        pose proof (Z.pow_pos_nonneg 2 hi ltac:(lia) ltac:(lia)). lia.
Qed.

(** The sum or difference that [SFadd] and [SFsub] round. *)
Lemma binary_normalize_not_nan (z e : Z) :
  -900 <= e <= 100 -> Z.log2 (Z.abs z) <= 700 ->
  isNaN (binary_normalize prec emax z e false) = false.
Proof.
  intros He Hz. destruct z as [|p|p]; [reflexivity| |];
    change (Z.log2 (Zpos p) <= 700) in Hz.
  - eapply finite_within_not_nan.
    apply (binary_round_finite false p e); [lia|].
    unfold magnitude_of. rewrite digits2_log2. lia.
  - eapply finite_within_not_nan.
    apply (binary_round_finite true p e); [lia|].
    unfold magnitude_of. rewrite digits2_log2. lia.
Qed.

Lemma aligned_bounds (m : positive) (e e' : Z) :
  e' <= e -> e - e' <= 30 -> Zpos (digits2_pos m) <= 53 ->
  0 < Zpos (fst (shl_align m e e')) < 2 ^ 84.
Proof.
  intros He Hd D. split; [lia|].
  pose proof (shl_align_magnitude m e e') as [Hm Hs]. specialize (Hs He).
  unfold magnitude_of in Hm. rewrite Hs, !digits2_log2 in *.
  apply Z.log2_lt_pow2; lia.
Qed.

Lemma add_finite (lx hx ly hy : Z) (x y : number) :
  finite_within false lx hx x -> finite_within false ly hy y ->
  -400 <= lx -> hx <= 400 -> -400 <= ly -> hy <= 400 ->
  finite_within false (Z.max lx ly) (Z.max hx hy + 2) (add x y).
Proof.
  intros (mx & ex & -> & Hx & Dx) (my & ey & -> & Hy & Dy) ? ? ? ?.
  unfold add. cbn [SFadd cond_Zopp]. unfold magnitude_of in *.
  set (ez := Z.min ex ey).
  pose proof (shl_align_magnitude mx ex ez) as [Mx Sx].
  pose proof (shl_align_magnitude my ey ez) as [My Sy].
  specialize (Sx ltac:(lia)). specialize (Sy ltac:(lia)).
  unfold magnitude_of in Mx, My. rewrite Sx in Mx. rewrite Sy in My.
  destruct (Zpos (fst (shl_align mx ex ez)) + Zpos (fst (shl_align my ey ez)))
    as [|p|p] eqn:Ep; try lia.
  cbn [binary_normalize].
  assert (Hp : Z.max (Zpos (digits2_pos (fst (shl_align mx ex ez))))
                     (Zpos (digits2_pos (fst (shl_align my ey ez))))
               <= Zpos (digits2_pos p)
               <= Z.max (Zpos (digits2_pos (fst (shl_align mx ex ez))))
                        (Zpos (digits2_pos (fst (shl_align my ey ez)))) + 1).
  { rewrite !digits2_log2. rewrite <- Ep.
    set (a := Zpos (fst (shl_align mx ex ez))) in *.
    set (b := Zpos (fst (shl_align my ey ez))) in *.
    assert (0 < a) by (unfold a; lia). assert (0 < b) by (unfold b; lia).
    pose proof (Z.log2_le_mono a (a + b) ltac:(lia)).
    pose proof (Z.log2_le_mono b (a + b) ltac:(lia)).
    pose proof (Z.log2_nonneg a). pose proof (Z.log2_nonneg b).
    pose proof (log2_bounds a ltac:(lia)) as Ba.
    pose proof (log2_bounds b ltac:(lia)) as Bb.
    set (M := Z.max (Z.log2 a) (Z.log2 b)).
    assert (Hlt : a + b < 2 ^ (M + 2)).
    { pose proof (Z.pow_le_mono_r 2 (Z.log2 a + 1) (M + 1) ltac:(lia) ltac:(lia)).
      pose proof (Z.pow_le_mono_r 2 (Z.log2 b + 1) (M + 1) ltac:(lia) ltac:(lia)).
      replace (M + 2) with (M + 1 + 1) by lia.
      rewrite (Z.pow_add_r 2 (M + 1) 1) by lia. lia. }
    apply Z.log2_lt_pow2 in Hlt; lia. }
  pose proof (Pos2Z.is_pos (digits2_pos mx)). pose proof (Pos2Z.is_pos (digits2_pos my)).
  eapply finite_within_weaken;
    [apply (binary_round_finite false p ez); unfold magnitude_of; lia| |];
    unfold magnitude_of; lia.
Qed.

End Arithmetic.

Section Draws.

Local Open Scope Z_scope.

Lemma of_Z_small (k : Z) : 0 < k <= 100 -> finite_within false 1 8 (of_Z k).
Proof.
  intros Hk. pose proof (Z.log2_nonneg k).
  assert (Z.log2 k < 7) by (apply Z.log2_lt_pow2; lia).
  eapply finite_within_weaken; [apply of_Z_finite; lia|lia|lia].
Qed.

Lemma fraction_bound (m : positive) (e hi : Z) :
  magnitude_of m e <= hi -> 0 <= hi ->
  0 < fst (fraction m e) /\ 0 < snd (fraction m e)
  /\ fst (fraction m e) < 2 ^ hi * snd (fraction m e).
Proof.
  unfold magnitude_of, fraction. rewrite digits2_log2. intros Hm Hhi.
  pose proof (log2_bounds (Zpos m) ltac:(lia)) as B.
  pose proof (Z.log2_nonneg (Zpos m)) as Hl.
  destruct (0 <=? e) eqn:He; cbn [fst snd].
  - apply Z.leb_le in He.
    pose proof (Z.pow_pos_nonneg 2 e ltac:(lia) He).
    split; [lia|]. split; [lia|]. rewrite Z.mul_1_r.
    apply Z.lt_le_trans with (2 ^ (Z.log2 (Zpos m) + 1) * 2 ^ e).
    + apply Z.mul_lt_mono_pos_r; lia.
    + rewrite <- Z.pow_add_r by lia. apply Z.pow_le_mono_r; lia.
  - apply Z.leb_gt in He.
    pose proof (Z.pow_pos_nonneg 2 (- e) ltac:(lia) ltac:(lia)).
    split; [lia|]. split; [lia|].
    rewrite <- Z.pow_add_r by lia.
    apply Z.lt_le_trans with (2 ^ (Z.log2 (Zpos m) + 1)); [lia|].
    apply Z.pow_le_mono_r; lia.
Qed.

(** [Math.round] of a positive number. *)
Lemma round_zero_or_within (lo hi : Z) (x : number) :
  finite_within false lo hi x -> 0 <= hi <= 400 ->
  zero_or_within (hi + 2) (Number.round x).
Proof.
  intros (m & e & -> & Hm & D) Hhi. unfold Number.round.
  destruct (fraction_bound m e hi ltac:(lia) ltac:(lia)) as (Hn & Hd & Hlt).
  destruct (fraction m e) as [n d]. cbn [fst snd] in *.
  set (k := (2 * n + d) / (2 * d)).
  pose proof (Z.pow_pos_nonneg 2 hi ltac:(lia) ltac:(lia)) as HP.
  assert (Hk : 0 <= k < 2 ^ (hi + 1)).
  { split.
    - apply Z.div_pos; lia.
    - apply Z.div_lt_upper_bound; [lia|].
      rewrite Z.pow_add_r by lia.
      replace (2 * d * (2 ^ hi * 2 ^ 1)) with (4 * (2 ^ hi * d)) by ring.
      assert (1 * d <= 2 ^ hi * d) by (apply Z.mul_le_mono_nonneg_r; lia).
      lia. }
  destruct (k =? 0) eqn:Ek; [left; reflexivity|].
  replace (hi + 2) with (hi + 1 + 1) by lia.
  apply of_Z_zero_or_within; lia.
Qed.

(** [Math.floor(rand * k) + 1] for a 32-bit reading [u], [rand] being
    [u / 0xFFFFFFFF]: never zero, never NaN. *)
Lemma scaled_draw_small (u k : Z) :
  0 <= u < 4294967296 -> 0 < k <= 100 ->
  finite_within false 1 15
    (add (Number.floor (mul (Random.unit_interval u) (of_Z k))) (of_Z 1)).
Proof.
  intros Hu Hk. unfold Random.unit_interval.
  pose proof (of_Z_small k Hk) as Fk.
  assert (F1 : finite_within false 1 1 (of_Z 1)).
  { exists 4503599627370496%positive, (-52). repeat split; vm_compute; congruence. }
  assert (Fd : finite_within false 32 32 (of_Z 4294967295)).
  { exists 9007199252643840%positive, (-21). repeat split; vm_compute; congruence. }
  destruct (Z.eq_dec u 0) as [->|Hne].
  - destruct Fk as (m & e & -> & _).
    eapply finite_within_weaken; [exact F1|lia|lia].
  - assert (Fu : finite_within false 1 33 (of_Z u)).
    { pose proof (Z.log2_nonneg u).
      assert (Z.log2 u < 32) by (apply Z.log2_lt_pow2; lia).
      eapply finite_within_weaken; [apply of_Z_finite; lia|lia|lia]. }
    assert (Fr : finite_within false (-31) 3 (div (of_Z u) (of_Z 4294967295))).
    { eapply finite_within_weaken; [apply (div_finite _ _ _ _ _ _ Fu Fd); lia|lia|lia]. }
    assert (Fm : finite_within false (-31) 12
                   (mul (div (of_Z u) (of_Z 4294967295)) (of_Z k))).
    { eapply finite_within_weaken; [apply (mul_finite _ _ _ _ _ _ Fr Fk); lia|lia|lia]. }
    destruct (floor_zero_or_within _ _ _ Fm ltac:(lia) ltac:(lia)) as [->|Ff].
    + eapply finite_within_weaken; [exact F1|lia|lia].
    + eapply finite_within_weaken;
        [apply (add_finite _ _ _ _ _ _ Ff F1); lia|lia|lia].
Qed.

Lemma scaled_draw_finite (u k : Z) :
  0 <= u < 4294967296 -> 0 < k <= 100 ->
  finite_within false 1 72
    (add (Number.floor (mul (Random.unit_interval u) (of_Z k))) (of_Z 1)).
Proof.
  intros Hu Hk.
  eapply finite_within_weaken; [apply (scaled_draw_small u k Hu Hk)|lia|lia].
Qed.

Lemma strict_eq_zero (s : bool) (lo hi : Z) (x : number) :
  finite_within s lo hi x -> strict_eq x (of_Z 0) = false.
Proof. intros (m & e & -> & _). destruct s; reflexivity. Qed.

Lemma sub_not_nan (lx hx ly hy : Z) (x y : number) :
  finite_within false lx hx x -> finite_within false ly hy y ->
  -100 <= lx -> hx <= 100 -> -100 <= ly -> hy <= 100 ->
  isNaN (sub x y) = false.
Proof.
  intros (mx & ex & -> & Hx & Dx) (my & ey & -> & Hy & Dy) ? ? ? ?.
  unfold sub. cbn [SFsub cond_Zopp]. unfold magnitude_of in *.
  pose proof (Pos2Z.is_pos (digits2_pos mx)). pose proof (Pos2Z.is_pos (digits2_pos my)).
  set (ez := Z.min ex ey).
  pose proof (shl_align_magnitude mx ex ez) as [Mx Sx].
  pose proof (shl_align_magnitude my ey ez) as [My Sy].
  specialize (Sx ltac:(lia)). specialize (Sy ltac:(lia)).
  unfold magnitude_of in Mx, My. rewrite Sx in Mx. rewrite Sy in My.
  rewrite !digits2_log2 in *.
  set (a := Zpos (fst (shl_align mx ex ez))) in *.
  set (b := Zpos (fst (shl_align my ey ez))) in *.
  assert (Ha : 0 < a) by (unfold a; lia). assert (Hb : 0 < b) by (unfold b; lia).
  apply binary_normalize_not_nan; [lia|].
  change (Z.log2 (Z.abs (a + - b)) <= 700).
  destruct (Z.eq_dec (a + - b) 0) as [->|Hne]; [vm_compute; discriminate|].
  assert (Hle : Z.abs (a + - b) <= Z.max a b) by lia.
  apply Z.log2_le_mono in Hle.
  destruct (Z.max_spec a b) as [[_ E]|[_ E]]; rewrite E in Hle; lia.
Qed.

(** The answer of a math challenge on two drawn operands is a number. *)
Lemma calculateMath_not_nan (a b : number) (op : jsstring) :
  finite_within false 1 72 a -> finite_within false 1 72 b ->
  isNaN (CaptchaGenerator.calculateMath a op b) = false.
Proof.
  intros Fa Fb. unfold CaptchaGenerator.calculateMath.
  assert (F100 : finite_within false 1 8 (of_Z 100)) by (apply of_Z_small; lia).
  destruct (JSString.eqb op (str "+")).
  { eapply finite_within_not_nan.
    apply (add_finite _ _ _ _ _ _ Fa Fb); lia. }
  destruct (JSString.eqb op (str "-")).
  { apply (sub_not_nan _ _ _ _ _ _ Fa Fb); lia. }
  destruct (JSString.eqb op (str "*")).
  { eapply finite_within_not_nan.
    apply (mul_finite _ _ _ _ _ _ Fa Fb); lia. }
  destruct (JSString.eqb op (str "/")); [|reflexivity].
  rewrite (strict_eq_zero _ _ _ _ Fb).
  assert (Fq : finite_within false (-71) 73 (div a b)).
  { eapply finite_within_weaken; [apply (div_finite _ _ _ _ _ _ Fa Fb); lia|lia|lia]. }
  assert (Fm : finite_within false (-71) 82 (mul (div a b) (of_Z 100))).
  { eapply finite_within_weaken; [apply (mul_finite _ _ _ _ _ _ Fq F100); lia|lia|lia]. }
  destruct (round_zero_or_within _ _ _ Fm ltac:(lia)) as [->|Fr].
  - destruct F100 as (m & e & -> & _). reflexivity.
  - eapply finite_within_not_nan.
    apply (div_finite _ _ _ _ _ _ Fr F100); lia.
Qed.

End Draws.

(** ** The digest of the issuer *)

Section DigestRefinement.

Import CryptoHash.

Lemma land_255 (x : Z) : Z.land x 255 = x mod 256.
Proof. change 255 with (Z.ones 8). rewrite Z.land_ones by lia. reflexivity. Qed.

Lemma lxor_byte (a b : Z) : is_byte a -> is_byte b -> is_byte (Z.lxor a b).
Proof.
  unfold is_byte. intros [Ha0 Ha] [Hb0 Hb]. split.
  - apply Z.lxor_nonneg. tauto.
  - destruct (Z.eq_dec (Z.lxor a b) 0) as [->|Hne]; [lia|].
    apply Z.log2_lt_cancel. change (Z.log2 256) with 8.
    assert (Hx : 0 < Z.lxor a b) by (pose proof (proj2 (Z.lxor_nonneg a b)); lia).
    pose proof (Z.log2_lxor a b Ha0 Hb0) as Hl.
    assert (Z.log2 a < 8).
    { destruct (Z.eq_dec a 0) as [->|]; [simpl; lia|].
      apply Z.log2_lt_pow2; lia. }
    assert (Z.log2 b < 8).
    { destruct (Z.eq_dec b 0) as [->|]; [simpl; lia|].
      apply Z.log2_lt_pow2; lia. }
    lia.
Qed.

Lemma store_is_set (i : nat) (v : Z) (a : list Z) :
  (i < List.length a)%nat -> u8_store i v a = Reference.set a i (v mod 256).
Proof.
  intros Hi. unfold u8_store, Reference.set.
  rewrite insert_take_drop by exact Hi. reflexivity.
Qed.

Lemma length_set (a : list Z) (i : nat) (v : Z) :
  (i < List.length a)%nat -> List.length (Reference.set a i v) = List.length a.
Proof.
  intros Hi. unfold Reference.set.
  rewrite length_app. cbn [List.length]. rewrite length_take, length_drop. lia.
Qed.

Lemma lookup_get (a : list Z) (i : nat) :
  (i < List.length a)%nat -> a !! i = Some (Reference.get a i).
Proof.
  intros Hi. unfold Reference.get.
  destruct (lookup_lt_is_Some_2 a i Hi) as [x Hx].
  rewrite Hx. f_equal. symmetry. apply nth_lookup_Some with (d := 0) in Hx.
  exact Hx.
Qed.

Lemma Forall_set (a : list Z) (i : nat) (v : Z) :
  Forall is_byte a -> is_byte v -> Forall is_byte (Reference.set a i v).
Proof.
  intros Ha Hv. unfold Reference.set.
  apply Forall_app. split; [apply Forall_take; exact Ha|].
  constructor; [exact Hv|apply Forall_drop; exact Ha].
Qed.

Lemma get_byte (a : list Z) (i : nat) :
  Forall is_byte a -> is_byte (Reference.get a i).
Proof.
  intros Ha. unfold Reference.get.
  destruct (Nat.lt_ge_cases i (List.length a)) as [Hi|Hi].
  - rewrite List.Forall_forall in Ha. apply Ha. apply nth_In. exact Hi.
  - rewrite nth_overflow by exact Hi. unfold is_byte. lia.
Qed.

Lemma mod_byte (x : Z) : is_byte (x mod 256).
Proof. unfold is_byte. apply Z.mod_pos_bound. lia. Qed.

(** One iteration of the first loop. *)
Lemma absorb_step (data acc : list Z) (i : nat) (b : Z) :
  List.length acc = 32%nat -> Forall is_byte acc -> is_byte b ->
  data !! i = Some b ->
  absorb data acc i = Reference.absorb_read_first i b acc.
Proof.
  intros Hlen Hacc Hb Hi. unfold absorb, Reference.absorb_read_first.
  rewrite Hi.
  assert (H1 : (i mod 32 < List.length acc)%nat)
    by (rewrite Hlen; apply Nat.mod_upper_bound; lia).
  assert (H2 : (i * 7 mod 32 < List.length acc)%nat)
    by (rewrite Hlen; apply Nat.mod_upper_bound; lia).
  rewrite (lookup_get acc _ H1), (lookup_get acc _ H2).
  rewrite (store_is_set _ _ acc H1).
  rewrite store_is_set by (rewrite length_set; assumption).
  rewrite land_255, Z.mod_mod by lia.
  rewrite (Z.mod_small (Z.lxor _ _)); [reflexivity|].
  apply lxor_byte; [apply get_byte; exact Hacc|exact Hb].
Qed.

Lemma absorb_read_first_inv (acc : list Z) (i : nat) (b : Z) :
  List.length acc = 32%nat -> Forall is_byte acc -> is_byte b ->
  List.length (Reference.absorb_read_first i b acc) = 32%nat
  /\ Forall is_byte (Reference.absorb_read_first i b acc).
Proof.
  intros Hlen Hacc Hb. unfold Reference.absorb_read_first.
  assert (H1 : (i mod 32 < List.length acc)%nat)
    by (rewrite Hlen; apply Nat.mod_upper_bound; lia).
  assert (H2 : (i * 7 mod 32 < List.length acc)%nat)
    by (rewrite Hlen; apply Nat.mod_upper_bound; lia).
  split.
  - rewrite length_set; rewrite length_set; lia.
  - apply Forall_set; [apply Forall_set; [exact Hacc|]|apply mod_byte].
    apply lxor_byte; [apply get_byte; exact Hacc|exact Hb].
Qed.

(** The first loop, from any position on. *)
Lemma absorb_loop (pre rest acc : list Z) :
  List.length acc = 32%nat -> Forall is_byte acc -> Forall is_byte rest ->
  fold_left (absorb (pre ++ rest)) (seq (List.length pre) (List.length rest)) acc
  = Reference.absorb_read_first_from (List.length pre) rest acc.
Proof.
  revert pre acc. induction rest as [|b rest IH]; intros pre acc Hlen Hacc Hrest.
  - reflexivity.
  - inversion Hrest as [|? ? Hb Hrest']; subst.
    cbn [List.length seq fold_left Reference.absorb_read_first_from].
    rewrite (absorb_step _ acc _ b Hlen Hacc Hb).
    2:{ rewrite lookup_app_r by lia. rewrite Nat.sub_diag. reflexivity. }
    destruct (absorb_read_first_inv acc (List.length pre) b Hlen Hacc Hb) as [Hl' Hb'].
    specialize (IH (pre ++ [b]) _ Hl' Hb' Hrest').
    rewrite <- app_assoc in IH. cbn [app] in IH.
    rewrite length_app in IH. cbn [List.length] in IH.
    replace (List.length pre + 1)%nat with (S (List.length pre)) in IH by lia.
    exact IH.
Qed.

Lemma absorb_read_first_from_inv (data acc : list Z) (i : nat) :
  List.length acc = 32%nat -> Forall is_byte acc -> Forall is_byte data ->
  List.length (Reference.absorb_read_first_from i data acc) = 32%nat
  /\ Forall is_byte (Reference.absorb_read_first_from i data acc).
Proof.
  revert i acc. induction data as [|b data IH]; intros i acc Hlen Hacc Hdata.
  - split; assumption.
  - inversion Hdata; subst. cbn [Reference.absorb_read_first_from].
    destruct (absorb_read_first_inv acc i b) as [? ?]; try assumption.
    apply IH; assumption.
Qed.

(** One iteration of the inner loop of a round. *)
Lemma mix_step (round : nat) (acc : list Z) (i : nat) :
  List.length acc = 32%nat -> (i < 32)%nat ->
  mix round acc i
  = Reference.set acc i
      (Reference.mixed (Z.of_nat round) (Reference.get acc ((i + 31) mod 32))
         (Reference.get acc i) (Reference.get acc ((i + 1) mod 32))).
Proof.
  intros Hlen Hi. unfold mix, Reference.mixed.
  assert (H1 : ((i + 31) mod 32 < List.length acc)%nat)
    by (rewrite Hlen; apply Nat.mod_upper_bound; lia).
  assert (H2 : ((i + 1) mod 32 < List.length acc)%nat)
    by (rewrite Hlen; apply Nat.mod_upper_bound; lia).
  assert (H0 : (i < List.length acc)%nat) by lia.
  rewrite (lookup_get acc _ H1), (lookup_get acc _ H2), (lookup_get acc _ H0).
  rewrite (store_is_set _ _ acc H0), land_255, Z.mod_mod by lia.
  do 3 f_equal. lia.
Qed.

Lemma round_loop (round : nat) (n i : nat) (acc : list Z) :
  List.length acc = 32%nat -> (i + n <= 32)%nat ->
  fold_left (mix round) (seq i n) acc = Reference.round_from (Z.of_nat round) i n acc
  /\ List.length (Reference.round_from (Z.of_nat round) i n acc) = 32%nat.
Proof.
  revert i acc. induction n as [|n IH]; intros i acc Hlen Hin.
  - split; [reflexivity|exact Hlen].
  - cbn [seq fold_left Reference.round_from].
    rewrite mix_step by (try assumption; lia).
    apply IH; [|lia]. rewrite length_set; lia.
Qed.

Lemma diffuse_round (acc : list Z) (r : nat) :
  List.length acc = 32%nat ->
  diffuse acc r = Reference.round r acc
  /\ List.length (Reference.round r acc) = 32%nat.
Proof.
  intros Hlen. unfold diffuse, Reference.round.
  apply round_loop; [exact Hlen|apply Nat.le_refl].
Qed.

(** Any loop over the round numbers whose body agrees with a step
    function on 32-byte states is the iteration of that step. *)
Lemma rounds_loop (body : list Z -> nat -> list Z) (step : nat -> list Z -> list Z) :
  (forall acc r, List.length acc = 32%nat ->
     body acc r = step r acc /\ List.length (step r acc) = 32%nat) ->
  forall (n r : nat) (acc : list Z),
  List.length acc = 32%nat ->
  fold_left body (seq r n) acc = Reference.rounds_from step r n acc
  /\ List.length (Reference.rounds_from step r n acc) = 32%nat.
Proof.
  intros Hstep n. induction n as [|n IH]; intros r acc Hlen.
  - split; [reflexivity|exact Hlen].
  - cbn [seq fold_left Reference.rounds_from].
    destruct (Hstep acc r Hlen) as [-> Hl]. apply IH. exact Hl.
Qed.

Lemma zeroes32_inv : List.length zeroes32 = 32%nat /\ Forall is_byte zeroes32.
Proof.
  split; [reflexivity|]. unfold zeroes32. apply List.Forall_forall.
  intros x Hx. apply repeat_spec in Hx. subst. unfold is_byte. lia.
Qed.

End DigestRefinement.

(** C2, as amended. For every sequence of bytes, [computeHashSync] is the
    reference algorithm in which each input byte at position [i] reads both
    accumulator cells, [i mod 32] and [(i*7) mod 32], before storing the XOR
    and then the fold [(acc + byte) * 31 mod 256] (at the multiples of 16,
    where the two indices coincide, the fold of the old value is what is
    kept), followed by the 16 in-place diffusion rounds; the result has 32
    bytes and [digest('hex')] is its hexadecimal encoding. *)
Theorem C2_digest_is_reference_read_first (data : list Z) :
  Forall is_byte data ->
  CryptoHash.computeHashSync data = CryptoHash.Reference.digest_read_first data
  /\ List.length (CryptoHash.computeHashSync data) = 32%nat
  /\ CryptoHash.digest_hex (CryptoHash.update_bytes data CryptoHash.create)
     = hex (CryptoHash.Reference.digest_read_first data).
Proof.
  intros Hdata.
  assert (Heq : CryptoHash.computeHashSync data
                = CryptoHash.Reference.digest_read_first data
                /\ List.length (CryptoHash.Reference.digest_read_first data) = 32%nat).
  { unfold CryptoHash.computeHashSync, CryptoHash.Reference.digest_read_first.
    destruct zeroes32_inv as [Hl Hb].
    pose proof (absorb_loop [] data CryptoHash.zeroes32 Hl Hb Hdata) as Ha.
    cbn [app List.length] in Ha. rewrite Ha.
    destruct (absorb_read_first_from_inv data CryptoHash.zeroes32 0 Hl Hb Hdata)
      as [Hl' _].
    exact (rounds_loop _ _ diffuse_round 16%nat 0%nat _ Hl'). }
  destruct Heq as [Heq Hlen]. split; [exact Heq|]. split.
  - rewrite Heq. exact Hlen.
  - unfold CryptoHash.digest_hex, CryptoHash.digest_bytes,
      CryptoHash.getCombinedData, CryptoHash.update_bytes, CryptoHash.create.
    cbn [CryptoHash.dataChunks app concat]. rewrite app_nil_r, Heq. reflexivity.
Qed.

Lemma C2_digest_is_reference_read_first_witness :
  CryptoHash.computeHashSync [56; 97; 255]
  = CryptoHash.Reference.digest_read_first [56; 97; 255].
Proof.
  apply (C2_digest_is_reference_read_first [56; 97; 255]).
  repeat constructor; unfold is_byte; lia.
Defined.

(** C2 as stated fails: with the byte XORed into the accumulator and then
    folded into it, the one-byte input [0x01] gets another digest than the
    code computes. *)
Lemma C2_digest_differs_from_worded :
  CryptoHash.computeHashSync [1] <> CryptoHash.Reference.digest_as_worded [1].
Proof. vm_compute. discriminate. Qed.

(** ** The verifier *)

Section Verifier.

Import CaptchaValidator.

Lemma eqb_eq (s t : jsstring) : JSString.eqb s t = true <-> s = t.
Proof.
  revert t. induction s as [|a s IH]; intros [|b t]; cbn [JSString.eqb];
    try (split; [discriminate|intros H; inversion H]); try tauto.
  rewrite andb_true_iff, Z.eqb_eq, IH. split.
  - intros [-> ->]. reflexivity.
  - intros H. inversion H. tauto.
Qed.

Lemma eqb_refl (s : jsstring) : JSString.eqb s s = true.
Proof. apply eqb_eq. reflexivity. Qed.

Lemma eqb_neq (s t : jsstring) : JSString.eqb s t = false <-> s <> t.
Proof.
  rewrite <- eqb_eq. destruct (JSString.eqb s t); split; congruence.
Qed.

Lemma typeof_eqb (v : Value) (t : jsstring) :
  JSString.eqb (typeof v) t = true <-> typeof v = t.
Proof. apply eqb_eq. Qed.

(** [validate] unfolded once. *)
Lemma validate_eq (c : CaptchaChallenge) (userInput : jsstring) :
  validate c userInput =
  if negb (isValidInput (Str userInput)) then false
  else if JSString.eqb (type c) (str "multi") then validateMulti validate c userInput
  else if JSString.eqb (type c) (str "custom") then validateCustom c userInput
  else if isNumericChallenge c then validateNumeric c userInput
  else validateText c userInput.
Proof. destruct c. reflexivity. Qed.

Lemma isValidInput_length (s : jsstring) :
  isValidInput (Str s) = true <-> 1 <= JSString.length s <= 1000.
Proof.
  unfold isValidInput, MAX_INPUT_LENGTH.
  destruct (JSString.length s =? 0) eqn:E0; destruct (JSString.length s >? 1000) eqn:E1;
    cbn [orb]; unfold JSString.length in *; split; intros H; try discriminate; lia.
Qed.

Lemma isValidChallenge_returns (u : K9Guard.Unknown) :
  exists b, K9Guard.isValidChallenge u = Returns b.
Proof.
  destruct u as [| | | | | |c]; try (eexists; reflexivity).
  unfold K9Guard.isValidChallenge, K9Guard.and_typeof, K9Guard.read_property.
  cbn [K9Guard.typeof_unknown]. rewrite eqb_refl. cbn [negb orb].
  repeat match goal with
         | |- context [JSString.eqb (typeof ?v) ?t] =>
             destruct (JSString.eqb (typeof v) t)
         end; eexists; reflexivity.
Qed.

(** The six checks, one by one. *)
Lemma isValidChallenge_object (c : K9Guard.Properties) :
  K9Guard.isValidChallenge (K9Guard.UObject c) = Returns true <->
  typeof (K9Guard.r_type c) = str "string"
  /\ typeof (K9Guard.r_question c) = str "string"
  /\ typeof (K9Guard.r_nonce c) = str "string"
  /\ typeof (K9Guard.r_expiry c) = str "number"
  /\ typeof (K9Guard.r_hashedAnswer c) = str "string"
  /\ typeof (K9Guard.r_salt c) = str "string".
Proof.
  unfold K9Guard.isValidChallenge, K9Guard.and_typeof, K9Guard.read_property.
  cbn [K9Guard.typeof_unknown]. rewrite eqb_refl. cbn [negb orb].
  rewrite <- !typeof_eqb.
  repeat match goal with
         | |- context [JSString.eqb (typeof ?v) ?t] =>
             destruct (JSString.eqb (typeof v) t)
         end; split; intros H; try discriminate; try tauto;
    repeat match goal with H : _ /\ _ |- _ => destruct H end; discriminate.
Qed.

Lemma isValidChallenge_incomplete (u : K9Guard.Unknown) :
  structurally_incomplete u -> K9Guard.isValidChallenge u = Returns false.
Proof.
  intros Hu. destruct (isValidChallenge_returns u) as [[|] Hb]; [|exact Hb].
  exfalso. destruct u as [| | | | | |c]; try discriminate.
  apply isValidChallenge_object in Hb. unfold structurally_incomplete, missing_field in Hu.
  tauto.
Qed.

(** [validateAny] unfolded once. *)
Lemma validateAny_eq (u : K9Guard.Unknown) (userInput : jsstring) :
  K9Guard.validateAny u userInput =
  if negb (isValidInput (Str userInput)) then Returns false
  else if is_str (K9Guard.field u K9Guard.r_type) (str "multi") then
    match u with
    | K9Guard.UObject c => K9Guard.validateMulti K9Guard.validateAny (K9Guard.r_steps c) userInput
    | _ => Returns false
    end
  else if is_str (K9Guard.field u K9Guard.r_type) (str "custom") then
    K9Guard.validateText u userInput
  else if K9Guard.isNumericChallenge u then K9Guard.validateNumeric u userInput
  else K9Guard.validateText u userInput.
Proof. destruct u; reflexivity. Qed.

(** On a value without fields (a primitive, an array) [validate] gives
    false: so it does on each character of a string found as [steps]. *)
Lemma validateAny_without_fields (u : K9Guard.Unknown) (userInput : jsstring) :
  (forall c, u <> K9Guard.UObject c) ->
  K9Guard.validateAny u userInput = Returns false.
Proof.
  intros Hu. rewrite validateAny_eq.
  destruct (negb (isValidInput (Str userInput))); [reflexivity|].
  destruct u as [| | | | | |c]; try (exfalso; apply (Hu c); reflexivity);
    cbn [K9Guard.field is_str]; unfold K9Guard.isNumericChallenge, K9Guard.validateText;
    cbn [K9Guard.field is_str orb andb];
    (destruct (negb _); reflexivity).
Qed.

(** The input gate of the public [validate]. *)
Lemma validate_gate (now : Z) (u : K9Guard.Unknown) (userInput : jsstring) :
  isValidInput (Str userInput) = false ->
  K9Guard.validate now u (Str userInput) = Returns false.
Proof.
  intros Hin. unfold K9Guard.validate.
  destruct (isValidChallenge_returns u) as [[|] ->]; [|reflexivity].
  destruct (match K9Guard.field u K9Guard.r_expiry with
            | Num expiry => gtb (of_Z now) expiry
            | _ => false
            end); [reflexivity|].
  rewrite validateAny_eq, Hin. reflexivity.
Qed.

(** Induction on a challenge and, in turn, on its steps. *)
Lemma challenge_induction (P : CaptchaChallenge -> Prop) :
  (forall t q a n e h sa st,
      match st with Some l => List.Forall P l | None => True end ->
      P (Challenge t q a n e h sa st)) ->
  forall c, P c.
Proof.
  intros H. fix IH 1. intros [t q a n e h sa st]. apply H.
  destruct st as [l|]; [|exact I].
  induction l as [|x l IHl]; constructor; [apply IH|exact IHl].
Qed.

Lemma of_challenge_eq (c : CaptchaChallenge) :
  K9Guard.of_challenge c
  = K9Guard.UObject
      {| K9Guard.r_type := Str (type c); K9Guard.r_question := Str (question c);
         K9Guard.r_answer := answer c; K9Guard.r_nonce := Str (nonce c);
         K9Guard.r_expiry := Num (expiry c);
         K9Guard.r_hashedAnswer := Str (hashedAnswer c);
         K9Guard.r_salt := Str (salt c);
         K9Guard.r_steps :=
           match steps c with
           | None => K9Guard.UUndefined
           | Some sts => K9Guard.UArray (map K9Guard.of_challenge sts)
           end;
         K9Guard.r_length := Undefined; K9Guard.r_items := [] |}.
Proof.
  destruct c as [t q a n e h sa [l|]]; reflexivity.
Qed.

Lemma verifyAnswer_of_challenge (c : CaptchaChallenge) (userInput : jsstring) :
  K9Guard.verifyAnswer (K9Guard.of_challenge c) userInput
  = Returns (verifyAnswer c userInput).
Proof. rewrite of_challenge_eq. reflexivity. Qed.

Lemma validateText_of_challenge (c : CaptchaChallenge) (userInput : jsstring) :
  K9Guard.validateText (K9Guard.of_challenge c) userInput
  = Returns (validateText c userInput).
Proof.
  unfold K9Guard.validateText, validateText. rewrite verifyAnswer_of_challenge.
  destruct (negb _); reflexivity.
Qed.

Lemma validateNumeric_of_challenge (c : CaptchaChallenge) (userInput : jsstring) :
  K9Guard.validateNumeric (K9Guard.of_challenge c) userInput
  = Returns (validateNumeric c userInput).
Proof.
  unfold K9Guard.validateNumeric, validateNumeric. rewrite verifyAnswer_of_challenge.
  destruct (_ || _); reflexivity.
Qed.

Lemma validateSteps_of_challenges (sts : list CaptchaChallenge) :
  List.Forall (fun s => forall input,
                   K9Guard.validateAny (K9Guard.of_challenge s) input
                   = Returns (validate s input)) sts ->
  forall parsed, List.length parsed = List.length sts ->
    K9Guard.validateSteps K9Guard.validateAny (map K9Guard.of_challenge sts) parsed
    = Returns (validateSteps validate sts parsed).
Proof.
  induction 1 as [|s sts Hs _ IH]; intros [|v parsed] Hl; try discriminate Hl;
    [reflexivity|].
  injection Hl as Hl. cbn [map K9Guard.validateSteps validateSteps].
  assert (Hf : K9Guard.falsy (K9Guard.of_challenge s) = false)
    by (rewrite of_challenge_eq; reflexivity).
  rewrite Hf. destruct v; try reflexivity.
  rewrite Hs. destruct (validate s s0); cbn [negb]; [apply IH; exact Hl|reflexivity].
Qed.

(** On a challenge of the declared type the verifier read without the
    types is the typed one: it returns, and returns the same. *)
Lemma validateAny_of_challenge (c : CaptchaChallenge) (userInput : jsstring) :
  K9Guard.validateAny (K9Guard.of_challenge c) userInput
  = Returns (validate c userInput).
Proof.
  revert userInput. induction c as [t q a n e h sa st IH] using challenge_induction.
  intros userInput. rewrite validateAny_eq, validate_eq.
  destruct (negb (isValidInput (Str userInput))); [reflexivity|].
  set (c := Challenge t q a n e h sa st).
  assert (Ht : forall k, is_str (K9Guard.field (K9Guard.of_challenge c) K9Guard.r_type) k
                         = JSString.eqb (type c) k)
    by (intros k; rewrite of_challenge_eq; reflexivity).
  rewrite !Ht.
  destruct (JSString.eqb (type c) (str "multi")).
  - rewrite of_challenge_eq. cbn [K9Guard.r_steps]. unfold K9Guard.validateMulti, validateMulti.
    subst c. cbn [steps]. destruct st as [[|s0 sts]|]; try reflexivity.
    change (K9Guard.falsy (K9Guard.UArray (map K9Guard.of_challenge (s0 :: sts)))
            || K9Guard.length_is_zero (K9Guard.UArray (map K9Guard.of_challenge (s0 :: sts))))
      with false.
    cbv iota.
    destruct (JSON_parse userInput) as [[| | | | |parsed|]|]; try reflexivity.
    unfold K9Guard.length_differs. rewrite length_map.
    destruct (List.length parsed =? List.length (s0 :: sts))%nat eqn:El; cbn [negb];
      [|reflexivity].
    apply validateSteps_of_challenges; [exact IH|]. apply Nat.eqb_eq. exact El.
  - destruct (JSString.eqb (type c) (str "custom")); [apply validateText_of_challenge|].
    assert (Hn : K9Guard.isNumericChallenge (K9Guard.of_challenge c) = isNumericChallenge c)
      by (rewrite of_challenge_eq; reflexivity).
    rewrite Hn. destruct (isNumericChallenge c);
      [apply validateNumeric_of_challenge|apply validateText_of_challenge].
Qed.

Lemma isValidChallenge_of_challenge (c : CaptchaChallenge) :
  K9Guard.isValidChallenge (K9Guard.of_challenge c) = Returns true.
Proof. rewrite of_challenge_eq. apply isValidChallenge_object. cbn. tauto. Qed.

(** What [K9Guard.validate] is on a well-typed challenge. *)
Lemma validate_of_challenge (now : Z) (c : CaptchaChallenge) (userInput : jsstring) :
  K9Guard.validate now (K9Guard.of_challenge c) (Str userInput)
  = Returns (if gtb (of_Z now) (expiry c) then false else validate c userInput).
Proof.
  unfold K9Guard.validate.
  rewrite isValidChallenge_of_challenge, validateAny_of_challenge.
  rewrite of_challenge_eq. cbn [K9Guard.field K9Guard.r_expiry].
  destruct (gtb _ _); reflexivity.
Qed.

(** Past its expiry a challenge is rejected. *)
Lemma validate_expired (now : Z) (p : K9Guard.Properties) (e : number) (userInput : Value) :
  K9Guard.r_expiry p = Num e -> gtb (of_Z now) e = true ->
  K9Guard.validate now (K9Guard.UObject p) userInput = Returns false.
Proof.
  intros He Hgt. unfold K9Guard.validate.
  destruct (isValidChallenge_returns (K9Guard.UObject p)) as [[|] ->]; [|reflexivity].
  destruct userInput; try reflexivity.
  cbn [K9Guard.field]. rewrite He, Hgt. reflexivity.
Qed.

End Verifier.

(** C9. Whatever the challenge, [verify] returns false for an input of
    length 0 and for an input longer than 1000 characters: the public
    [K9Guard.validate], and [CaptchaValidator.validate] on every challenge
    (a step of a multi challenge included). *)
Theorem C9_input_length_gate (now : Z) (challenge : K9Guard.Unknown) (userInput : jsstring) :
  JSString.length userInput = 0 \/ JSString.length userInput > 1000 ->
  K9Guard.validate now challenge (Str userInput) = Returns false
  /\ forall c : CaptchaChallenge, CaptchaValidator.validate c userInput = false.
Proof.
  intros Hlen.
  assert (Hin : CaptchaValidator.isValidInput (Str userInput) = false).
  { destruct (CaptchaValidator.isValidInput (Str userInput)) eqn:E; [|reflexivity].
    apply isValidInput_length in E. lia. }
  assert (Hc : forall c, CaptchaValidator.validate c userInput = false).
  { intros c. rewrite validate_eq, Hin. reflexivity. }
  split; [|exact Hc]. apply validate_gate. exact Hin.
Qed.

Lemma C9_input_length_gate_witness :
  K9Guard.validate 0 K9Guard.UNull (Str []) = Returns false
  /\ forall c : CaptchaChallenge, CaptchaValidator.validate c [] = false.
Proof.
  apply (C9_input_length_gate 0 K9Guard.UNull []). left. reflexivity.
Defined.

(** C8. [verify] on a structurally incomplete challenge (a value that is
    not an object, [null], or an object without a string [type], a string
    [question], a string [nonce], a number [expiry], a string [hashedAnswer]
    or a string [salt]) returns false, and so does not raise, for every
    input. *)
Theorem C8_incomplete_challenge_is_rejected
    (now : Z) (challenge : K9Guard.Unknown) (userInput : Value) :
  structurally_incomplete challenge ->
  K9Guard.validate now challenge userInput = Returns false.
Proof.
  intros Hu.
  unfold K9Guard.validate. rewrite (isValidChallenge_incomplete _ Hu). reflexivity.
Qed.

Lemma C8_incomplete_challenge_is_rejected_witness :
  K9Guard.validate 0 Sample.challenge_without_salt (Str (str "8")) = Returns false.
Proof.
  apply (C8_incomplete_challenge_is_rejected 0 Sample.challenge_without_salt (Str (str "8"))).
  cbn. do 5 right. discriminate.
Defined.

Section MultiStep.

Import CaptchaValidator.

(** The loop over the steps, on two arrays of the same length. *)
Lemma validateSteps_true (sts : list CaptchaChallenge) (parsed : list Value) :
  List.length parsed = List.length sts ->
  validateSteps validate sts parsed = true <->
  exists answers : list jsstring,
    parsed = map Str answers
    /\ Forall2 (fun step a => validate step a = true) sts answers.
Proof.
  revert parsed. induction sts as [|step sts IH]; intros parsed Hlen.
  - destruct parsed; [|discriminate]. cbn. split; [|reflexivity].
    intros _. exists []. split; [reflexivity|constructor].
  - destruct parsed as [|v parsed]; [discriminate|].
    injection Hlen as Hlen. cbn [validateSteps].
    destruct v as [| | | |input| |];
      try (split; [discriminate|intros (answers & Heq & _); destruct answers; discriminate]).
    destruct (validate step input) eqn:Ev; cbn [negb].
    + rewrite (IH parsed Hlen). split.
      * intros (answers & -> & HF). exists (input :: answers).
        split; [reflexivity|constructor; assumption].
      * intros (answers & Heq & HF). destruct answers as [|a answers]; [discriminate|].
        injection Heq as -> ->. inversion HF; subst. exists answers. tauto.
    + split; [discriminate|].
      intros (answers & Heq & HF). destruct answers as [|a answers]; [discriminate|].
      injection Heq as -> ->. inversion HF; subst. congruence.
Qed.

Lemma validate_multi_eq (c : CaptchaChallenge) (userInput : jsstring) :
  type c = str "multi" -> isValidInput (Str userInput) = true ->
  validate c userInput = validateMulti validate c userInput.
Proof.
  intros Ht Hin. rewrite validate_eq, Hin, Ht, eqb_refl. reflexivity.
Qed.

End MultiStep.

(** C5, as amended. For a multi challenge, [verify] returns false if the
    input does not parse as JSON, if the parsed value is not an array, or if
    its length differs from [steps.length]; when the challenge has at least
    one step and the input has 1 to 1000 characters, it returns true if and
    only if the input parses as a JSON array of strings each of which,
    matched by position, verifies against its step. *)
Theorem C5_multi_all_or_nothing
    (c : CaptchaChallenge) (sts : list CaptchaChallenge) (userInput : jsstring) :
  type c = str "multi" -> steps c = Some sts ->
  (JSON_parse userInput = None -> CaptchaValidator.validate c userInput = false)
  /\ (forall v, JSON_parse userInput = Some v -> isArray v = false ->
        CaptchaValidator.validate c userInput = false)
  /\ (forall items, JSON_parse userInput = Some (Arr items) ->
        List.length items <> List.length sts ->
        CaptchaValidator.validate c userInput = false)
  /\ (sts <> [] -> 1 <= JSString.length userInput <= 1000 ->
      (CaptchaValidator.validate c userInput = true <->
       exists answers : list jsstring,
         JSON_parse userInput = Some (Arr (map Str answers))
         /\ Forall2 (fun step a => CaptchaValidator.validate step a = true) sts answers)).
Proof.
  intros Ht Hs.
  assert (Hm : CaptchaValidator.validate c userInput = true ->
               CaptchaValidator.validateMulti CaptchaValidator.validate c userInput = true).
  { rewrite validate_eq, Ht, eqb_refl.
    destruct (negb _); [discriminate|]. tauto. }
  assert (Hfalse : CaptchaValidator.validateMulti CaptchaValidator.validate c userInput = false ->
                   CaptchaValidator.validate c userInput = false).
  { intros H. destruct (CaptchaValidator.validate c userInput) eqn:E; [|reflexivity].
    rewrite (Hm eq_refl) in H. discriminate. }
  unfold CaptchaValidator.validateMulti in *. rewrite Hs in *.
  repeat split.
  - intros Hp. apply Hfalse. rewrite Hp. destruct sts; reflexivity.
  - intros v Hp Hv. apply Hfalse. rewrite Hp.
    destruct sts; [reflexivity|]. destruct v; try reflexivity. discriminate.
  - intros items Hp Hl. apply Hfalse. rewrite Hp. destruct sts; [reflexivity|].
    apply Nat.eqb_neq in Hl. rewrite Hl. reflexivity.
  - intros Hv. destruct sts as [|s0 sts']; [congruence|].
    specialize (Hm Hv). destruct (JSON_parse userInput) as [[| | | | |items|]|];
      try discriminate.
    destruct (List.length items =? List.length (s0 :: sts'))%nat eqn:El;
      [|discriminate].
    apply Nat.eqb_eq in El. cbn [negb] in Hm.
    apply (validateSteps_true _ _ El) in Hm. destruct Hm as (answers & -> & HF).
    exists answers. split; [reflexivity|exact HF].
  - intros (answers & Hp & HF).
    rewrite validate_multi_eq; [|exact Ht|apply isValidInput_length; assumption].
    unfold CaptchaValidator.validateMulti. rewrite Hs, Hp.
    destruct sts as [|s0 sts']; [congruence|].
    assert (El : List.length (map Str answers) = List.length (s0 :: sts')).
    { rewrite length_map. symmetry. eapply Forall2_length. exact HF. }
    rewrite (proj2 (Nat.eqb_eq _ _) El). cbn [negb].
    apply (validateSteps_true _ _ El). exists answers. split; [reflexivity|exact HF].
Qed.

Lemma C5_multi_all_or_nothing_witness :
  CaptchaValidator.validate Sample.two_steps (stringify_strings [str "8"; str "cat"]) = true.
Proof.
  apply (C5_multi_all_or_nothing Sample.two_steps [Sample.eight; Sample.cat]
           (stringify_strings [str "8"; str "cat"]) eq_refl eq_refl).
  - discriminate.
  - vm_compute. split; discriminate.
  - exists [str "8"; str "cat"]. split; [vm_compute; reflexivity|].
    repeat constructor; vm_compute; reflexivity.
Defined.

(** C5 as stated fails on an input longer than 1000 characters: the two
    answers of [Sample.two_steps] followed by spaces parse as a JSON array
    of two strings, each of which verifies against its step, and [verify]
    returns false. *)
Lemma C5_padded_answers_are_rejected :
  CaptchaValidator.validate Sample.two_steps Sample.padded_answers = false
  /\ exists answers : list jsstring,
       JSON_parse Sample.padded_answers = Some (Arr (map Str answers))
       /\ Forall2 (fun step a => CaptchaValidator.validate step a = true)
            [Sample.eight; Sample.cat] answers.
Proof.
  split; [vm_compute; reflexivity|].
  exists [str "8"; str "cat"]. split; [vm_compute; reflexivity|].
  repeat constructor; vm_compute; reflexivity.
Qed.

Section Numeric.

Import CaptchaValidator.

Lemma numeric_kind_dispatch (c : CaptchaChallenge) :
  numeric_kind c ->
  JSString.eqb (type c) (str "multi") = false
  /\ JSString.eqb (type c) (str "custom") = false
  /\ isNumericChallenge c = true.
Proof.
  unfold numeric_kind, isNumericChallenge.
  intros [H|[H|[H [x Hx]]]]; rewrite H; try rewrite Hx; repeat split; reflexivity.
Qed.

Lemma validate_numeric_eq (c : CaptchaChallenge) (userInput : jsstring) :
  numeric_kind c -> isValidInput (Str userInput) = true ->
  validate c userInput = validateNumeric c userInput.
Proof.
  intros Hk Hin. destruct (numeric_kind_dispatch c Hk) as (H1 & H2 & H3).
  rewrite validate_eq, Hin, H1, H2, H3. reflexivity.
Qed.

End Numeric.

Section NumericVerification.

Import CaptchaValidator.

(** What the verification of a numeric kind computes on an input of 1 to
    1000 characters. *)
Lemma validate_numeric_spec (c : CaptchaChallenge) (userInput : jsstring) :
  numeric_kind c -> 1 <= JSString.length userInput <= 1000 ->
  validate c userInput
  = (if isNaN (parseFloat userInput) || negb (isFinite (parseFloat userInput)) then false
     else JSString.eqb (NodeCrypto.sha256_hex (toString (parseFloat userInput) ++ salt c))
            (hashedAnswer c)).
Proof.
  intros Hk Hlen.
  rewrite (validate_numeric_eq c userInput Hk) by (apply isValidInput_length; exact Hlen).
  reflexivity.
Qed.

End NumericVerification.

(** ** The issuer: effects *)

Section Respects.

Context {S : Type} (R : S -> S -> Prop).
Hypothesis R_refl : forall s, R s s.
Hypothesis R_trans : forall s1 s2 s3, R s1 s2 -> R s2 s3 -> R s1 s3.

Lemma respects_ret {A : Type} (a : A) : respects R (ret a).
Proof. intros s. apply R_refl. Qed.

Lemma respects_throw {A : Type} (e : Exception) : respects R (@throw S A e).
Proof. intros s. apply R_refl. Qed.

Lemma respects_starve {A : Type} : respects R (@starve S A).
Proof. intros s. exact I. Qed.

Lemma respects_read : respects R (@read S).
Proof. intros s. apply R_refl. Qed.

Lemma respects_of_outcome {A : Type} (o : Outcome A) : respects R (of_outcome o).
Proof. destruct o; [apply respects_ret|apply respects_throw]. Qed.

Lemma respects_bind {A B : Type} (m : M S A) (k : A -> M S B) :
  respects R m -> (forall a, respects R (k a)) -> respects R (bind m k).
Proof.
  intros Hm Hk s. unfold bind. specialize (Hm s).
  destruct (m s) as [a s1|e s1|]; [|exact Hm|exact I].
  specialize (Hk a s1). destruct (k a s1); try exact I; eapply R_trans; eassumption.
Qed.

Lemma respects_Ok {A : Type} (m : M S A) (s s' : S) (a : A) :
  respects R m -> m s = Ok a s' -> R s s'.
Proof. intros Hm H. specialize (Hm s). rewrite H in Hm. exact Hm. Qed.

Lemma respects_Fail {A : Type} (m : M S A) (s s' : S) (e : Exception) :
  respects R m -> m s = Fail e s' -> R s s'.
Proof. intros Hm H. specialize (Hm s). rewrite H in Hm. exact Hm. Qed.

End Respects.

Lemma bind_Ok {S A B : Type} (m : M S A) (k : A -> M S B) (s s' : S) (b : B) :
  bind m k s = Ok b s' <-> exists a s1, m s = Ok a s1 /\ k a s1 = Ok b s'.
Proof.
  unfold bind. destruct (m s) as [a s1|e s1|]; split.
  - intros H. exists a, s1. tauto.
  - intros (a' & s1' & Heq & H). congruence.
  - discriminate.
  - intros (a' & s1' & Heq & H). discriminate.
  - discriminate.
  - intros (a' & s1' & Heq & H). discriminate.
Qed.

Lemma on_snd_Ok {G W A : Type} (m : M W A) (g g' : G) (w w' : W) (a : A) :
  on_snd m (g, w) = Ok a (g', w') <-> g' = g /\ m w = Ok a w'.
Proof.
  unfold on_snd. destruct (m w) as [a1 w1|e w1|]; split;
    try discriminate; try (intros [_ H]; discriminate).
  - intros H. inversion H. tauto.
  - intros [-> H]. inversion H. reflexivity.
Qed.

Lemma of_outcome_Ok {S A : Type} (o : Outcome A) (s s' : S) (a : A) :
  of_outcome o s = Ok a s' <-> o = Returns a /\ s' = s.
Proof.
  destruct o as [a1|e]; cbn; unfold ret, throw; split.
  - intros H. inversion H. tauto.
  - intros [H ->]. inversion H. reflexivity.
  - discriminate.
  - intros [H _]. discriminate.
Qed.

Lemma read_Ok {S : Type} (s s' a : S) : read s = Ok a s' <-> a = s /\ s' = s.
Proof. unfold read. split; [intros H; inversion H; tauto|intros [-> ->]; reflexivity]. Qed.

Lemma ret_Ok {S A : Type} (x a : A) (s s' : S) : ret x s = Ok a s' <-> a = x /\ s' = s.
Proof. unfold ret. split; [intros H; inversion H; tauto|intros [-> ->]; reflexivity]. Qed.

(** *** The world: no provider touches the clock *)

Section ClockKept.

Local Abbreviation kept := (respects clock_kept).

Lemma clock_kept_refl (w : World.t) : clock_kept w w.
Proof. reflexivity. Qed.

Lemma clock_kept_trans (w1 w2 w3 : World.t) :
  clock_kept w1 w2 -> clock_kept w2 w3 -> clock_kept w1 w3.
Proof. unfold clock_kept. congruence. Qed.

Lemma kept_getRandomValues (n : nat) : kept (World.getRandomValues n).
Proof.
  intros w. unfold World.getRandomValues. destruct (_ <? _)%nat; [exact I|reflexivity].
Qed.

Lemma kept_Math_random : kept World.Math_random.
Proof. intros w. unfold World.Math_random. destruct (World.prng w); [exact I|reflexivity]. Qed.

Lemma kept_randomBytes (size : Z) : kept (CryptoUtils.randomBytes size).
Proof.
  unfold CryptoUtils.randomBytes. destruct (_ || _).
  - apply respects_throw. exact clock_kept_refl.
  - apply kept_getRandomValues.
Qed.

Ltac kept_step :=
  first
    [ apply kept_randomBytes
    | apply kept_Math_random
    | apply (respects_ret _ clock_kept_refl)
    | apply (respects_throw _ clock_kept_refl)
    | apply (respects_of_outcome _ clock_kept_refl)
    | apply (respects_bind _ clock_kept_trans); [|intros ?]
    | match goal with
      | |- respects _ (if ?b then _ else _) => destruct b
      | |- respects _ (match ?x with _ => _ end) => destruct x
      end ].

Ltac kept_auto := repeat kept_step.

Lemma kept_getRandomNumber (d : Value) : kept (Random.getRandomNumber d).
Proof. unfold Random.getRandomNumber. kept_auto. Qed.

Lemma kept_getRandomOperator : kept Random.getRandomOperator.
Proof. unfold Random.getRandomOperator. kept_auto. Qed.

Lemma kept_generateRandomString (d : Value) : kept (Random.generateRandomString d).
Proof. unfold Random.generateRandomString. kept_auto. Qed.

Lemma kept_generateNonce : kept Random.generateNonce.
Proof. unfold Random.generateNonce. kept_auto. Qed.

Lemma kept_generateSalt : kept Random.generateSalt.
Proof. unfold Random.generateSalt. kept_auto. Qed.

Lemma kept_riddle (l : Locale.Data) (loc d : Value) : kept (RiddleBank.getRandom l loc d).
Proof. unfold RiddleBank.getRandom. kept_auto. Qed.

Lemma kept_logic (l : Locale.Data) (loc d : Value) : kept (LogicGenerator.getRandom l loc d).
Proof. unfold LogicGenerator.getRandom. kept_auto. Qed.

Lemma kept_sequence (d : Value) : kept (SequenceGenerator.generate d).
Proof. unfold SequenceGenerator.generate. kept_auto. Qed.

Lemma kept_shuffle (i : nat) (arr : jsstring) : kept (ScrambleGenerator.shuffle i arr).
Proof.
  revert arr. induction i as [|i IH]; intros arr; cbn [ScrambleGenerator.shuffle].
  - kept_auto.
  - kept_step. { kept_step. } kept_step. { kept_step. }
    destruct (arr !! S i); [destruct (arr !! _)|]; apply IH.
Qed.

Lemma kept_scramble (d : Value) : kept (ScrambleGenerator.generate d).
Proof.
  unfold ScrambleGenerator.generate, ScrambleGenerator.scramble.
  kept_step. { kept_step. } kept_step. { kept_step. }
  match goal with |- respects _ (match ?x with _ => _ end) => destruct x end.
  - kept_step; [apply kept_shuffle|kept_auto].
  - kept_auto.
Qed.

Lemma kept_reverse (d : Value) : kept (ReverseGenerator.generate d).
Proof. unfold ReverseGenerator.generate. kept_auto. Qed.

Lemma kept_selectRandom (qs : list CustomQuestion) :
  kept (CustomQuestionGenerator.selectRandom qs).
Proof. unfold CustomQuestionGenerator.selectRandom. kept_auto. Qed.

Lemma kept_custom (qs : list CustomQuestion) (d : option jsstring) :
  kept (CustomQuestionGenerator.generate qs d).
Proof.
  unfold CustomQuestionGenerator.generate.
  match goal with |- respects _ (match ?x with _ => _ end) => destruct x end;
    apply kept_selectRandom.
Qed.

End ClockKept.

(** *** The generator: what every call keeps *)

Section StepOf.

Local Abbreviation steps_on := (respects step_of).

Lemma same_settings_refl (o : option Options) : same_settings o o.
Proof. destruct o; cbn; tauto. Qed.

Lemma same_settings_trans (a b c : option Options) :
  same_settings a b -> same_settings b c -> same_settings a c.
Proof.
  destruct a, b, c; cbn; try tauto.
  intros (? & ? & ?) (? & ? & ?). repeat split; congruence.
Qed.

Lemma step_of_refl (s : CaptchaGenerator.t * World.t) : step_of s s.
Proof.
  split; [reflexivity|apply same_settings_refl|tauto|exists []; reflexivity].
Qed.

Lemma step_of_trans (s1 s2 s3 : CaptchaGenerator.t * World.t) :
  step_of s1 s2 -> step_of s2 s3 -> step_of s1 s3.
Proof.
  intros [N1 S1 [C1 C1'] [p1 K1]] [N2 S2 [C2 C2'] [p2 K2]]. split.
  - etransitivity; eassumption.
  - eapply same_settings_trans; eassumption.
  - split; congruence.
  - exists (p1 ++ p2). rewrite K1, K2, app_assoc. reflexivity.
Qed.

Lemma steps_on_snd {A : Type} (m : M World.t A) :
  respects clock_kept m -> steps_on (on_snd m).
Proof.
  intros Hm [g w]. unfold on_snd. specialize (Hm w).
  destruct (m w) as [a w'|e w'|]; try exact I;
    (split; cbn [fst snd];
     [reflexivity|apply same_settings_refl|tauto|exists []; rewrite Hm; reflexivity]).
Qed.

Lemma steps_on_Date_now : steps_on (on_snd World.Date_now).
Proof.
  intros [g w]. unfold on_snd, World.Date_now.
  destruct (World.clock w) as [|now rest] eqn:E; [exact I|].
  split; cbn [fst snd World.clock];
    [reflexivity|apply same_settings_refl|tauto|exists [now]; rewrite E; reflexivity].
Qed.

Lemma steps_on_addNonce (n : jsstring) : steps_on (CaptchaGenerator.addNonce n).
Proof.
  intros [g w]. cbn. split; cbn;
    [set_solver|apply same_settings_refl|tauto|exists []; reflexivity].
Qed.

Lemma steps_on_setType (v : Value) : steps_on (CaptchaGenerator.setType v).
Proof.
  intros [g w]. unfold CaptchaGenerator.setType.
  destruct (CaptchaGenerator.standardOptions g) as [o|] eqn:E.
  - split; cbn; [reflexivity|rewrite E; cbn; tauto|tauto|exists []; reflexivity].
  - apply step_of_refl.
Qed.

Ltac on_step :=
  first
    [ apply steps_on_Date_now
    | apply steps_on_addNonce
    | apply steps_on_setType
    | apply (respects_ret _ step_of_refl)
    | apply (respects_throw _ step_of_refl)
    | apply (respects_read _ step_of_refl)
    | apply (respects_of_outcome _ step_of_refl)
    | apply respects_starve
    | apply steps_on_snd;
      first [ apply kept_generateNonce | apply kept_generateSalt
            | apply kept_getRandomNumber | apply kept_getRandomOperator
            | apply kept_generateRandomString | apply kept_riddle | apply kept_logic
            | apply kept_sequence | apply kept_scramble | apply kept_reverse
            | apply kept_custom | apply kept_randomBytes ]
    | apply (respects_bind _ step_of_trans); [|intros ?]
    | match goal with
      | |- respects _ (if ?b then _ else _) => destruct b
      | |- respects _ (match ?x with _ => _ end) => destruct x
      end ].

Ltac on_auto := repeat on_step.

Lemma steps_on_drawNonce (n : nat) : steps_on (CaptchaGenerator.drawNonce n).
Proof.
  induction n as [|n IH]; cbn [CaptchaGenerator.drawNonce].
  - on_auto.
  - on_step. { on_step. } on_step. { on_step. }
    destruct (bool_decide _); [exact IH|on_auto].
Qed.

Lemma steps_on_createChallenge (base : CaptchaGenerator.Base) :
  steps_on (CaptchaGenerator.createChallenge base).
Proof.
  unfold CaptchaGenerator.createChallenge.
  on_step. { on_step. } on_step. { apply steps_on_drawNonce. } on_auto.
Qed.

Lemma steps_on_generateMathWithin (n : nat) :
  steps_on (CaptchaGenerator.generateMathWithin n).
Proof.
  induction n as [|n IH]; cbn [CaptchaGenerator.generateMathWithin].
  - on_auto.
  - do 4 (on_step; [on_step|]).
    on_step. { on_auto. }
    destruct (isNaN _); [exact IH|apply steps_on_createChallenge].
Qed.

Lemma steps_on_generateMath : steps_on CaptchaGenerator.generateMath.
Proof.
  unfold CaptchaGenerator.generateMath. on_step; [on_step|apply steps_on_generateMathWithin].
Qed.

Ltac provider :=
  on_step; [on_step|]; on_step; [on_step|];
  try match goal with
      | |- respects _ (match ?x with _ => _ end) => destruct x
      end;
  first [apply steps_on_createChallenge | on_auto].

Lemma steps_on_generateText : steps_on CaptchaGenerator.generateText.
Proof. unfold CaptchaGenerator.generateText. provider. Qed.

Lemma steps_on_generateSequence : steps_on CaptchaGenerator.generateSequence.
Proof. unfold CaptchaGenerator.generateSequence. provider. Qed.

Lemma steps_on_generateScramble : steps_on CaptchaGenerator.generateScramble.
Proof. unfold CaptchaGenerator.generateScramble. provider. Qed.

Lemma steps_on_generateReverse : steps_on CaptchaGenerator.generateReverse.
Proof. unfold CaptchaGenerator.generateReverse. provider. Qed.

Lemma steps_on_generateCustom : steps_on CaptchaGenerator.generateCustom.
Proof.
  unfold CaptchaGenerator.generateCustom. on_step; [on_step|].
  destruct (CaptchaGenerator.customGenerator _); [|on_auto].
  on_step; [on_step|apply steps_on_createChallenge].
Qed.

Variable locales : Locale.Data.

Lemma steps_on_generateRiddle : steps_on (CaptchaGenerator.generateRiddle locales).
Proof. unfold CaptchaGenerator.generateRiddle. provider. Qed.

Lemma steps_on_generateLogic : steps_on (CaptchaGenerator.generateLogic locales).
Proof. unfold CaptchaGenerator.generateLogic. provider. Qed.

Lemma steps_on_generateMulti : steps_on (CaptchaGenerator.generateMulti locales).
Proof.
  unfold CaptchaGenerator.generateMulti.
  on_step; [apply steps_on_generateMath|].
  on_step; [apply steps_on_generateRiddle|apply steps_on_createChallenge].
Qed.

Lemma steps_on_generateMixed (generate : M (CaptchaGenerator.t * World.t) CaptchaChallenge) :
  steps_on generate -> steps_on (CaptchaGenerator.generateMixed generate).
Proof.
  intros Hg. unfold CaptchaGenerator.generateMixed.
  on_step; [on_step|]. on_step; [on_step|]. on_step; [on_step|].
  on_step; [exact Hg|]. on_step; [on_auto|apply steps_on_createChallenge].
Qed.

Lemma steps_on_generateWithin (depth : nat) :
  steps_on (CaptchaGenerator.generateWithin locales depth).
Proof.
  induction depth as [|depth IH]; cbn [CaptchaGenerator.generateWithin].
  - on_auto.
  - on_step; [on_step|].
    destruct (CaptchaGenerator.customOptions _); [apply steps_on_generateCustom|].
    destruct (CaptchaGenerator.standardOptions _); [|on_auto].
    repeat match goal with
           | |- respects _ (if ?b then _ else _) => destruct b
           end;
      first [ apply steps_on_generateMath | apply steps_on_generateText
            | apply steps_on_generateRiddle | apply steps_on_generateSequence
            | apply steps_on_generateScramble | apply steps_on_generateLogic
            | apply steps_on_generateReverse | apply steps_on_generateMulti
            | apply steps_on_generateMixed; exact IH ].
Qed.

Lemma steps_on_generate : steps_on (CaptchaGenerator.generate locales).
Proof.
  unfold CaptchaGenerator.generate. on_step; [on_step|apply steps_on_generateWithin].
Qed.

End StepOf.

(** ** The issuer: what a challenge carries *)

Section Issuer.

Import CaptchaGenerator.

Lemma all_nonces_eq (c : CaptchaChallenge) :
  all_nonces c
  = nonce c :: match steps c with
               | None => []
               | Some sts => flat_map all_nonces sts
               end.
Proof.
  destruct c as [t q a n e h s [sts|]]; reflexivity.
Qed.

Lemma drawNonce_Ok (turns : nat) (g g' : t) (w w' : World.t) (n : jsstring) :
  drawNonce turns (g, w) = Ok n (g', w') ->
  g' = g /\ (n ∉ usedNonces g) /\ World.clock w' = World.clock w.
Proof.
  revert w. induction turns as [|turns IH]; intros w; cbn [drawNonce]; [discriminate|].
  intros H. apply bind_Ok in H. destruct H as (n1 & [g1 w1] & H1 & H).
  apply on_snd_Ok in H1. destruct H1 as [-> H1].
  apply bind_Ok in H. destruct H as (s & s1 & Hr & H).
  apply read_Ok in Hr. destruct Hr as [-> ->]. cbn [fst] in H.
  pose proof (respects_Ok _ _ _ _ _ kept_generateNonce H1) as Hk.
  destruct (bool_decide (n1 ∈ usedNonces g)) eqn:E.
  - destruct (IH _ H) as (-> & Hn & Hc). repeat split; [exact Hn|].
    unfold clock_kept in Hk. congruence.
  - apply ret_Ok in H. destruct H as [-> H]. inversion H; subst.
    apply bool_decide_eq_false in E. repeat split; [exact E|exact Hk].
Qed.

(** What [createChallenge] returns: the fields of [base], a nonce that the
    instance had not used, now recorded, the clock reading plus five
    minutes, a fresh salt, and the digest of the answer's string followed
    by the salt. *)
Lemma createChallenge_Ok (base : Base) (g g' : t) (w w' : World.t) (c : CaptchaChallenge) :
  createChallenge base (g, w) = Ok c (g', w') ->
  (type c = b_type base /\ question c = b_question base
   /\ answer c = b_answer base /\ steps c = b_steps base)
  /\ ((nonce c ∉ usedNonces g) /\ usedNonces g' = {[nonce c]} ∪ usedNonces g)
  /\ (exists now, World.clock w = now :: World.clock w'
                  /\ expiry c = of_Z (now + 5 * 60 * 1000))
  /\ (exists a, method_toString (b_answer base) = Returns a
                /\ hashedAnswer c
                   = CryptoHash.digest_hex (CryptoHash.update (a ++ salt c) CryptoHash.create)).
Proof.
  unfold createChallenge. intros H.
  apply bind_Ok in H. destruct H as (s & s1 & Hr & H).
  apply read_Ok in Hr. destruct Hr as [-> ->].
  apply bind_Ok in H. destruct H as (n & [g1 w1] & Hn & H).
  apply drawNonce_Ok in Hn. destruct Hn as (-> & Hfresh & Hc1).
  apply bind_Ok in H. destruct H as ([] & [g2 w2] & Ha & H).
  cbn in Ha. inversion Ha; subst g2 w2. clear Ha.
  apply bind_Ok in H. destruct H as (now & [g3 w3] & Hd & H).
  apply on_snd_Ok in Hd. destruct Hd as [-> Hd].
  apply bind_Ok in H. destruct H as (sa & [g4 w4] & Hs & H).
  apply on_snd_Ok in Hs. destruct Hs as [-> Hs].
  apply bind_Ok in H. destruct H as (hash & s5 & Hh & H).
  apply of_outcome_Ok in Hh. destruct Hh as [Hh ->].
  apply bind_Ok in H. destruct H as (a & s6 & Hans & H).
  apply of_outcome_Ok in Hans. destruct Hans as [Hans ->].
  apply ret_Ok in H. destruct H as [-> H]. inversion H; subst g' w'. clear H.
  cbn [type question answer steps nonce expiry hashedAnswer salt usedNonces].
  pose proof (respects_Ok _ _ _ _ _ kept_generateSalt Hs) as Hk.
  unfold clock_kept in Hk.
  unfold World.Date_now in Hd. destruct (World.clock w1) as [|t rest] eqn:Ec; [discriminate|].
  inversion Hd; subst now w3. cbn [World.clock] in Hk.
  repeat split; try assumption.
  - exists t. split; [congruence|reflexivity].
  - exists a. split; [exact Hans|].
    cbn in Hh. inversion Hh; subst hash. reflexivity.
Qed.

Lemma issues_well_bind {A : Type} (m : M (t * World.t) A)
    (k : A -> M (t * World.t) CaptchaChallenge) :
  respects step_of m -> (forall a, issues_well (k a)) -> issues_well (bind m k).
Proof.
  intros Hm Hk g w c g' w' H.
  apply bind_Ok in H. destruct H as (a & [g1 w1] & H1 & H).
  pose proof (respects_Ok _ _ _ _ _ Hm H1) as [Hn _ _ [p0 Hc]]. cbn [fst snd] in *.
  destruct (Hk a _ _ _ _ _ H) as (Hnd & Hin & past & Hp & Hx).
  split; [exact Hnd|]. split.
  - intros n Hn'. destruct (Hin n Hn') as [H0 H1']. split; [set_solver|exact H1'].
  - exists (p0 ++ past). split; [rewrite Hc, Hp, app_assoc; reflexivity|].
    intros x Hx'. destruct (Hx x Hx') as (now & Hnow & He).
    exists now. split; [apply in_or_app; right; exact Hnow|exact He].
Qed.

Lemma issues_well_createChallenge (base : Base) :
  b_steps base = None -> issues_well (createChallenge base).
Proof.
  intros Hb g w c g' w' H.
  destruct (createChallenge_Ok _ _ _ _ _ _ H)
    as ((_ & _ & _ & Hs) & (Hf & Hu) & (now & Hc & He) & _).
  rewrite Hb in Hs. rewrite all_nonces_eq, Hs. unfold with_steps. rewrite Hs.
  split; [repeat constructor; intros []|]. split.
  - intros n [<-|[]]. split; [exact Hf|rewrite Hu; set_solver].
  - exists [now]. split; [exact Hc|].
    intros x [<-|[]]. exists now. split; [left; reflexivity|exact He].
Qed.

Lemma issues_well_generateMathWithin (tries : nat) : issues_well (generateMathWithin tries).
Proof.
  induction tries as [|tries IH]; cbn [generateMathWithin].
  - intros g w c g' w' H. discriminate.
  - apply issues_well_bind; [apply respects_read, step_of_refl|intros s].
    do 3 (apply issues_well_bind;
          [first [apply steps_on_snd; first [apply kept_getRandomNumber
                                            |apply kept_getRandomOperator]]|intros ?]).
    apply issues_well_bind.
    { destruct (_ && _).
      - apply (respects_bind _ step_of_trans);
          [apply steps_on_snd, kept_getRandomNumber|intros ?].
        apply respects_ret, step_of_refl.
      - apply respects_ret, step_of_refl. }
    intros num2. destruct (isNaN _); [exact IH|].
    apply issues_well_createChallenge. reflexivity.
Qed.

Lemma issues_well_generateMath : issues_well generateMath.
Proof.
  unfold generateMath.
  apply issues_well_bind; [apply respects_read, step_of_refl|intros s].
  apply issues_well_generateMathWithin.
Qed.

Ltac simple_provider lemma :=
  apply issues_well_bind; [apply respects_read, step_of_refl|intros ?];
  apply issues_well_bind; [apply steps_on_snd, lemma|intros ?];
  try match goal with
      | |- issues_well (match ?x with _ => _ end) => destruct x
      end;
  first [ apply issues_well_createChallenge; reflexivity
        | intros ? ? ? ? ? ?; discriminate ].

Lemma issues_well_generateText : issues_well generateText.
Proof. unfold generateText. simple_provider kept_generateRandomString. Qed.

Lemma issues_well_generateSequence : issues_well generateSequence.
Proof. unfold generateSequence. simple_provider kept_sequence. Qed.

Lemma issues_well_generateScramble : issues_well generateScramble.
Proof. unfold generateScramble. simple_provider kept_scramble. Qed.

Lemma issues_well_generateReverse : issues_well generateReverse.
Proof. unfold generateReverse. simple_provider kept_reverse. Qed.

Lemma issues_well_generateCustom : issues_well generateCustom.
Proof.
  unfold generateCustom.
  apply issues_well_bind; [apply respects_read, step_of_refl|intros s].
  destruct (customGenerator _); [|intros ? ? ? ? ? ?; discriminate].
  apply issues_well_bind; [apply steps_on_snd, kept_custom|intros ?].
  apply issues_well_createChallenge. reflexivity.
Qed.

Variable locales : Locale.Data.

Lemma issues_well_generateRiddle : issues_well (generateRiddle locales).
Proof. unfold generateRiddle. simple_provider kept_riddle. Qed.

Lemma issues_well_generateLogic : issues_well (generateLogic locales).
Proof. unfold generateLogic. simple_provider kept_logic. Qed.

(** The two steps and their parent. *)
Lemma issues_well_generateMulti : issues_well (generateMulti locales).
Proof.
  intros g w c g' w' H. unfold generateMulti in H.
  apply bind_Ok in H. destruct H as (step1 & [g1 w1] & H1 & H).
  apply bind_Ok in H. destruct H as (step2 & [g2 w2] & H2 & H).
  destruct (issues_well_generateMath _ _ _ _ _ H1) as (N1 & I1 & p1 & C1 & X1).
  destruct (issues_well_generateRiddle _ _ _ _ _ H2) as (N2 & I2 & p2 & C2 & X2).
  destruct (createChallenge_Ok _ _ _ _ _ _ H)
    as ((_ & _ & _ & Hs) & (Hf & Hu) & (now & Hc & He) & _).
  cbn [b_steps] in Hs.
  assert (Hall : all_nonces c = nonce c :: all_nonces step1 ++ all_nonces step2).
  { rewrite (all_nonces_eq c), Hs. cbn [flat_map]. rewrite app_nil_r. reflexivity. }
  pose proof (respects_Ok _ _ _ _ _ (steps_on_generateRiddle locales) H2) as [M2 _ _ _].
  cbn [fst] in M2.
  rewrite Hall. split; [|split].
  - constructor.
    + intros Hin. apply in_app_or in Hin. destruct Hin as [Hin|Hin].
      * apply I1 in Hin. destruct Hin as [_ Hin]. set_solver.
      * apply I2 in Hin. destruct Hin as [_ Hin]. set_solver.
    + apply NoDup_ListNoDup. apply NoDup_app. repeat split.
      * apply NoDup_ListNoDup. exact N1.
      * intros n Hn Hn'. apply list_elem_of_In in Hn, Hn'.
        apply I1 in Hn. apply I2 in Hn'. tauto.
      * apply NoDup_ListNoDup. exact N2.
  - intros n [<-|Hin].
    + split; [|rewrite Hu; set_solver].
      pose proof (respects_Ok _ _ _ _ _ steps_on_generateMath H1) as [M1 _ _ _].
      cbn [fst] in M1. set_solver.
    + apply in_app_or in Hin. destruct Hin as [Hin|Hin].
      * apply I1 in Hin. destruct Hin as [Ha Hb]. split; [exact Ha|]. rewrite Hu. set_solver.
      * apply I2 in Hin. destruct Hin as [Ha Hb]. split; [|rewrite Hu; set_solver].
        pose proof (respects_Ok _ _ _ _ _ steps_on_generateMath H1) as [M1 _ _ _].
        cbn [fst] in M1. set_solver.
  - exists (p1 ++ p2 ++ [now]). split.
    { rewrite C1, C2, Hc, <- !app_assoc. reflexivity. }
    unfold with_steps. rewrite Hs. intros x [<-|[<-|[<-|[]]]].
    + exists now. split; [rewrite !in_app_iff; right; right; left; reflexivity|exact He].
    + destruct (X1 step1) as (t & Ht & Hex); [left; reflexivity|].
      exists t. split; [rewrite in_app_iff; tauto|exact Hex].
    + destruct (X2 step2) as (t & Ht & Hex); [left; reflexivity|].
      exists t. split; [rewrite !in_app_iff; tauto|exact Hex].
Qed.

(** The mixed challenge takes the question, answer and steps of the one
    [generate] returned and a nonce, salt and expiry of its own. *)
Lemma issues_well_generateMixed (generate : M (t * World.t) CaptchaChallenge) :
  respects step_of generate -> issues_well generate ->
  issues_well (generateMixed generate).
Proof.
  intros Hr Hg. unfold generateMixed.
  apply issues_well_bind; [apply steps_on_snd, kept_randomBytes|intros buffer].
  apply issues_well_bind; [apply respects_read, step_of_refl|intros s].
  apply issues_well_bind; [apply steps_on_setType|intros _].
  intros g w c g' w' H.
  apply bind_Ok in H. destruct H as (inner & [g1 w1] & H1 & H).
  apply bind_Ok in H. destruct H as ([] & [g2 w2] & H2 & H).
  destruct (Hg _ _ _ _ _ H1) as (N1 & I1 & p1 & C1 & X1).
  assert (S2 : step_of (g1, w1) (g2, w2)).
  { destruct (truthy _).
    - exact (respects_Ok _ _ _ _ _ (steps_on_setType _) H2).
    - apply ret_Ok in H2. destruct H2 as [_ H2]. inversion H2. apply step_of_refl. }
  destruct S2 as [M2 _ _ [p2 C2]]. cbn [fst snd] in M2, C2.
  destruct (createChallenge_Ok _ _ _ _ _ _ H)
    as ((_ & _ & _ & Hs) & (Hf & Hu) & (now & Hc & He) & _).
  cbn [b_steps] in Hs.
  rewrite (all_nonces_eq inner) in N1, I1.
  rewrite (all_nonces_eq c), Hs. split; [|split].
  - constructor.
    + intros Hin. destruct (I1 _ (or_intror Hin)) as [_ Hin']. set_solver.
    + inversion N1. assumption.
  - intros n [<-|Hin].
    + split; [|rewrite Hu; set_solver].
      pose proof (respects_Ok _ _ _ _ _ Hr H1) as [M1 _ _ _]. cbn [fst] in M1. set_solver.
    + destruct (I1 _ (or_intror Hin)) as [Ha Hb]. split; [exact Ha|]. rewrite Hu. set_solver.
  - exists (p1 ++ p2 ++ [now]). split.
    { rewrite C1, C2, Hc, <- !app_assoc. reflexivity. }
    unfold with_steps. rewrite Hs. intros x [<-|Hin].
    + exists now. split; [rewrite !in_app_iff; right; right; left; reflexivity|exact He].
    + destruct (X1 x) as (t & Ht & Hex).
      { unfold with_steps. right. exact Hin. }
      exists t. split; [rewrite in_app_iff; tauto|exact Hex].
Qed.

Lemma issues_well_generateWithin (depth : nat) : issues_well (generateWithin locales depth).
Proof.
  induction depth as [|depth IH]; cbn [generateWithin].
  - intros ? ? ? ? ? ?; discriminate.
  - apply issues_well_bind; [apply respects_read, step_of_refl|intros s].
    destruct (customOptions _); [apply issues_well_generateCustom|].
    destruct (standardOptions _); [|intros ? ? ? ? ? ?; discriminate].
    repeat match goal with
           | |- issues_well (if ?b then _ else _) => destruct b
           end;
      first [ apply issues_well_generateMath | apply issues_well_generateText
            | apply issues_well_generateRiddle | apply issues_well_generateSequence
            | apply issues_well_generateScramble | apply issues_well_generateLogic
            | apply issues_well_generateReverse | apply issues_well_generateMulti
            | apply issues_well_generateMixed;
              [apply steps_on_generateWithin|exact IH] ].
Qed.

Lemma issues_well_generate : issues_well (generate locales).
Proof.
  unfold generate.
  apply issues_well_bind; [apply respects_read, step_of_refl|intros s].
  apply issues_well_generateWithin.
Qed.

End Issuer.

(** ** Progress: what a call needs of the world to return *)

Section Progress.

Import CaptchaGenerator.

Lemma bind_step {S A B : Type} (m : M S A) (k : A -> M S B) (s s' : S) (a : A) :
  m s = Ok a s' -> bind m k s = k a s'.
Proof. intros H. unfold bind. rewrite H. reflexivity. Qed.

Lemma on_snd_step {G W A : Type} (m : M W A) (g : G) (w w' : W) (a : A) :
  m w = Ok a w' -> on_snd m (g, w) = Ok a (g, w').
Proof. intros H. unfold on_snd. rewrite H. reflexivity. Qed.

Lemma consumed_length (n : nat) (w : World.t) :
  List.length (World.entropy (consumed n w)) = (List.length (World.entropy w) - n)%nat.
Proof. unfold consumed. cbn [World.entropy]. apply List.length_skipn. Qed.

Lemma consumed_consumed (n m : nat) (w : World.t) :
  consumed n (consumed m w) = consumed (m + n) w.
Proof.
  unfold consumed. cbn [World.entropy World.prng World.clock].
  rewrite List.skipn_skipn. f_equal. f_equal. lia.
Qed.

Lemma randomBytes_enough (size : Z) (w : World.t) :
  1 <= size <= 65536 -> (Z.to_nat size <= List.length (World.entropy w))%nat ->
  CryptoUtils.randomBytes size w
  = Ok (firstn (Z.to_nat size) (World.entropy w)) (consumed (Z.to_nat size) w).
Proof.
  intros Hs Hl. unfold CryptoUtils.randomBytes.
  replace (size <=? 0) with false by (symmetry; apply Z.leb_gt; lia).
  replace (size >? 65536) with false by (symmetry; rewrite Z.gtb_ltb; apply Z.ltb_ge; lia).
  cbn [orb]. unfold World.getRandomValues.
  replace (_ <? _)%nat with false by (symmetry; apply Nat.ltb_ge; exact Hl).
  reflexivity.
Qed.

Lemma readUInt32LE_range (buffer : list Z) :
  List.length buffer = 4%nat ->
  exists u, CryptoBuffer.readUInt32LE buffer 0 = Returns u /\ 0 <= u < 4294967296.
Proof.
  intros Hl. destruct buffer as [|b0 [|b1 [|b2 [|b3 [|? ?]]]]]; try discriminate.
  eexists. split; [reflexivity|]. apply Z.mod_pos_bound. lia.
Qed.

(** A draw of an operand returns, four bytes later, a positive number. *)
Lemma getRandomNumber_enough (d : Value) (w : World.t) :
  (4 <= List.length (World.entropy w))%nat ->
  exists x,
    Random.getRandomNumber d w = Ok x (consumed 4 w) /\ finite_within false 1 72 x.
Proof.
  intros Hl. unfold Random.getRandomNumber.
  rewrite (bind_step _ _ _ _ _ (randomBytes_enough 4 w ltac:(lia) ltac:(lia))).
  destruct (readUInt32LE_range (firstn (Z.to_nat 4) (World.entropy w))) as (u & Hu & Hr).
  { rewrite List.length_firstn. lia. }
  rewrite Hu. cbn [of_outcome]. unfold bind at 1. unfold ret at 1.
  change (Z.to_nat 4) with 4%nat.
  destruct (is_str d (str "easy")); [|destruct (is_str d (str "medium"))];
    (eexists; split; [reflexivity|apply scaled_draw_finite; lia]).
Qed.

Lemma getRandomOperator_enough (w : World.t) :
  (1 <= List.length (World.entropy w))%nat ->
  exists op, Random.getRandomOperator w = Ok op (consumed 1 w) /\ In op Random.operators.
Proof.
  intros Hl. unfold Random.getRandomOperator.
  rewrite (bind_step _ _ _ _ _ (randomBytes_enough 1 w ltac:(lia) ltac:(lia))).
  eexists. split; [reflexivity|].
  apply List.nth_In.
  pose proof (Z.mod_pos_bound (nth 0 (firstn (Z.to_nat 1) (World.entropy w)) 0) 4 ltac:(lia)).
  change (List.length Random.operators) with 4%nat. lia.
Qed.

Lemma generateNonce_enough (w : World.t) :
  (16 <= List.length (World.entropy w))%nat ->
  Random.generateNonce w = Ok (hex (firstn 16 (World.entropy w))) (consumed 16 w).
Proof.
  intros Hl. unfold Random.generateNonce.
  rewrite (bind_step _ _ _ _ _ (randomBytes_enough 16 w ltac:(lia) ltac:(lia))).
  reflexivity.
Qed.

Lemma generateSalt_enough (w : World.t) :
  (8 <= List.length (World.entropy w))%nat ->
  Random.generateSalt w = Ok (hex (firstn 8 (World.entropy w))) (consumed 8 w).
Proof.
  intros Hl. unfold Random.generateSalt.
  rewrite (bind_step _ _ _ _ _ (randomBytes_enough 8 w ltac:(lia) ltac:(lia))).
  reflexivity.
Qed.

(** The first candidate is taken when it has not been issued. *)
Lemma drawNonce_fresh (turns : nat) (g : t) (w : World.t) :
  (16 <= List.length (World.entropy w))%nat ->
  hex (firstn 16 (World.entropy w)) ∉ usedNonces g ->
  drawNonce (S turns) (g, w) = Ok (hex (firstn 16 (World.entropy w))) (g, consumed 16 w).
Proof.
  intros Hl Hfresh. cbn [drawNonce].
  rewrite (bind_step _ _ _ _ _ (on_snd_step _ g _ _ _ (generateNonce_enough w Hl))).
  unfold bind, read. cbn [fst].
  rewrite bool_decide_eq_false_2 by exact Hfresh. reflexivity.
Qed.

(** [createChallenge] returns when 24 bytes and a clock reading are left
    and the first nonce drawn is new. *)
Lemma createChallenge_returns (base : Base) (g : t) (w : World.t) (now : Z) (rest : list Z)
      (a : jsstring) :
  (24 <= List.length (World.entropy w))%nat ->
  World.clock w = now :: rest ->
  hex (firstn 16 (World.entropy w)) ∉ usedNonces g ->
  method_toString (b_answer base) = Returns a ->
  exists c g' w',
    createChallenge base (g, w) = Ok c (g', w')
    /\ type c = b_type base /\ question c = b_question base
    /\ answer c = b_answer base /\ steps c = b_steps base
    /\ nonce c = hex (firstn 16 (World.entropy w))
    /\ salt c = hex (firstn 8 (skipn 16 (World.entropy w)))
    /\ hashedAnswer c = CryptoHash.digest_hex (CryptoHash.update (a ++ salt c) CryptoHash.create)
    /\ expiry c = of_Z (now + 300000)
    /\ usedNonces g' = {[nonce c]} ∪ usedNonces g
    /\ standardOptions g' = standardOptions g
    /\ customOptions g' = customOptions g
    /\ customGenerator g' = customGenerator g
    /\ World.entropy w' = skipn 24 (World.entropy w)
    /\ World.prng w' = World.prng w
    /\ World.clock w' = rest.
Proof.
  intros Hl Hc Hfresh Ha. unfold createChallenge.
  rewrite (bind_step read _ (g, w) (g, w) (g, w) eq_refl). cbn [snd].
  rewrite (bind_step _ _ _ _ _ (drawNonce_fresh _ g w ltac:(lia) Hfresh)).
  rewrite (bind_step _ _ _ _ _ (eq_refl : addNonce _ (g, consumed 16 w) = Ok tt _)).
  assert (Hnow : World.Date_now (consumed 16 w)
                 = Ok now {| World.entropy := skipn 16 (World.entropy w);
                             World.prng := World.prng w; World.clock := rest |}).
  { unfold World.Date_now, consumed. cbn [World.clock World.entropy World.prng].
    rewrite Hc. reflexivity. }
  rewrite (bind_step _ _ _ _ _ (on_snd_step _ _ _ _ _ Hnow)).
  match goal with
  | |- context [on_snd Random.generateSalt] =>
      rewrite (bind_step _ _ _ _ _
                 (on_snd_step _ _ _ _ _
                    (generateSalt_enough
                       {| World.entropy := skipn 16 (World.entropy w);
                          World.prng := World.prng w; World.clock := rest |}
                       ltac:(cbn [World.entropy]; rewrite List.length_skipn; lia))))
  end.
  change (CryptoUtils.createHash (str "sha256")) with (Returns CryptoHash.create).
  cbn [of_outcome]. unfold bind at 1. unfold ret at 1.
  rewrite Ha. cbn [of_outcome]. unfold bind at 1. unfold ret at 1.
  eexists. eexists. eexists. split; [reflexivity|].
  cbn [type question answer steps nonce salt hashedAnswer expiry usedNonces standardOptions
       customOptions customGenerator World.entropy World.prng World.clock consumed].
  rewrite List.skipn_skipn.
  repeat split; reflexivity.
Qed.

Lemma candidate_consumed (w : World.t) (i : nat) :
  candidate (consumed 16 w) i = candidate w (S i).
Proof.
  unfold candidate, consumed. cbn [World.entropy]. rewrite List.skipn_skipn.
  do 3 f_equal. lia.
Qed.

(** The loop draws again while the nonce drawn has been issued: when the
    first [k] candidates are in the set and the next one is not, that one
    is returned, [16 * (k + 1)] bytes later. *)
Lemma drawNonce_redraws (k : nat) :
  forall (turns : nat) (g : t) (w : World.t),
    (k < turns)%nat ->
    (16 * (k + 1) <= List.length (World.entropy w))%nat ->
    (forall i, (i < k)%nat -> candidate w i ∈ usedNonces g) ->
    candidate w k ∉ usedNonces g ->
    drawNonce turns (g, w) = Ok (candidate w k) (g, consumed (16 * (k + 1)) w).
Proof.
  induction k as [|k IH]; intros turns g w Ht Hl Hused Hfresh;
    (destruct turns as [|turns]; [lia|]).
  - apply (drawNonce_fresh turns g w); [lia|exact Hfresh].
  - cbn [drawNonce].
    rewrite (bind_step _ _ _ _ _ (on_snd_step _ g _ _ _ (generateNonce_enough w ltac:(lia)))).
    unfold bind at 1. unfold read at 1. cbn [fst].
    rewrite bool_decide_eq_true_2 by (apply (Hused 0%nat); lia).
    rewrite (IH turns g (consumed 16 w)).
    + rewrite candidate_consumed, consumed_consumed. do 3 f_equal. lia.
    + lia.
    + rewrite consumed_length. lia.
    + intros i Hi. rewrite candidate_consumed. apply Hused. lia.
    + rewrite candidate_consumed. exact Hfresh.
Qed.

(** [createChallenge] returns when its loop finds a new nonce and 8 bytes
    and a clock reading are left after it. *)
Lemma createChallenge_redraws (base : Base) (g : t) (w : World.t) (k : nat) (now : Z)
      (rest : list Z) (a : jsstring) :
  (16 * (k + 1) + 8 <= List.length (World.entropy w))%nat ->
  World.clock w = now :: rest ->
  method_toString (b_answer base) = Returns a ->
  (forall i, (i < k)%nat -> candidate w i ∈ usedNonces g) ->
  candidate w k ∉ usedNonces g ->
  exists c g' w',
    createChallenge base (g, w) = Ok c (g', w')
    /\ nonce c = candidate w k
    /\ expiry c = of_Z (now + 300000)
    /\ usedNonces g' = {[candidate w k]} ∪ usedNonces g
    /\ World.entropy w' = skipn (16 * (k + 1) + 8) (World.entropy w)
    /\ World.clock w' = rest.
Proof.
  intros Hl Hc Ha Hused Hfresh. unfold createChallenge.
  rewrite (bind_step read _ (g, w) (g, w) (g, w) eq_refl). cbn [snd].
  rewrite (bind_step _ _ _ _ _
             (drawNonce_redraws k (S (List.length (World.entropy w))) g w
                ltac:(lia) ltac:(lia) Hused Hfresh)).
  rewrite (bind_step _ _ _ _ _
             (eq_refl : addNonce _ (g, consumed (16 * (k + 1)) w) = Ok tt _)).
  assert (Hnow : World.Date_now (consumed (16 * (k + 1)) w)
                 = Ok now {| World.entropy := skipn (16 * (k + 1)) (World.entropy w);
                             World.prng := World.prng w; World.clock := rest |}).
  { unfold World.Date_now, consumed. cbn [World.clock World.entropy World.prng].
    rewrite Hc. reflexivity. }
  rewrite (bind_step _ _ _ _ _ (on_snd_step _ _ _ _ _ Hnow)).
  match goal with
  | |- context [on_snd Random.generateSalt] =>
      rewrite (bind_step _ _ _ _ _
                 (on_snd_step _ _ _ _ _
                    (generateSalt_enough
                       {| World.entropy := skipn (16 * (k + 1)) (World.entropy w);
                          World.prng := World.prng w; World.clock := rest |}
                       ltac:(cbn [World.entropy]; rewrite List.length_skipn; lia))))
  end.
  change (CryptoUtils.createHash (str "sha256")) with (Returns CryptoHash.create).
  cbn [of_outcome]. unfold bind at 1. unfold ret at 1.
  rewrite Ha. cbn [of_outcome]. unfold bind at 1. unfold ret at 1.
  eexists. eexists. eexists. split; [reflexivity|].
  cbn [nonce expiry usedNonces World.entropy World.clock consumed].
  rewrite List.skipn_skipn.
  repeat split; try reflexivity. f_equal. lia.
Qed.

(** A math challenge is issued at the first try: both operands are at
    least 1, so the answer is a number and the division by zero that the
    code guards against does not arise. The call takes 33 bytes of the
    source and one reading of the clock. *)
Lemma generateMathWithin_returns (tries : nat) (g : t) (w : World.t) (now : Z)
      (rest : list Z) :
  (33 <= List.length (World.entropy w))%nat ->
  World.clock w = now :: rest ->
  hex (firstn 16 (skipn 9 (World.entropy w))) ∉ usedNonces g ->
  exists c g' w',
    generateMathWithin (S tries) (g, w) = Ok c (g', w')
    /\ type c = str "math"
    /\ (exists x, answer c = Num x /\ isNaN x = false)
    /\ steps c = None
    /\ nonce c = hex (firstn 16 (skipn 9 (World.entropy w)))
    /\ expiry c = of_Z (now + 300000)
    /\ usedNonces g' = {[nonce c]} ∪ usedNonces g
    /\ standardOptions g' = standardOptions g
    /\ customOptions g' = customOptions g
    /\ World.entropy w' = skipn 33 (World.entropy w)
    /\ World.clock w' = rest.
Proof.
  intros Hl Hc Hfresh. cbn [generateMathWithin].
  rewrite (bind_step read _ (g, w) (g, w) (g, w) eq_refl). cbn [fst].
  destruct (getRandomNumber_enough (getDifficulty g) w ltac:(lia)) as (x1 & E1 & F1).
  rewrite (bind_step _ _ _ _ _ (on_snd_step _ g _ _ _ E1)).
  destruct (getRandomNumber_enough (getDifficulty g) (consumed 4 w)
              ltac:(rewrite consumed_length; lia)) as (x2 & E2 & F2).
  rewrite (bind_step _ _ _ _ _ (on_snd_step _ g _ _ _ E2)).
  destruct (getRandomOperator_enough (consumed 4 (consumed 4 w))
              ltac:(rewrite !consumed_length; lia)) as (op & E3 & _).
  rewrite (bind_step _ _ _ _ _ (on_snd_step _ g _ _ _ E3)).
  rewrite (strict_eq_zero _ _ _ _ F2), andb_false_r.
  rewrite (bind_step (ret x2) _ _ _ _ eq_refl).
  rewrite (calculateMath_not_nan x1 x2 op F1 F2).
  rewrite !consumed_consumed. change (4 + 4 + 1)%nat with 9%nat.
  destruct (createChallenge_returns
              {| b_type := str "math";
                 b_question := Number.toString x1 ++ str " " ++ op ++ str " "
                               ++ Number.toString x2;
                 b_answer := Num (calculateMath x1 op x2); b_steps := None |}
              g (consumed 9 w) now rest (Number.toString (calculateMath x1 op x2)))
    as (c & g' & w' & E & Ht & _ & Hans & Hst & Hn & _ & _ & Hexp & Hu & Hso & Hco & _
        & He & _ & Hcl).
  - rewrite consumed_length. lia.
  - exact Hc.
  - exact Hfresh.
  - reflexivity.
  - exists c, g', w'. split; [exact E|].
    cbn [b_type b_answer b_steps consumed World.entropy] in *.
    rewrite List.skipn_skipn in He.
    repeat split; try assumption.
    exists (calculateMath x1 op x2). split; [exact Hans|].
    apply (calculateMath_not_nan x1 x2 op F1 F2).
Qed.

Lemma generateMath_returns (g : t) (w : World.t) (now : Z) (rest : list Z) :
  (33 <= List.length (World.entropy w))%nat ->
  World.clock w = now :: rest ->
  hex (firstn 16 (skipn 9 (World.entropy w))) ∉ usedNonces g ->
  exists c g' w',
    generateMath (g, w) = Ok c (g', w')
    /\ type c = str "math"
    /\ (exists x, answer c = Num x /\ isNaN x = false)
    /\ steps c = None
    /\ nonce c = hex (firstn 16 (skipn 9 (World.entropy w)))
    /\ expiry c = of_Z (now + 300000)
    /\ usedNonces g' = {[nonce c]} ∪ usedNonces g
    /\ standardOptions g' = standardOptions g
    /\ customOptions g' = customOptions g
    /\ World.entropy w' = skipn 33 (World.entropy w)
    /\ World.clock w' = rest.
Proof.
  intros Hl Hc Hfresh. unfold generateMath.
  rewrite (bind_step read _ (g, w) (g, w) (g, w) eq_refl). cbn [snd].
  apply generateMathWithin_returns; assumption.
Qed.

(** [generate] on a generator whose kind is ['math']. *)
Lemma generate_math (locales : Locale.Data) (g : t) (o : Options) (w : World.t) :
  customOptions g = None -> standardOptions g = Some o ->
  is_str (o_type o) (str "math") = true ->
  generate locales (g, w) = generateMath (g, w).
Proof.
  intros Hc Hs Ht. unfold generate.
  rewrite (bind_step read _ (g, w) (g, w) (g, w) eq_refl).
  cbn [generateWithin Nat.add].
  rewrite (bind_step read _ (g, w) (g, w) (g, w) eq_refl). cbn [fst].
  rewrite Hc, Hs, Ht. reflexivity.
Qed.

(** [generate] on a generator of kind ['math'] issues a challenge that
    expires 300000 ms after the reading of the clock. *)
Lemma generate_math_returns (locales : Locale.Data) (g : t) (o : Options) (w : World.t)
      (now : Z) (rest : list Z) :
  customOptions g = None -> standardOptions g = Some o ->
  is_str (o_type o) (str "math") = true ->
  (33 <= List.length (World.entropy w))%nat ->
  World.clock w = now :: rest ->
  hex (firstn 16 (skipn 9 (World.entropy w))) ∉ usedNonces g ->
  exists c g' w',
    generate locales (g, w) = Ok c (g', w')
    /\ type c = str "math"
    /\ nonce c = hex (firstn 16 (skipn 9 (World.entropy w)))
    /\ expiry c = of_Z (now + 300000)
    /\ World.clock w' = rest.
Proof.
  intros Hc Hs Ht Hl Hclock Hfresh.
  rewrite (generate_math locales g o w Hc Hs Ht).
  destruct (generateMath_returns g w now rest Hl Hclock Hfresh)
    as (c & g' & w' & E & Hty & _ & _ & Hn & He & _ & _ & _ & _ & Hcl).
  exists c, g', w'. tauto.
Qed.

End Progress.

(** ** The issuer: nonces and expiry *)

(** C4. The challenges that one generator instance issues, their steps
    included, have pairwise distinct nonces: every nonce of a challenge was
    not in the instance's set of used nonces before the call and is in it
    afterwards, and the set only grows, also over calls that raise. The
    loop of [createChallenge] draws again while the nonce it drew is in the
    set: when the first [k] nonces drawn have been issued and the next has
    not, the challenge carries that one, which is added to the set; the
    call has then read [16 * (k + 1) + 8] bytes of the source. *)
Theorem C4_nonces_are_unique (locales : Locale.Data) :
  (forall (g g' : CaptchaGenerator.t) (cs : list CaptchaChallenge),
      issues locales g cs g' ->
      List.NoDup (flat_map all_nonces cs)
      /\ (forall n, In n (flat_map all_nonces cs) ->
            (n ∉ CaptchaGenerator.usedNonces g) /\ (n ∈ CaptchaGenerator.usedNonces g'))
      /\ CaptchaGenerator.usedNonces g ⊆ CaptchaGenerator.usedNonces g')
  /\ (forall (base : CaptchaGenerator.Base) (g : CaptchaGenerator.t) (w : World.t)
             (k : nat) (now : Z) (rest : list Z) (a : jsstring),
        (16 * (k + 1) + 8 <= List.length (World.entropy w))%nat ->
        World.clock w = now :: rest ->
        method_toString (CaptchaGenerator.b_answer base) = Returns a ->
        (forall i, (i < k)%nat -> candidate w i ∈ CaptchaGenerator.usedNonces g) ->
        candidate w k ∉ CaptchaGenerator.usedNonces g ->
        exists c g' w',
          CaptchaGenerator.createChallenge base (g, w) = Ok c (g', w')
          /\ nonce c = candidate w k
          /\ CaptchaGenerator.usedNonces g'
             = {[candidate w k]} ∪ CaptchaGenerator.usedNonces g
          /\ World.entropy w' = skipn (16 * (k + 1) + 8) (World.entropy w)).
Proof.
  split.
  - induction 1 as [g|g g1 g2 w w1 c cs Hgen Hrest IH|g g1 g2 w w1 e cs Hgen Hrest IH].
    + split; [constructor|]. split; [intros n []|reflexivity].
    + destruct IH as (ND & IN & SUB).
      destruct (issues_well_generate locales _ _ _ _ _ Hgen) as (N1 & I1 & _).
      cbn [flat_map]. split; [|split].
      * apply NoDup_ListNoDup. apply NoDup_app. repeat split.
        -- apply NoDup_ListNoDup. exact N1.
        -- intros n Hn Hn'. apply list_elem_of_In in Hn, Hn'.
           apply I1 in Hn. apply IN in Hn'. tauto.
        -- apply NoDup_ListNoDup. exact ND.
      * intros n Hn. apply in_app_or in Hn. destruct Hn as [Hn|Hn].
        -- apply I1 in Hn. destruct Hn as [Ha Hb]. split; [exact Ha|set_solver].
        -- apply IN in Hn. destruct Hn as [Ha Hb]. split; [|exact Hb].
           pose proof (respects_Ok _ _ _ _ _ (steps_on_generate locales) Hgen) as [M1 _ _ _].
           cbn [fst] in M1. set_solver.
      * pose proof (respects_Ok _ _ _ _ _ (steps_on_generate locales) Hgen) as [M1 _ _ _].
        cbn [fst] in M1. set_solver.
    + destruct IH as (ND & IN & SUB).
      pose proof (respects_Fail _ _ _ _ _ (steps_on_generate locales) Hgen) as [M1 _ _ _].
      cbn [fst] in M1.
      split; [exact ND|]. split; [|set_solver].
      intros n Hn. apply IN in Hn. destruct Hn as [Ha Hb]. split; [set_solver|exact Hb].
  - intros base g w k now rest a Hl Hc Ha Hused Hfresh.
    destruct (createChallenge_redraws base g w k now rest a Hl Hc Ha Hused Hfresh)
      as (c & g' & w' & E & Hn & _ & Hu & He & _).
    exists c, g', w'. tauto.
Qed.

Lemma C4_nonces_are_unique_witness :
  (exists (cs : list CaptchaChallenge) (g' : CaptchaGenerator.t),
      issues Sample.locales (Sample.generator (str "multi") (str "easy")) cs g'
      /\ List.length cs = 2%nat
      /\ List.NoDup (flat_map all_nonces cs))
  /\ (exists c1 g1 w1 c2 g2 w2,
        CaptchaGenerator.createChallenge Sample.five_by_one
          (Sample.generator (str "math") (str "easy"), Sample.world) = Ok c1 (g1, w1)
        /\ CaptchaGenerator.createChallenge Sample.five_by_one (g1, Sample.world)
           = Ok c2 (g2, w2)
        /\ nonce c1 = str "0b30557a9fc4e90e33587da2c7ec1136"
        /\ nonce c2 = str "5b80a5caef14395e83a8cdf2173c6186").
Proof.
  split.
  - assert (Hrun : exists cs g',
               issues Sample.locales (Sample.generator (str "multi") (str "easy")) cs g'
               /\ List.length cs = 2%nat).
    { eexists. eexists. split.
      - eapply (issues_one Sample.locales _ _ _ Sample.world).
        + vm_compute. reflexivity.
        + eapply (issues_one Sample.locales _ _ _ Sample.world).
          * vm_compute. reflexivity.
          * apply issues_none.
      - reflexivity. }
    destruct Hrun as (cs & g' & Hi & Hl). exists cs, g'.
    split; [exact Hi|]. split; [exact Hl|].
    apply (proj1 (C4_nonces_are_unique Sample.locales) _ _ _ Hi).
  - assert (H0 : CaptchaGenerator.usedNonces (Sample.generator (str "math") (str "easy")) = ∅)
      by reflexivity.
    assert (Hd : candidate Sample.world 1 <> candidate Sample.world 0)
      by (vm_compute; discriminate).
    destruct (proj2 (C4_nonces_are_unique Sample.locales) Sample.five_by_one
                (Sample.generator (str "math") (str "easy")) Sample.world 0%nat
                1700000000000 (List.tl (World.clock Sample.world)) (str "5"))
      as (c1 & g1 & w1 & E1 & N1 & U1 & _).
    { vm_compute. lia. }
    { reflexivity. }
    { vm_compute. reflexivity. }
    { intros i Hi. lia. }
    { rewrite H0. set_solver. }
    destruct (proj2 (C4_nonces_are_unique Sample.locales) Sample.five_by_one
                g1 Sample.world 1%nat
                1700000000000 (List.tl (World.clock Sample.world)) (str "5"))
      as (c2 & g2 & w2 & E2 & N2 & _).
    { vm_compute. lia. }
    { reflexivity. }
    { vm_compute. reflexivity. }
    { intros i Hi. assert (i = 0%nat) as -> by lia. rewrite U1. set_solver. }
    { rewrite U1, H0. set_solver. }
    exists c1, g1, w1, c2, g2, w2.
    split; [exact E1|]. split; [exact E2|].
    split; [rewrite N1|rewrite N2]; vm_compute; reflexivity.
Defined.

(** C3. [verify] returns false once the current time is past the expiry of
    the challenge, whatever the input; every challenge that [generate]
    returns, like each of its steps, expires exactly five minutes (300000
    ms) after a reading of the clock taken by that call; and challenges are
    issued so: [createChallenge] returns, with the expiry 300000 ms after
    the clock's reading, whenever its loop finds a new nonce and the source
    has 8 more bytes, and [generate] on a generator of kind ['math'] does
    whenever the source has 33 bytes and the nonce it draws is new. *)
Theorem C3_expiry_is_enforced_and_fixed (locales : Locale.Data) :
  (forall (now : Z) (p : K9Guard.Properties) (e : number) (userInput : Value),
      K9Guard.r_expiry p = Num e -> gtb (of_Z now) e = true ->
      K9Guard.validate now (K9Guard.UObject p) userInput = Returns false)
  /\ (forall g w c g' w',
        CaptchaGenerator.generate locales (g, w) = Ok c (g', w') ->
        exists past,
          World.clock w = past ++ World.clock w'
          /\ forall x, In x (with_steps c) ->
               exists issued, In issued past /\ expiry x = of_Z (issued + 300000))
  /\ (forall (base : CaptchaGenerator.Base) (g : CaptchaGenerator.t) (w : World.t)
             (k : nat) (now : Z) (rest : list Z) (a : jsstring),
        (16 * (k + 1) + 8 <= List.length (World.entropy w))%nat ->
        World.clock w = now :: rest ->
        method_toString (CaptchaGenerator.b_answer base) = Returns a ->
        (forall i, (i < k)%nat -> candidate w i ∈ CaptchaGenerator.usedNonces g) ->
        candidate w k ∉ CaptchaGenerator.usedNonces g ->
        exists c g' w',
          CaptchaGenerator.createChallenge base (g, w) = Ok c (g', w')
          /\ expiry c = of_Z (now + 300000)
          /\ World.clock w' = rest)
  /\ (forall (g : CaptchaGenerator.t) (o : Options) (w : World.t) (now : Z) (rest : list Z),
        CaptchaGenerator.customOptions g = None ->
        CaptchaGenerator.standardOptions g = Some o ->
        is_str (o_type o) (str "math") = true ->
        (33 <= List.length (World.entropy w))%nat ->
        World.clock w = now :: rest ->
        hex (firstn 16 (skipn 9 (World.entropy w))) ∉ CaptchaGenerator.usedNonces g ->
        exists c g' w',
          CaptchaGenerator.generate locales (g, w) = Ok c (g', w')
          /\ expiry c = of_Z (now + 300000)
          /\ World.clock w' = rest).
Proof.
  split; [|split; [|split]].
  - intros now p e userInput He Hgt. exact (validate_expired now p e userInput He Hgt).
  - intros g w c g' w' H.
    destruct (issues_well_generate locales _ _ _ _ _ H) as (_ & _ & Hc). exact Hc.
  - intros base g w k now rest a Hl Hc Ha Hused Hfresh.
    destruct (createChallenge_redraws base g w k now rest a Hl Hc Ha Hused Hfresh)
      as (c & g' & w' & E & _ & He & _ & _ & Hcl).
    exists c, g', w'. tauto.
  - intros g o w now rest Hc Hs Ht Hl Hclock Hfresh.
    destruct (generate_math_returns locales g o w now rest Hc Hs Ht Hl Hclock Hfresh)
      as (c & g' & w' & E & _ & _ & He & Hcl).
    exists c, g', w'. tauto.
Qed.

Lemma C3_expiry_is_enforced_and_fixed_witness :
  exists c g' w',
    CaptchaGenerator.generate Sample.locales
      (Sample.generator (str "math") (str "easy"), Sample.world) = Ok c (g', w')
    /\ expiry c = of_Z 1700000300000
    /\ K9Guard.validate 1700000300001 (K9Guard.of_challenge c) (Str (str "5"))
       = Returns false.
Proof.
  assert (H0 : CaptchaGenerator.usedNonces (Sample.generator (str "math") (str "easy")) = ∅)
    by reflexivity.
  destruct (proj2 (proj2 (proj2 (C3_expiry_is_enforced_and_fixed Sample.locales)))
              (Sample.generator (str "math") (str "easy"))
              {| o_type := Str (str "math"); o_difficulty := Str (str "easy");
                 o_locale := Str (str "en"); o_questions := Undefined |}
              Sample.world 1700000000000 (List.tl (World.clock Sample.world)))
    as (c & g' & w' & E & He & _).
  { reflexivity. }
  { vm_compute. reflexivity. }
  { reflexivity. }
  { vm_compute. lia. }
  { reflexivity. }
  { rewrite H0. set_solver. }
  exists c, g', w'. split; [exact E|].
  split; [rewrite He; reflexivity|].
  rewrite of_challenge_eq.
  apply (proj1 (C3_expiry_is_enforced_and_fixed Sample.locales) 1700000300001 _
           (expiry c) (Str (str "5"))); [reflexivity|].
  rewrite He. vm_compute. reflexivity.
Defined.

(** ** Where the code departs from the specification *)

(** C1 fails on the code. A math challenge issued by
    [new K9Guard({ type: 'math', difficulty: 'easy' })] is not verified by
    its own answer: the issuer commits to the answer with the digest of
    [src/utils/crypto.ts], the verifier recomputes it with Node's SHA-256.
    Nor is a sequence challenge of medium difficulty, whose answer is a
    letter that the verifier parses as a number. *)
Lemma C1_issued_answer_is_rejected :
  (exists c s',
      K9Guard.generate Sample.locales (Sample.guard (str "math") (str "easy"), Sample.world)
      = Ok c s'
      /\ type c = str "math" /\ question c = str "5 / 1" /\ answer c = Num (of_Z 5)
      /\ method_toString (answer c) = Returns (str "5")
      /\ K9Guard.validate 1700000000001 (K9Guard.of_challenge c) (Str (str "5"))
         = Returns false)
  /\ (exists c s',
        K9Guard.generate Sample.locales
          (Sample.guard (str "sequence") (str "medium"), Sample.world) = Ok c s'
        /\ question c = str "D, F, H, ?" /\ answer c = Str (str "J")
        /\ K9Guard.validate 1700000000001 (K9Guard.of_challenge c) (Str (str "J"))
           = Returns false).
Proof.
  split.
  - eexists. eexists. split; [vm_compute; reflexivity|].
    repeat split; vm_compute; reflexivity.
  - eexists. eexists. split; [vm_compute; reflexivity|].
    repeat split; vm_compute; reflexivity.
Qed.

(** C6 fails on the code. The reverse puzzle draws its word with
    [Math.random()]: two runs of [generate] that read the same secure bytes
    and the same clock, and differ only in what [Math.random()] returns,
    issue different challenges. *)
Lemma C6_reverse_word_is_not_from_the_secure_source :
  World.entropy Sample.world = World.entropy Sample.world_other_prng
  /\ World.clock Sample.world = World.clock Sample.world_other_prng
  /\ exists c1 s1 c2 s2,
       K9Guard.generate Sample.locales
         (Sample.guard (str "reverse") (str "easy"), Sample.world) = Ok c1 s1
       /\ K9Guard.generate Sample.locales
            (Sample.guard (str "reverse") (str "easy"), Sample.world_other_prng) = Ok c2 s2
       /\ question c1 = str "eci" /\ question c2 = str "llab"
       /\ nonce c1 = nonce c2 /\ salt c1 = salt c2.
Proof.
  split; [reflexivity|]. split; [reflexivity|].
  eexists. eexists. eexists. eexists.
  split; [vm_compute; reflexivity|]. split; [vm_compute; reflexivity|].
  repeat split; vm_compute; reflexivity.
Qed.

(** C10 fails on the code. The verification of a numeric kind does parse
    the input with [parseFloat] and compare the SHA-256 digest of the
    canonical string of the parsed number, followed by the salt, with the
    stored [hashedAnswer], NaN and the infinities being rejected. But an
    input that parses to the true answer is not verified: for the issued
    challenge [5 / 1], whose answer is 5, the inputs [5], [5abc] and [5.0]
    all parse to 5 and [verify] returns false for each, the stored digest
    being the one of [src/utils/crypto.ts]. *)
Theorem C10_parsed_answer_is_rejected :
  (forall (c : CaptchaChallenge) (userInput : jsstring),
      numeric_kind c -> 1 <= JSString.length userInput <= 1000 ->
      CaptchaValidator.validate c userInput
      = (if isNaN (parseFloat userInput) || negb (isFinite (parseFloat userInput))
         then false
         else JSString.eqb
                (NodeCrypto.sha256_hex (toString (parseFloat userInput) ++ salt c))
                (hashedAnswer c)))
  /\ exists c s',
       K9Guard.generate Sample.locales (Sample.guard (str "math") (str "easy"), Sample.world)
       = Ok c s'
       /\ type c = str "math" /\ question c = str "5 / 1" /\ answer c = Num (of_Z 5)
       /\ forall userInput, In userInput [str "5"; str "5abc"; str "5.0"] ->
            parseFloat userInput = of_Z 5
            /\ CaptchaValidator.validate c userInput = false
            /\ K9Guard.validate 1700000000001 (K9Guard.of_challenge c) (Str userInput)
               = Returns false.
Proof.
  split; [exact validate_numeric_spec|].
  eexists. eexists. split; [vm_compute; reflexivity|].
  split; [reflexivity|]. split; [reflexivity|]. split; [reflexivity|].
  intros userInput [<-|[<-|[<-|[]]]]; repeat split; vm_compute; reflexivity.
Qed.

Lemma C10_parsed_answer_is_rejected_witness :
  exists c s',
    K9Guard.generate Sample.locales (Sample.guard (str "math") (str "easy"), Sample.world)
    = Ok c s'
    /\ parseFloat (str "5abc") = of_Z 5
    /\ CaptchaValidator.validate c (str "5abc")
       = JSString.eqb (NodeCrypto.sha256_hex (str "5" ++ salt c)) (hashedAnswer c)
    /\ CaptchaValidator.validate c (str "5abc") = false.
Proof.
  destruct (proj2 C10_parsed_answer_is_rejected) as (c & s' & E & Ht & _ & _ & H).
  exists c, s'. split; [exact E|]. split; [vm_compute; reflexivity|]. split.
  - rewrite (proj1 C10_parsed_answer_is_rejected c (str "5abc")).
    + reflexivity.
    + left. exact Ht.
    + vm_compute. split; discriminate.
  - apply (H (str "5abc")). right. left. reflexivity.
Defined.

(** C7 as stated fails: a value that is set but not one the types list is
    kept, not replaced by the default, and [generate] then does not issue a
    math challenge. With [{ type: 'bogus', difficulty: 'extreme', locale:
    'fr' }] the options stay as given and a mixed challenge is issued; with
    [{ type: 'riddle', difficulty: 'easy', locale: 'fr' }] the construction
    succeeds and [generate] raises a TypeError. *)
Lemma C7_unlisted_values_are_kept :
  K9Guard.processOptions Sample.unlisted_options
  = Returns {| o_type := Str (str "bogus"); o_difficulty := Str (str "extreme");
               o_locale := Str (str "fr"); o_questions := Undefined |}
  /\ (exists k c s',
        K9Guard.constructor Sample.unlisted_options = Returns k
        /\ K9Guard.generate Sample.locales (k, Sample.world) = Ok c s'
        /\ type c = str "mixed")
  /\ (exists k s',
        K9Guard.constructor Sample.riddle_in_french = Returns k
        /\ K9Guard.generate Sample.locales (k, Sample.world) = Fail TypeError s').
Proof.
  split; [vm_compute; reflexivity|]. split.
  - eexists. eexists. eexists. split; [vm_compute; reflexivity|].
    split; [vm_compute; reflexivity|]. vm_compute. reflexivity.
  - eexists. eexists. split; [vm_compute; reflexivity|].
    vm_compute. reflexivity.
Qed.

(** ** The configuration boundary *)

Lemma or_else_spec (v : Value) (d : jsstring) :
  (truthy v = false -> K9Guard.or_else v d = Str d)
  /\ (truthy v = true -> K9Guard.or_else v d = v).
Proof. unfold K9Guard.or_else. destruct (truthy v); split; congruence. Qed.

(** What the constructor does with options whose kind is not ['custom']. *)
Lemma constructor_standard (options : Value) :
  is_str (prop options (str "type")) (str "custom") = false ->
  K9Guard.constructor options
  = Returns
      {| K9Guard.generator :=
           {| CaptchaGenerator.standardOptions :=
                Some {| o_type := K9Guard.or_else (prop options (str "type")) (str "math");
                        o_difficulty :=
                          K9Guard.or_else (prop options (str "difficulty")) (str "medium");
                        o_locale := K9Guard.or_else (prop options (str "locale")) (str "en");
                        o_questions := Undefined |};
              CaptchaGenerator.customOptions := None;
              CaptchaGenerator.customGenerator := None;
              CaptchaGenerator.usedNonces := ∅ |} |}.
Proof.
  intros Hc. unfold K9Guard.constructor.
  assert (Hg : forall o, o_questions o = Undefined ->
                 CaptchaGenerator.constructor o
                 = Returns {| CaptchaGenerator.standardOptions := Some o;
                              CaptchaGenerator.customOptions := None;
                              CaptchaGenerator.customGenerator := None;
                              CaptchaGenerator.usedNonces := ∅ |}).
  { intros o Hq. unfold CaptchaGenerator.constructor, CaptchaGenerator.isCustomOptions.
    rewrite Hq. cbn [isArray]. rewrite andb_false_r. reflexivity. }
  destruct options as [| |b|x|s|xs|props]; try reflexivity.
  unfold K9Guard.processOptions.
  change (typeof (Obj props)) with (str "object").
  change (JSString.eqb (str "object") (str "object")) with true.
  cbn [negb orb]. rewrite Hc. rewrite Hg by reflexivity. reflexivity.
Qed.

(** C7, as amended. Options whose kind is not ['custom'] never make the
    construction fail. Each of kind, difficulty and locale that is left
    unset, or set to a falsy value, gets its default (math, medium, en); one
    that is set to anything else is kept as given, listed or not. When the
    kind is defaulted, [generate] returns a math challenge whose answer is a
    number, provided the secure source still delivers 33 bytes and the clock
    a reading. *)
Theorem C7_unset_values_default (locales : Locale.Data) (options : Value) :
  is_str (prop options (str "type")) (str "custom") = false ->
  exists k o,
    K9Guard.constructor options = Returns k
    /\ CaptchaGenerator.standardOptions (K9Guard.generator k) = Some o
    /\ (forall field default get,
          In (field, default, get)
             [(str "type", str "math", o_type);
              (str "difficulty", str "medium", o_difficulty);
              (str "locale", str "en", o_locale)] ->
          (truthy (prop options field) = false -> get o = Str default)
          /\ (truthy (prop options field) = true -> get o = prop options field))
    /\ (truthy (prop options (str "type")) = false ->
        forall w now rest,
          (33 <= List.length (World.entropy w))%nat ->
          World.clock w = now :: rest ->
          exists c k' w',
            K9Guard.generate locales (k, w) = Ok c (k', w')
            /\ type c = str "math"
            /\ exists x, answer c = Num x /\ isNaN x = false).
Proof.
  intros Hc. rewrite (constructor_standard options Hc).
  eexists. eexists. split; [reflexivity|]. split; [reflexivity|]. split.
  - intros field default get Hin. cbn [In] in Hin.
    destruct Hin as [E|[E|[E|[]]]]; inversion E; subst; apply or_else_spec.
  - intros Hfalsy w now rest Hl Hclock.
    unfold K9Guard.generate. cbn [K9Guard.generator].
    erewrite generate_math; [|reflexivity|reflexivity|].
    2: { cbn [o_type]. rewrite (proj1 (or_else_spec _ _) Hfalsy). reflexivity. }
    match goal with
    | |- context [CaptchaGenerator.generateMath (?g, w)] =>
        destruct (generateMath_returns g w now rest Hl Hclock) as
          (c & g' & w' & E & Ht & Hx & _)
    end.
    { cbn [CaptchaGenerator.usedNonces]. set_solver. }
    rewrite E. exists c, {| K9Guard.generator := g' |}, w'.
    split; [reflexivity|]. split; [exact Ht|exact Hx].
Qed.

Lemma C7_unset_values_default_witness :
  exists k c s',
    K9Guard.constructor Sample.only_locale = Returns k
    /\ K9Guard.generate Sample.locales (k, Sample.world) = Ok c s'
    /\ type c = str "math"
    /\ CaptchaGenerator.getLocale (K9Guard.generator k) = Str (str "tr")
    /\ CaptchaGenerator.getDifficulty (K9Guard.generator k) = Str (str "medium").
Proof.
  destruct (C7_unset_values_default Sample.locales Sample.only_locale eq_refl)
    as (k & o & Hk & Ho & Hfields & Hgen).
  destruct (Hgen eq_refl Sample.world 1700000000000
              [1700000000001; 1700000000002; 1700000000003; 1700000000004;
               1700000000005; 1700000000006; 1700000000007])
    as (c & k' & w' & E & Ht & _).
  - apply Nat.leb_le. vm_compute. reflexivity.
  - reflexivity.
  - exists k, c, (k', w'). split; [exact Hk|]. split; [exact E|]. split; [exact Ht|].
    unfold CaptchaGenerator.getLocale, CaptchaGenerator.getDifficulty. rewrite Ho.
    destruct (Hfields (str "locale") (str "en") o_locale ltac:(cbn; tauto)) as [_ Hloc].
    destruct (Hfields (str "difficulty") (str "medium") o_difficulty ltac:(cbn; tauto))
      as [Hdiff _].
    rewrite (Hloc eq_refl), (Hdiff eq_refl). split; reflexivity.
Defined.

(** * Further properties of the code *)

(** ** src/utils/crypto.ts: the byte source, the buffer, the digest *)

Lemma lor_shiftl_add (a b n : Z) :
  0 <= n -> 0 <= a < 2 ^ n -> 0 <= b -> Z.lor a (Z.shiftl b n) = a + b * 2 ^ n.
Proof.
  intros Hn Ha Hb.
  rewrite <- (Z.shiftl_mul_pow2 b n Hn).
  rewrite <- Z.lxor_lor.
  - symmetry. apply Z.add_nocarry_lxor.
    apply Z.bits_inj'. intros k Hk. rewrite Z.land_spec, Z.bits_0.
    destruct (Z.lt_ge_cases k n) as [Hlt|Hge].
    + rewrite (Z.shiftl_spec_low b n k Hlt). apply andb_false_r.
    + destruct (Z.eq_dec a 0) as [->|Hne]; [rewrite Z.bits_0; reflexivity|].
      rewrite (Z.bits_above_log2 a k); [reflexivity|lia|].
      assert (Z.log2 a < n) by (apply Z.log2_lt_pow2; lia). lia.
  - apply Z.bits_inj'. intros k Hk. rewrite Z.land_spec, Z.bits_0.
    destruct (Z.lt_ge_cases k n) as [Hlt|Hge].
    + rewrite (Z.shiftl_spec_low b n k Hlt). apply andb_false_r.
    + destruct (Z.eq_dec a 0) as [->|Hne]; [rewrite Z.bits_0; reflexivity|].
      rewrite (Z.bits_above_log2 a k); [reflexivity|lia|].
      assert (Z.log2 a < n) by (apply Z.log2_lt_pow2; lia). lia.
Qed.

(** [randomBytes(size)] raises a RangeError, taking nothing from the source,
    when [size] is below 1 or above 65536. *)
Theorem randomBytes_rejects_size (size : Z) (w : World.t) :
  size <= 0 \/ 65536 < size ->
  CryptoUtils.randomBytes size w
  = Fail (RangeError (str "Size must be between 1 and 65536")) w.
Proof.
  intros H. unfold CryptoUtils.randomBytes.
  destruct (size <=? 0) eqn:E1; [reflexivity|].
  destruct (size >? 65536) eqn:E2; [reflexivity|].
  apply Z.leb_gt in E1. rewrite Z.gtb_ltb in E2. apply Z.ltb_ge in E2. lia.
Qed.

Lemma randomBytes_rejects_size_witness :
  CryptoUtils.randomBytes 0 Sample.world
  = Fail (RangeError (str "Size must be between 1 and 65536")) Sample.world
  /\ CryptoUtils.randomBytes 65537 Sample.world
     = Fail (RangeError (str "Size must be between 1 and 65536")) Sample.world.
Proof.
  split; apply randomBytes_rejects_size; lia.
Defined.

Lemma randomBytes_Ok (size : Z) (w : World.t) :
  1 <= size <= 65536 ->
  (forall e w', CryptoUtils.randomBytes size w <> Fail e w')
  /\ (forall bytes w',
        CryptoUtils.randomBytes size w = Ok bytes w' ->
        Z.of_nat (List.length bytes) = size
        /\ World.entropy w = bytes ++ World.entropy w'
        /\ World.prng w' = World.prng w /\ World.clock w' = World.clock w).
Proof.
  intros Hs. unfold CryptoUtils.randomBytes.
  replace (size <=? 0) with false by (symmetry; apply Z.leb_gt; lia).
  replace (size >? 65536) with false by (symmetry; rewrite Z.gtb_ltb; apply Z.ltb_ge; lia).
  cbn [orb]. unfold World.getRandomValues.
  destruct (_ <? _)%nat eqn:E; [split; intros; discriminate|].
  apply Nat.ltb_ge in E. split; [intros; discriminate|].
  intros bytes w' H. inversion H; subst. cbn [World.entropy World.prng World.clock].
  rewrite List.length_firstn, List.firstn_skipn. repeat split. lia.
Qed.



Lemma readUInt32LE_value (buffer : list Z) (offset : Z) :
  Forall is_byte buffer ->
  match CryptoBuffer.readUInt32LE buffer offset with
  | Throws e =>
      (offset < 0 \/ Z.of_nat (List.length buffer) < offset + 4)
      /\ e = RangeError (str "Offset out of bounds")
  | Returns u =>
      0 <= offset /\ offset + 4 <= Z.of_nat (List.length buffer)
      /\ u = nth (Z.to_nat offset) buffer 0
             + 256 * nth (Z.to_nat offset + 1) buffer 0
             + 65536 * nth (Z.to_nat offset + 2) buffer 0
             + 16777216 * nth (Z.to_nat offset + 3) buffer 0
      /\ 0 <= u < 4294967296
  end.
Proof.
  intros Hb. unfold CryptoBuffer.readUInt32LE, JSString.length.
  destruct (offset <? 0) eqn:E1.
  { apply Z.ltb_lt in E1. cbn [orb]. split; [lia|reflexivity]. }
  destruct (offset + 4 >? Z.of_nat (List.length buffer)) eqn:E2.
  { rewrite Z.gtb_ltb in E2. apply Z.ltb_lt in E2. cbn [orb]. split; [lia|reflexivity]. }
  cbn [orb]. apply Z.ltb_ge in E1. rewrite Z.gtb_ltb in E2. apply Z.ltb_ge in E2.
  assert (Hget : forall k, 0 <= k < 4 ->
            buffer !! Z.to_nat (offset + k) = Some (nth (Z.to_nat offset + Z.to_nat k) buffer 0)
            /\ is_byte (nth (Z.to_nat offset + Z.to_nat k) buffer 0)).
  { intros k Hk.
    assert (Hlt : (Z.to_nat offset + Z.to_nat k < List.length buffer)%nat) by lia.
    replace (Z.to_nat (offset + k)) with (Z.to_nat offset + Z.to_nat k)%nat by lia.
    split.
    - destruct (lookup_lt_is_Some_2 buffer _ Hlt) as [x Hx]. rewrite Hx. f_equal.
      symmetry. apply nth_lookup_Some with (d := 0) in Hx. exact Hx.
    - rewrite List.Forall_forall in Hb. apply Hb. apply nth_In. exact Hlt. }
  destruct (Hget 0 ltac:(lia)) as [G0 B0]. destruct (Hget 1 ltac:(lia)) as [G1 B1].
  destruct (Hget 2 ltac:(lia)) as [G2 B2]. destruct (Hget 3 ltac:(lia)) as [G3 B3].
  rewrite Z.add_0_r in G0. rewrite G0, G1, G2, G3.
  change (Z.to_nat 0) with 0%nat in *. change (Z.to_nat 1) with 1%nat in *.
  change (Z.to_nat 2) with 2%nat in *. change (Z.to_nat 3) with 3%nat in *.
  rewrite Nat.add_0_r in *.
  set (b0 := nth (Z.to_nat offset) buffer 0) in *.
  set (b1 := nth (Z.to_nat offset + 1) buffer 0) in *.
  set (b2 := nth (Z.to_nat offset + 2) buffer 0) in *.
  set (b3 := nth (Z.to_nat offset + 3) buffer 0) in *.
  unfold is_byte in *.
  rewrite (lor_shiftl_add b0 b1 8) by lia.
  rewrite (lor_shiftl_add (b0 + b1 * 2 ^ 8) b2 16) by lia.
  rewrite (lor_shiftl_add (b0 + b1 * 2 ^ 8 + b2 * 2 ^ 16) b3 24) by lia.
  rewrite Z.mod_small by lia.
  repeat split; lia.
Qed.



Section DigestFormat.

Import CryptoHash.

Lemma u8_store_inv (i : nat) (v : Z) (a : list Z) :
  Forall is_byte a ->
  Forall is_byte (u8_store i v a) /\ List.length (u8_store i v a) = List.length a.
Proof.
  intros Ha. unfold u8_store. split; [|apply length_insert].
  destruct (decide (i < List.length a)%nat) as [Hi|Hi].
  - rewrite insert_take_drop by exact Hi.
    apply Forall_app. split; [apply Forall_take; exact Ha|].
    constructor; [apply Z.mod_pos_bound; lia|apply Forall_drop; exact Ha].
  - rewrite list_insert_ge by lia. exact Ha.
Qed.

Lemma absorb_inv (data acc : list Z) (i : nat) :
  Forall is_byte acc ->
  Forall is_byte (absorb data acc i) /\ List.length (absorb data acc i) = List.length acc.
Proof.
  intros Ha. unfold absorb. destruct (data !! i) as [z|]; [|tauto].
  destruct (acc !! (i mod 32)%nat) as [v1|], (acc !! (i * 7 mod 32)%nat) as [v2|].
  - destruct (u8_store_inv (i mod 32) (Z.lxor v1 z) acc Ha) as [H1 L1].
    destruct (u8_store_inv (i * 7 mod 32) (Z.land ((v2 + z) * 31) 255) _ H1) as [H2 L2].
    split; [exact H2|congruence].
  - apply u8_store_inv. exact Ha.
  - apply u8_store_inv. exact Ha.
  - tauto.
Qed.

Lemma mix_inv (round : nat) (acc : list Z) (i : nat) :
  Forall is_byte acc ->
  Forall is_byte (mix round acc i) /\ List.length (mix round acc i) = List.length acc.
Proof.
  intros Ha. unfold mix.
  destruct (acc !! ((i + 31) mod 32)%nat), (acc !! i), (acc !! ((i + 1) mod 32)%nat);
    try tauto.
  apply u8_store_inv. exact Ha.
Qed.

Lemma fold_left_inv {B : Type} (f : list Z -> B -> list Z) (l : list B) (acc : list Z) :
  (forall a b, Forall is_byte a ->
     Forall is_byte (f a b) /\ List.length (f a b) = List.length a) ->
  Forall is_byte acc ->
  Forall is_byte (fold_left f l acc)
  /\ List.length (fold_left f l acc) = List.length acc.
Proof.
  intros Hf. revert acc. induction l as [|b l IH]; intros acc Ha; cbn [fold_left].
  - tauto.
  - destruct (Hf acc b Ha) as [H1 H2]. destruct (IH _ H1) as [H3 H4].
    split; [exact H3|congruence].
Qed.

Lemma computeHashSync_bytes (data : list Z) :
  Forall is_byte (computeHashSync data) /\ List.length (computeHashSync data) = 32%nat.
Proof.
  unfold computeHashSync.
  destruct (fold_left_inv (absorb data) (seq 0 (List.length data)) zeroes32
              (absorb_inv data) (proj2 zeroes32_inv)) as [H1 H2].
  destruct (fold_left_inv diffuse (seq 0 16) _
              (fun a r Ha => fold_left_inv (mix r) (seq 0 32) a
                               (fun a' i => mix_inv r a' i) Ha) H1) as [H3 H4].
  split; [exact H3|]. rewrite H4, H2. reflexivity.
Qed.

Lemma hex_length (bytes : list Z) :
  List.length (hex bytes) = (2 * List.length bytes)%nat.
Proof.
  unfold hex. induction bytes as [|b bytes IH]; [reflexivity|].
  cbn [map concat]. rewrite length_app, IH. cbn [hex_byte List.length]. lia.
Qed.

Lemma hex_digit_lower (d : Z) : 0 <= d < 16 -> is_lower_hex (hex_digit d) = true.
Proof.
  intros Hd. unfold hex_digit, is_lower_hex.
  destruct (d <? 10) eqn:E; [apply Z.ltb_lt in E|apply Z.ltb_ge in E].
  - apply orb_true_iff. left. apply andb_true_iff. split; apply Z.leb_le; lia.
  - apply orb_true_iff. right. apply andb_true_iff. split; apply Z.leb_le; lia.
Qed.

Lemma hex_lower (bytes : list Z) :
  Forall is_byte bytes -> forallb is_lower_hex (hex bytes) = true.
Proof.
  unfold hex. induction 1 as [|b bytes Hb _ IH]; [reflexivity|].
  cbn [map concat hex_byte app forallb]. rewrite IH.
  unfold is_byte in Hb.
  rewrite !hex_digit_lower; [reflexivity| |].
  - apply Z.mod_pos_bound. lia.
  - split; [apply Z.div_pos; lia|apply Z.div_lt_upper_bound; lia].
Qed.

End DigestFormat.

(** Whatever was given to [update], [digest('hex')] is a string of 64
    characters, each of [0-9a-f]: the two lower-case hexadecimal digits of
    each of 32 bytes. *)
Theorem digest_hex_is_64_lower_hex (h : CryptoHash.t) :
  List.length (CryptoHash.digest_hex h) = 64%nat
  /\ forallb is_lower_hex (CryptoHash.digest_hex h) = true.
Proof.
  unfold CryptoHash.digest_hex, CryptoHash.digest_bytes.
  destruct (computeHashSync_bytes (CryptoHash.getCombinedData h)) as [Hb Hl].
  split; [rewrite hex_length, Hl; reflexivity|apply hex_lower; exact Hb].
Qed.

(** ** src/utils/random.ts *)

(** [getRandomNumber] returns whenever four bytes are left in the source,
    takes exactly those four, and its result is a finite number that is at
    least 1 (and below 2^15): zero, a negative number, NaN and Infinity are
    never drawn, whatever the difficulty. *)
Theorem getRandomNumber_is_at_least_one (difficulty : Value) (w : World.t) :
  (4 <= List.length (World.entropy w))%nat ->
  exists x,
    Random.getRandomNumber difficulty w = Ok x (consumed 4 w)
    /\ finite_within false 1 15 x
    /\ isNaN x = false /\ strict_eq x (of_Z 0) = false /\ gtb x (of_Z 0) = true.
Proof.
  intros Hl. unfold Random.getRandomNumber.
  rewrite (bind_step _ _ _ _ _ (randomBytes_enough 4 w ltac:(lia) ltac:(lia))).
  destruct (readUInt32LE_range (firstn (Z.to_nat 4) (World.entropy w))) as (u & Hu & Hr).
  { rewrite List.length_firstn. lia. }
  rewrite Hu. cbn [of_outcome]. unfold bind at 1. unfold ret at 1.
  change (Z.to_nat 4) with 4%nat.
  assert (Hx : forall k, 0 < k <= 100 ->
            let x := add (Number.floor (mul (Random.unit_interval u) (of_Z k))) (of_Z 1) in
            finite_within false 1 15 x
            /\ isNaN x = false /\ strict_eq x (of_Z 0) = false /\ gtb x (of_Z 0) = true).
  { intros k Hk x. pose proof (scaled_draw_small u k Hr Hk) as F. fold x in F.
    split; [exact F|]. destruct F as (m & e & -> & _). repeat split; reflexivity. }
  destruct (is_str difficulty (str "easy")); [|destruct (is_str difficulty (str "medium"))];
    (eexists; split; [reflexivity|apply Hx; lia]).
Qed.

Lemma getRandomNumber_is_at_least_one_witness :
  exists x,
    Random.getRandomNumber (Str (str "hard")) Sample.world = Ok x (consumed 4 Sample.world)
    /\ isNaN x = false /\ gtb x (of_Z 0) = true.
Proof.
  destruct (getRandomNumber_is_at_least_one (Str (str "hard")) Sample.world)
    as (x & E & _ & Hn & _ & Hg).
  - apply Nat.leb_le. vm_compute. reflexivity.
  - exists x. split; [exact E|]. split; [exact Hn|exact Hg].
Defined.

(** The largest reading of the source, four bytes 255, makes
    [getRandomNumber] return one more than the upper end of its range: 11
    for easy, 51 for medium, 101 otherwise. *)
Theorem getRandomNumber_maximum_reading (rest : list Z) (p : list number) (c : list Z) :
  let w := {| World.entropy := 255 :: 255 :: 255 :: 255 :: rest;
              World.prng := p; World.clock := c |} in
  let w' := {| World.entropy := rest; World.prng := p; World.clock := c |} in
  Random.getRandomNumber (Str (str "easy")) w = Ok (of_Z 11) w'
  /\ Random.getRandomNumber (Str (str "medium")) w = Ok (of_Z 51) w'
  /\ Random.getRandomNumber (Str (str "hard")) w = Ok (of_Z 101) w'.
Proof.
  cbv zeta. repeat split; vm_compute; reflexivity.
Qed.

Section RandomStrings.

Lemma charAt_chars (b : Z) :
  exists c, Random.charAt Random.chars (b mod 62) = [c] /\ is_alnum c = true.
Proof.
  pose proof (Z.mod_pos_bound b 62 ltac:(lia)) as Hb.
  unfold Random.charAt.
  assert (Hlt : (Z.to_nat (b mod 62) < List.length Random.chars)%nat).
  { change (List.length Random.chars) with 62%nat. lia. }
  destruct (Random.chars !! Z.to_nat (b mod 62)) as [c|] eqn:Hc.
  - exists c. split; [reflexivity|].
    assert (Hall : forallb is_alnum Random.chars = true) by (vm_compute; reflexivity).
    rewrite forallb_forall in Hall. apply Hall.
    apply list_elem_of_In. eapply list_elem_of_lookup_2. exact Hc.
  - apply lookup_ge_None in Hc. lia.
Qed.

Lemma drawn_chars (buffer : list Z) :
  let s := concat (map (fun b => Random.charAt Random.chars (b mod 62)) buffer) in
  List.length s = List.length buffer /\ forallb is_alnum s = true.
Proof.
  induction buffer as [|b buffer [IH1 IH2]]; [split; reflexivity|].
  cbn [map concat]. destruct (charAt_chars b) as (c & -> & Hc).
  cbn [app List.length forallb]. rewrite Hc. split; [f_equal; exact IH1|exact IH2].
Qed.

Lemma alnum_valid (c : Z) : is_alnum c = true -> CaptchaValidator.valid_char c = true.
Proof.
  unfold is_alnum, CaptchaValidator.valid_char. intros H.
  apply orb_true_iff in H. destruct H as [H|H]; [apply orb_true_iff in H; destruct H as [H|H]|];
    rewrite H; repeat rewrite ?orb_true_r, ?orb_true_l; reflexivity.
Qed.

Lemma alnum_not_space (c : Z) : is_alnum c = true -> is_space c = false.
Proof.
  unfold is_alnum, is_space, is_digit. intros H.
  repeat match goal with
         | H : (_ || _) = true |- _ => apply orb_true_iff in H; destruct H as [H|H]
         | H : (_ && _) = true |- _ => apply andb_true_iff in H; destruct H as [? ?]
         | H : (_ <=? _) = true |- _ => apply Z.leb_le in H
         end;
    repeat match goal with
           | |- (_ || _) = false => apply orb_false_iff; split
           | |- (_ && _) = false => apply andb_false_iff
           end;
    try (apply Z.eqb_neq; lia);
    try (right; apply Z.leb_gt; lia); try (left; apply Z.leb_gt; lia).
Qed.

Lemma trimStart_id (s : jsstring) :
  match s with c :: _ => is_space c = false | [] => True end -> trimStart s = s.
Proof. destruct s as [|c s]; [reflexivity|]. cbn [trimStart]. intros ->. reflexivity. Qed.

Lemma trim_alnum (s : jsstring) : forallb is_alnum s = true -> trim s = s.
Proof.
  intros H. unfold trim, trimEnd.
  assert (Hs : forall t, forallb is_alnum t = true -> trimStart t = t).
  { intros t Ht. apply trimStart_id. destruct t as [|c t]; [exact I|].
    cbn [forallb] in Ht. apply andb_true_iff in Ht. apply alnum_not_space. tauto. }
  rewrite (Hs s H). rewrite (Hs (rev s)).
  - apply rev_involutive.
  - rewrite forallb_forall in *. intros x Hx. apply H. apply in_rev. exact Hx.
Qed.

End RandomStrings.

(** The string of a text challenge: [generateRandomString] returns 4, 6 or
    8 characters (easy, medium, any other difficulty), one per byte taken
    from the source, each of [A-Za-z0-9]; such a string passes the
    character check of the verifier and is left as it is by [trim]. *)
Theorem generateRandomString_is_alphanumeric (difficulty : Value) (w w' : World.t)
    (text : jsstring) :
  Random.generateRandomString difficulty w = Ok text w' ->
  Z.of_nat (List.length text)
  = (if is_str difficulty (str "easy") then 4
     else if is_str difficulty (str "medium") then 6 else 8)
  /\ forallb is_alnum text = true
  /\ CaptchaValidator.VALID_CHAR_REGEX_test text = true
  /\ trim text = text
  /\ World.entropy w = firstn (List.length text) (World.entropy w) ++ World.entropy w'.
Proof.
  unfold Random.generateRandomString. intros H.
  apply bind_Ok in H. destruct H as (buffer & w1 & Hb & H).
  apply ret_Ok in H. destruct H as [-> ->].
  set (n := if is_str difficulty (str "easy") then 4
            else if is_str difficulty (str "medium") then 6 else 8) in *.
  assert (Hn : 1 <= n <= 65536)
    by (unfold n; destruct (is_str _ _); [|destruct (is_str _ _)]; lia).
  destruct (proj2 (randomBytes_Ok n w Hn) _ _ Hb) as (Hl & He & _).
  destruct (drawn_chars buffer) as [L A]. cbv zeta in L, A.
  split; [rewrite L; exact Hl|]. split; [exact A|]. split.
  - unfold CaptchaValidator.VALID_CHAR_REGEX_test. rewrite forallb_forall in *.
    intros c Hc. apply alnum_valid. apply A. exact Hc.
  - split; [apply trim_alnum; exact A|].
    rewrite L. rewrite He at 1 2. rewrite List.firstn_app, Nat.sub_diag, List.firstn_all.
    cbn [firstn]. rewrite app_nil_r. reflexivity.
Qed.

Lemma generateRandomString_is_alphanumeric_witness :
  exists text w',
    Random.generateRandomString (Str (str "medium")) Sample.world = Ok text w'
    /\ Z.of_nat (List.length text) = 6
    /\ CaptchaValidator.VALID_CHAR_REGEX_test text = true.
Proof.
  eexists. eexists. split; [vm_compute; reflexivity|].
  destruct (generateRandomString_is_alphanumeric (Str (str "medium")) Sample.world _ _ eq_refl)
    as (Hl & _ & Hv & _).
  split; [exact Hl|exact Hv].
Defined.

(** [generateNonce] and [generateSalt] take 16 and 8 bytes of the source
    and return their lower-case hexadecimal spelling: 32 and 16 characters
    of [0-9a-f]. *)
Theorem nonce_and_salt_are_hex (w w' : World.t) (s : jsstring) :
  Forall is_byte (World.entropy w) ->
  (Random.generateNonce w = Ok s w' ->
   s = hex (firstn 16 (World.entropy w)) /\ List.length s = 32%nat
   /\ forallb is_lower_hex s = true /\ w' = consumed 16 w)
  /\ (Random.generateSalt w = Ok s w' ->
      s = hex (firstn 8 (World.entropy w)) /\ List.length s = 16%nat
      /\ forallb is_lower_hex s = true /\ w' = consumed 8 w).
Proof.
  intros Hbytes.
  assert (Hgen : forall n : Z, 1 <= n <= 65536 ->
            forall buffer w1, CryptoUtils.randomBytes n w = Ok buffer w1 ->
            buffer = firstn (Z.to_nat n) (World.entropy w)
            /\ List.length (hex buffer) = (2 * Z.to_nat n)%nat
            /\ forallb is_lower_hex (hex buffer) = true
            /\ w1 = consumed (Z.to_nat n) w).
  { intros n Hn buffer w1 H.
    destruct (proj2 (randomBytes_Ok n w Hn) _ _ H) as (Hl & He & _).
    assert (Hle : (Z.to_nat n <= List.length (World.entropy w))%nat).
    { rewrite He, length_app. lia. }
    rewrite (randomBytes_enough n w Hn Hle) in H. inversion H; subst.
    split; [reflexivity|]. split; [rewrite hex_length, List.length_firstn; lia|].
    split; [|reflexivity]. apply hex_lower. apply Forall_take. exact Hbytes. }
  split; intros H.
  - unfold Random.generateNonce in H. apply bind_Ok in H. destruct H as (b & w1 & Hb & H).
    apply ret_Ok in H. destruct H as [-> ->].
    destruct (Hgen 16 ltac:(lia) _ _ Hb) as (-> & Hl & Hh & ->).
    repeat split; try assumption.
  - unfold Random.generateSalt in H. apply bind_Ok in H. destruct H as (b & w1 & Hb & H).
    apply ret_Ok in H. destruct H as [-> ->].
    destruct (Hgen 8 ltac:(lia) _ _ Hb) as (-> & Hl & Hh & ->).
    repeat split; try assumption.
Qed.

Lemma nonce_and_salt_are_hex_witness :
  exists s w',
    Random.generateNonce Sample.world = Ok s w'
    /\ List.length s = 32%nat /\ forallb is_lower_hex s = true.
Proof.
  eexists. eexists. split; [vm_compute; reflexivity|].
  assert (Hb : Forall is_byte (World.entropy Sample.world)).
  { apply List.Forall_forall. intros x Hx. unfold Sample.world, World.entropy, Sample.bytes in Hx.
    apply in_map_iff in Hx. destruct Hx as (k & <- & _). apply Z.mod_pos_bound. lia. }
  destruct (proj1 (nonce_and_salt_are_hex Sample.world _ _ Hb) eq_refl) as (_ & Hl & Hh & _).
  split; [exact Hl|exact Hh].
Defined.

(** ** The puzzle providers *)

Section Draw32.

(** The common opening of the providers: four bytes, read as a number. *)
Lemma draw32_step {A : Type} (k : Z -> M World.t A) (w : World.t) :
  (4 <= List.length (World.entropy w))%nat ->
  exists u,
    CryptoBuffer.readUInt32LE (firstn 4 (World.entropy w)) 0 = Returns u
    /\ 0 <= u < 4294967296
    /\ bind (CryptoUtils.randomBytes 4)
            (fun buffer => bind (of_outcome (CryptoBuffer.readUInt32LE buffer 0)) k) w
       = k u (consumed 4 w).
Proof.
  intros Hl.
  destruct (readUInt32LE_range (firstn 4 (World.entropy w))) as (u & Hu & Hr).
  { rewrite List.length_firstn. lia. }
  exists u. split; [exact Hu|]. split; [exact Hr|].
  rewrite (bind_step _ _ _ _ _ (randomBytes_enough 4 w ltac:(lia) ltac:(lia))).
  change (Z.to_nat 4) with 4%nat. rewrite Hu. reflexivity.
Qed.

Lemma draw32_starved {A : Type} (k : Z -> M World.t A) (w : World.t) :
  (List.length (World.entropy w) < 4)%nat ->
  bind (CryptoUtils.randomBytes 4)
       (fun buffer => bind (of_outcome (CryptoBuffer.readUInt32LE buffer 0)) k) w
  = Starved.
Proof.
  intros Hl. unfold bind, CryptoUtils.randomBytes, World.getRandomValues.
  cbn [Z.leb Z.gtb Z.compare Pos.compare Pos.compare_cont orb].
  change (Z.to_nat 4) with 4%nat.
  replace (_ <? 4)%nat with true by (symmetry; apply Nat.ltb_lt; exact Hl).
  reflexivity.
Qed.

Lemma draw32_Ok {A : Type} (k : Z -> M World.t A) (w w' : World.t) (a : A) :
  bind (CryptoUtils.randomBytes 4)
       (fun buffer => bind (of_outcome (CryptoBuffer.readUInt32LE buffer 0)) k) w
  = Ok a w' ->
  (4 <= List.length (World.entropy w))%nat
  /\ exists u,
       CryptoBuffer.readUInt32LE (firstn 4 (World.entropy w)) 0 = Returns u
       /\ 0 <= u < 4294967296
       /\ k u (consumed 4 w) = Ok a w'.
Proof.
  intros H. destruct (Nat.lt_ge_cases (List.length (World.entropy w)) 4) as [Hlt|Hge].
  - rewrite (draw32_starved k w Hlt) in H. discriminate.
  - split; [exact Hge|]. destruct (draw32_step k w Hge) as (u & Hu & Hr & E).
    exists u. rewrite E in H. tauto.
Qed.

(** The reading has its top bit set when the fourth byte is 128 or more. *)
Lemma top_bit (entropy : list Z) (u : Z) :
  Forall is_byte entropy -> (4 <= List.length entropy)%nat ->
  CryptoBuffer.readUInt32LE (firstn 4 entropy) 0 = Returns u ->
  (nth 3 entropy 0 < 128 -> u < 2147483648)
  /\ (128 <= nth 3 entropy 0 -> 2147483648 <= u).
Proof.
  intros Hb Hl Hu.
  destruct entropy as [|b0 [|b1 [|b2 [|b3 rest]]]]; cbn [List.length] in Hl; try lia.
  change (firstn 4 (b0 :: b1 :: b2 :: b3 :: rest)) with [b0; b1; b2; b3] in Hu.
  assert (Hb4 : is_byte b0 /\ is_byte b1 /\ is_byte b2 /\ is_byte b3).
  { rewrite !Forall_cons in Hb. tauto. }
  destruct Hb4 as (B0 & B1 & B2 & B3).
  assert (HB : Forall is_byte [b0; b1; b2; b3])
    by (repeat (apply List.Forall_cons; [assumption|]); apply List.Forall_nil).
  pose proof (readUInt32LE_value [b0; b1; b2; b3] 0 HB) as H.
  rewrite Hu in H. destruct H as (_ & _ & -> & _).
  change (Z.to_nat 0) with 0%nat. cbn [nth Nat.add].
  unfold is_byte in *. lia.
Qed.

End Draw32.

(** *** src/utils/sequenceGenerator.ts *)

(** A medium sequence is made of letters: its start is one of A, B, C, D,
    it advances by two letters, and its answer is the letter G, H, I or J
    that follows. The answer ['?'] that the code provides for a sequence
    running past J is never given. *)
Theorem sequence_medium_answer_is_a_letter (w w' : World.t) (p : Puzzle) :
  SequenceGenerator.generate (Str (str "medium")) w = Ok p w' ->
  w' = consumed 4 w
  /\ exists start : Z,
       0 <= start <= 3
       /\ p_question p
          = SequenceGenerator.letter start ++ str ", "
            ++ SequenceGenerator.letter (start + 2) ++ str ", "
            ++ SequenceGenerator.letter (start + 4) ++ str ", ?"
       /\ p_answer p = Str (SequenceGenerator.letter (start + 6))
       /\ In (SequenceGenerator.letter (start + 6)) [str "G"; str "H"; str "I"; str "J"]
       /\ p_answer p <> Str (str "?").
Proof.
  unfold SequenceGenerator.generate.
  change (is_str (Str (str "medium")) (str "easy")) with false.
  change (is_str (Str (str "medium")) (str "medium")) with true. cbv iota.
  intros H. apply draw32_Ok in H. destruct H as (_ & u & _ & Hr & H).
  pose proof (Z.rem_bound_pos u 4 ltac:(lia) ltac:(lia)) as Hs.
  assert (Hcase : Z.rem u 4 = 0 \/ Z.rem u 4 = 1 \/ Z.rem u 4 = 2 \/ Z.rem u 4 = 3) by lia.
  destruct Hcase as [E|[E|[E|E]]]; rewrite E in H; cbn in H;
    inversion H; subst; (split; [reflexivity|]);
    [exists 0|exists 1|exists 2|exists 3];
    (split; [lia|]); (split; [reflexivity|]); (split; [reflexivity|]);
    (split; [cbn; tauto|discriminate]).
Qed.

Lemma sequence_medium_answer_is_a_letter_witness :
  exists p w',
    SequenceGenerator.generate (Str (str "medium")) Sample.world = Ok p w'
    /\ p_answer p <> Str (str "?").
Proof.
  destruct (SequenceGenerator.generate (Str (str "medium")) Sample.world)
    as [p w'|e w'|] eqn:E; [|vm_compute in E; discriminate|vm_compute in E; discriminate].
  exists p, w'. split; [reflexivity|].
  destruct (sequence_medium_answer_is_a_letter Sample.world w' p E)
    as (_ & start & _ & _ & _ & _ & Hne).
  exact Hne.
Defined.

(** An easy sequence starts at 1 to 5 and its answer is the start plus
    three steps. The step is 1, 2 or 3 only while the reading of the source
    is below 2^31 (fourth byte under 128); for the other half of the
    readings [>>] works on a negative number and the step is -1, 0 or 1: a
    constant or a descending sequence. *)
Theorem sequence_easy_step_follows_top_bit (w w' : World.t) (p : Puzzle) :
  Forall is_byte (World.entropy w) ->
  SequenceGenerator.generate (Str (str "easy")) w = Ok p w' ->
  exists start step : Z,
    1 <= start <= 5
    /\ p_question p
       = SequenceGenerator.join
           (map (fun k => Number.toString (of_Z k))
                [start; start + step; start + 2 * step]) ++ str ", ?"
    /\ p_answer p = Num (of_Z (start + 3 * step))
    /\ (nth 3 (World.entropy w) 0 < 128 -> 1 <= step <= 3)
    /\ (128 <= nth 3 (World.entropy w) 0 -> -1 <= step <= 1).
Proof.
  intros Hb. unfold SequenceGenerator.generate.
  change (is_str (Str (str "easy")) (str "easy")) with true. cbv iota.
  intros H. apply draw32_Ok in H. destruct H as (Hl & u & Hu & Hr & H).
  apply ret_Ok in H. destruct H as [-> _].
  destruct (top_bit _ u Hb Hl Hu) as [Hlow Hhigh].
  exists (Z.rem u 5 + 1), (Z.rem (SequenceGenerator.sar8 u) 3 + 1).
  pose proof (Z.rem_bound_pos u 5 ltac:(lia) ltac:(lia)).
  split; [lia|]. split; [reflexivity|]. split; [reflexivity|].
  unfold SequenceGenerator.sar8. split; intros Hbyte.
  - specialize (Hlow Hbyte).
    replace (u >=? 2147483648) with false by (symmetry; rewrite Z.geb_leb; apply Z.leb_gt; lia).
    rewrite Z.shiftr_div_pow2 by lia.
    pose proof (Z.div_pos u (2 ^ 8) ltac:(lia) ltac:(lia)).
    pose proof (Z.rem_bound_pos (u / 2 ^ 8) 3 ltac:(lia) ltac:(lia)). lia.
  - specialize (Hhigh Hbyte).
    replace (u >=? 2147483648) with true by (symmetry; rewrite Z.geb_leb; apply Z.leb_le; lia).
    rewrite Z.shiftr_div_pow2 by lia.
    assert ((u - 4294967296) / 2 ^ 8 < 0) by (apply Z.div_lt_upper_bound; lia).
    pose proof (Z.rem_bound_abs ((u - 4294967296) / 2 ^ 8) 3 ltac:(lia)).
    pose proof (Z.rem_nonpos ((u - 4294967296) / 2 ^ 8) 3 ltac:(lia) ltac:(lia)). lia.
Qed.

Lemma sequence_easy_step_follows_top_bit_witness :
  exists p w',
    SequenceGenerator.generate (Str (str "easy"))
      {| World.entropy := [0; 0; 0; 128]; World.prng := []; World.clock := [] |} = Ok p w'
    /\ p_question p = str "4, 3, 2, ?" /\ p_answer p = Num (of_Z 1).
Proof.
  eexists. eexists. split; [vm_compute; reflexivity|].
  assert (Hb : Forall is_byte [0; 0; 0; 128]) by (repeat constructor; unfold is_byte; lia).
  destruct (sequence_easy_step_follows_top_bit
              {| World.entropy := [0; 0; 0; 128]; World.prng := []; World.clock := [] |}
              _ _ Hb eq_refl) as (start & step & _ & _ & _ & _ & Hstep).
  split; vm_compute; reflexivity.
Defined.

(** *** src/utils/scrambleGenerator.ts *)

Section Scramble.

Import ScrambleGenerator.

Lemma shuffle_Ok (i : nat) (arr s : jsstring) (w w' : World.t) :
  shuffle i arr w = Ok s w' -> Permutation arr s /\ w' = consumed (4 * i) w.
Proof.
  revert arr w. induction i as [|i IH]; intros arr w H.
  - cbn [shuffle] in H. apply ret_Ok in H. destruct H as [-> ->].
    split; [reflexivity|]. destruct w; reflexivity.
  - cbn [shuffle] in H. apply draw32_Ok in H. destruct H as (_ & u & _ & _ & H).
    assert (Hc : consumed (4 * i) (consumed 4 w) = consumed (4 * S i) w).
    { rewrite consumed_consumed. f_equal. lia. }
    destruct (arr !! S i) as [ai|] eqn:Ei;
      [destruct (arr !! Z.to_nat (u mod (Z.of_nat (S i) + 1))) as [aj|] eqn:Ej|];
      apply IH in H; destruct H as [Hp ->]; (split; [|exact Hc]); try exact Hp.
    etransitivity; [|exact Hp]. symmetry.
    apply (Permutation_insert_swap arr _ _ _ _ Ei Ej).
Qed.

Lemma at_number_In {A : Type} (l : list A) (x : number) (a : A) :
  at_number l x = Some a -> In a l.
Proof.
  unfold at_number. destruct (to_index x) as [i|]; [|discriminate].
  intros H. apply list_elem_of_In. eapply list_elem_of_lookup_2. exact H.
Qed.

Lemma scramble_generate_Ok (d : Value) (w w' : World.t) (p : Puzzle) :
  generate d w = Ok p w' ->
  exists word,
    p_answer p = Str word
    /\ Permutation word (p_question p)
    /\ (In word words \/ word = str "typescript")
    /\ w' = consumed (4 * List.length word) w.
Proof.
  unfold generate. intros H. apply draw32_Ok in H. destruct H as (_ & u & _ & _ & H).
  match type of H with
  | match ?x with _ => _ end _ = _ => destruct x as [word|] eqn:Ew; [|discriminate]
  end.
  apply bind_Ok in H. destruct H as (s & w1 & Hs & H).
  apply ret_Ok in H. destruct H as [-> ->].
  unfold scramble in Hs. apply shuffle_Ok in Hs. destruct Hs as [Hp ->].
  exists word. cbn [p_answer p_question]. split; [reflexivity|]. split; [exact Hp|].
  split.
  - destruct (is_str d (str "easy")); [left; eapply at_number_In; exact Ew|].
    destruct (is_str d (str "medium")); [left; eapply at_number_In; exact Ew|].
    right. congruence.
  - rewrite consumed_consumed. f_equal.
    assert (List.length word <> 0%nat); [|lia].
    destruct (is_str d (str "easy")), (is_str d (str "medium"));
      try (apply at_number_In in Ew; intros E0; apply length_zero_iff_nil in E0; subst;
           revert Ew; vm_compute; intuition discriminate).
    inversion Ew. discriminate.
Qed.

End Scramble.

(** A scramble puzzle that is returned asks for one of the twenty words of
    the list, or for ['typescript'] when the difficulty is neither easy nor
    medium, and its question is a permutation of the letters of that word;
    the call takes four bytes of the source for each letter. *)
Theorem scramble_question_permutes_the_answer (difficulty : Value) (w w' : World.t)
    (p : Puzzle) :
  ScrambleGenerator.generate difficulty w = Ok p w' ->
  exists word,
    p_answer p = Str word
    /\ Permutation word (p_question p)
    /\ (In word ScrambleGenerator.words \/ word = str "typescript")
    /\ w' = consumed (4 * List.length word) w.
Proof. exact (scramble_generate_Ok difficulty w w' p). Qed.

Lemma scramble_question_permutes_the_answer_witness :
  exists p w' word,
    ScrambleGenerator.generate (Str (str "easy")) Sample.world = Ok p w'
    /\ p_answer p = Str word /\ Permutation word (p_question p).
Proof.
  destruct (ScrambleGenerator.generate (Str (str "easy")) Sample.world)
    as [p w'|e w'|] eqn:E; [|vm_compute in E; discriminate|vm_compute in E; discriminate].
  destruct (scramble_question_permutes_the_answer _ _ _ _ E) as (word & Ha & Hp & _).
  exists p, w', word. split; [reflexivity|]. split; [exact Ha|exact Hp].
Defined.

(** The largest reading of the source makes a medium scramble fail: the
    index is the length of the word list, the word is [undefined], and
    [word.split] raises a TypeError. *)
Theorem scramble_medium_maximum_reading (rest : list Z) (p : list number) (c : list Z) :
  ScrambleGenerator.generate (Str (str "medium"))
    {| World.entropy := 255 :: 255 :: 255 :: 255 :: rest; World.prng := p; World.clock := c |}
  = Fail TypeError {| World.entropy := rest; World.prng := p; World.clock := c |}.
Proof. vm_compute. reflexivity. Qed.

(** *** src/utils/reverseGenerator.ts *)

Lemma reverse_generate_Ok (d : Value) (w w' : World.t) (p : Puzzle) :
  ReverseGenerator.generate d w = Ok p w' ->
  exists text r pool,
    p_answer p = Str text /\ p_question p = rev text
    /\ ReverseGenerator.wordPool d = Some pool /\ In text pool
    /\ World.prng w = r :: World.prng w'
    /\ World.entropy w' = World.entropy w /\ World.clock w' = World.clock w.
Proof.
  unfold ReverseGenerator.generate. intros H.
  apply bind_Ok in H. destruct H as (r & w1 & Hr & H).
  unfold World.Math_random in Hr. destruct (World.prng w) as [|r0 rest] eqn:Ep; [discriminate|].
  inversion Hr; subst r0 w1. clear Hr.
  destruct (ReverseGenerator.wordPool d) as [pool|]; [|discriminate].
  destruct (ScrambleGenerator.at_number pool _) as [text|] eqn:Et; [|discriminate].
  apply ret_Ok in H. destruct H as [-> ->].
  exists text, r, pool. cbn [p_answer p_question World.prng World.entropy World.clock].
  repeat split; try reflexivity. eapply at_number_In. exact Et.
Qed.

(** A reverse puzzle that is returned shows a word of the pool of its
    difficulty written backwards. The word is chosen by one result of
    [Math.random]; no byte of the secure source is taken. *)
Theorem reverse_question_is_the_answer_backwards (difficulty : Value) (w w' : World.t)
    (p : Puzzle) :
  ReverseGenerator.generate difficulty w = Ok p w' ->
  exists text r pool,
    p_answer p = Str text /\ p_question p = rev text
    /\ ReverseGenerator.wordPool difficulty = Some pool /\ In text pool
    /\ World.prng w = r :: World.prng w'
    /\ World.entropy w' = World.entropy w /\ World.clock w' = World.clock w.
Proof. exact (reverse_generate_Ok difficulty w w' p). Qed.

Lemma reverse_question_is_the_answer_backwards_witness :
  exists p w' text,
    ReverseGenerator.generate (Str (str "hard")) Sample.world = Ok p w'
    /\ p_answer p = Str text /\ p_question p = rev text
    /\ World.entropy w' = World.entropy Sample.world.
Proof.
  destruct (ReverseGenerator.generate (Str (str "hard")) Sample.world)
    as [p w'|e w'|] eqn:E; [|vm_compute in E; discriminate|vm_compute in E; discriminate].
  destruct (reverse_question_is_the_answer_backwards _ _ _ _ E)
    as (text & r & pool & Ha & Hq & _ & _ & _ & He & _).
  exists p, w', text. split; [reflexivity|]. repeat split; assumption.
Defined.

(** With a difficulty that is none of easy, medium and hard no pool is
    chosen, and the reverse generator raises a TypeError after it has
    called [Math.random]. *)
Theorem reverse_unknown_difficulty_raises (difficulty : Value) (w : World.t) (r : number)
    (rest : list number) :
  is_str difficulty (str "easy") = false ->
  is_str difficulty (str "medium") = false ->
  is_str difficulty (str "hard") = false ->
  World.prng w = r :: rest ->
  ReverseGenerator.generate difficulty w
  = Fail TypeError {| World.entropy := World.entropy w; World.prng := rest;
                      World.clock := World.clock w |}.
Proof.
  intros He Hm Hh Hp. unfold ReverseGenerator.generate, ReverseGenerator.wordPool.
  rewrite He, Hm, Hh. unfold bind, World.Math_random. rewrite Hp. reflexivity.
Qed.

Lemma reverse_unknown_difficulty_raises_witness :
  exists w', ReverseGenerator.generate (Str (str "extreme")) Sample.world = Fail TypeError w'.
Proof.
  eexists.
  apply (reverse_unknown_difficulty_raises (Str (str "extreme")) Sample.world
           (div (of_Z 1) (of_Z 2)) [div (of_Z 1) (of_Z 4)]); reflexivity.
Defined.

(** *** src/utils/riddleBank.ts and src/utils/logicGenerator.ts *)

Lemma pick_spec (bank : list Locale.QA) (u : Z) :
  match Locale.pick bank u with
  | Some qa => In qa bank
  | None => bank = []
  end.
Proof.
  unfold Locale.pick. destruct bank as [|q bank]; [reflexivity|].
  set (l := q :: bank).
  assert (Hl : 0 < Z.of_nat (List.length l)) by (unfold l; cbn [List.length]; lia).
  pose proof (Z.mod_pos_bound u _ Hl) as Hb.
  destruct (l !! Z.to_nat (u mod Z.of_nat (List.length l))) as [qa|] eqn:E.
  - apply list_elem_of_In. eapply list_elem_of_lookup_2. exact E.
  - apply lookup_ge_None in E. lia.
Qed.

(** [RiddleBank.getRandom] and [LogicGenerator.getRandom] look the locale
    up as a property name, an undefined locale being ['en']. For a locale
    whose string is ['en'] or ['tr'] (the array [['tr']] included) they take
    four bytes of the source and return an entry of the bank of that
    locale, and nothing ([undefined]) only when that bank is empty; the
    difficulty plays no part. For the name of an inherited property they
    return nothing, for any other name they raise a TypeError, both after
    the four bytes; a locale that has no string raises at once. *)
Theorem riddle_and_logic_come_from_the_bank (locales : Locale.Data) (locale difficulty : Value)
    (w : World.t) :
  (4 <= List.length (World.entropy w))%nat ->
  (match RiddleBank.data locales (Locale.or_en locale) with
   | Returns (Locale.Bank bank) =>
       exists r, RiddleBank.getRandom locales locale difficulty w = Ok r (consumed 4 w)
                 /\ match r with Some qa => In qa bank | None => bank = [] end
   | Returns Locale.Inherited =>
       RiddleBank.getRandom locales locale difficulty w = Ok None (consumed 4 w)
   | Returns Locale.Missing =>
       RiddleBank.getRandom locales locale difficulty w = Fail TypeError (consumed 4 w)
   | Throws e => RiddleBank.getRandom locales locale difficulty w = Fail e w
   end)
  /\ (match LogicGenerator.data locales (Locale.or_en locale) with
      | Returns (Locale.Bank bank) =>
          exists r, LogicGenerator.getRandom locales locale difficulty w = Ok r (consumed 4 w)
                    /\ match r with Some qa => In qa bank | None => bank = [] end
      | Returns Locale.Inherited =>
          LogicGenerator.getRandom locales locale difficulty w = Ok None (consumed 4 w)
      | Returns Locale.Missing =>
          LogicGenerator.getRandom locales locale difficulty w
          = Fail TypeError (consumed 4 w)
      | Throws e => LogicGenerator.getRandom locales locale difficulty w = Fail e w
      end).
Proof.
  intros Hl. split.
  - unfold RiddleBank.getRandom.
    destruct (RiddleBank.data locales (Locale.or_en locale)) as [entry|e]; [|reflexivity].
    destruct (draw32_step
                (fun u => match entry with
                          | Locale.Bank riddles => ret (Locale.pick riddles u)
                          | Locale.Inherited => ret None
                          | Locale.Missing => throw TypeError
                          end) w Hl) as (u & _ & _ & E).
    destruct entry as [bank| |]; cbn [of_outcome]; unfold bind at 1; unfold ret at 1;
      rewrite E; try reflexivity.
    exists (Locale.pick bank u). split; [reflexivity|apply pick_spec].
  - unfold LogicGenerator.getRandom.
    destruct (LogicGenerator.data locales (Locale.or_en locale)) as [entry|e]; [|reflexivity].
    destruct (draw32_step
                (fun u => match entry with
                          | Locale.Bank logics => ret (Locale.pick logics u)
                          | Locale.Inherited => ret None
                          | Locale.Missing => throw TypeError
                          end) w Hl) as (u & _ & _ & E).
    destruct entry as [bank| |]; cbn [of_outcome]; unfold bind at 1; unfold ret at 1;
      rewrite E; try reflexivity.
    exists (Locale.pick bank u). split; [reflexivity|apply pick_spec].
Qed.

Lemma riddle_and_logic_come_from_the_bank_witness :
  (exists qa, RiddleBank.getRandom Sample.locales (Arr [Str (str "tr")]) (Str (str "easy"))
                Sample.world = Ok (Some qa) (consumed 4 Sample.world)
              /\ In qa (Locale.tr_riddles Sample.locales))
  /\ LogicGenerator.getRandom Sample.locales (Str (str "fr")) (Str (str "easy")) Sample.world
     = Fail TypeError (consumed 4 Sample.world).
Proof.
  assert (Hl : (4 <= List.length (World.entropy Sample.world))%nat)
    by (apply Nat.leb_le; vm_compute; reflexivity).
  split.
  - destruct (proj1 (riddle_and_logic_come_from_the_bank Sample.locales
                       (Arr [Str (str "tr")]) (Str (str "easy")) Sample.world Hl))
      as (r & E & Hr).
    destruct r as [qa|]; [|vm_compute in Hr; discriminate].
    exists qa. split; [exact E|exact Hr].
  - exact (proj2 (riddle_and_logic_come_from_the_bank Sample.locales (Str (str "fr"))
                    (Str (str "easy")) Sample.world Hl)).
Defined.

(** ** src/core/captchaGenerator.ts *)

Section OptionsKept.

Import CaptchaGenerator.

Local Abbreviation keeps := (respects same_options).

Lemma same_options_refl (s : t * World.t) : same_options s s.
Proof. unfold same_options. tauto. Qed.

Lemma same_options_trans (s1 s2 s3 : t * World.t) :
  same_options s1 s2 -> same_options s2 s3 -> same_options s1 s3.
Proof. unfold same_options. intros (? & ? & ?) (? & ? & ?). repeat split; congruence. Qed.

Lemma keeps_on_snd {A : Type} (m : M World.t A) : keeps (on_snd m).
Proof.
  intros [g w]. unfold on_snd.
  destruct (m w); try exact I; unfold same_options; cbn [fst]; tauto.
Qed.

Lemma keeps_addNonce (n : jsstring) : keeps (addNonce n).
Proof. intros [g w]. cbn. unfold same_options. cbn. tauto. Qed.

Ltac keep_step :=
  first
    [ apply keeps_on_snd
    | apply keeps_addNonce
    | apply (respects_ret _ same_options_refl)
    | apply (respects_throw _ same_options_refl)
    | apply (respects_read _ same_options_refl)
    | apply (respects_of_outcome _ same_options_refl)
    | apply respects_starve
    | apply (respects_bind _ same_options_trans); [|intros ?]
    | match goal with
      | |- respects _ (if ?b then _ else _) => destruct b
      | |- respects _ (match ?x with _ => _ end) => destruct x
      end ].

Ltac keep_auto := repeat keep_step.

Lemma keeps_drawNonce (n : nat) : keeps (drawNonce n).
Proof.
  induction n as [|n IH]; cbn [drawNonce].
  - keep_auto.
  - keep_step. { keep_step. } keep_step. { keep_step. }
    destruct (bool_decide _); [exact IH|keep_auto].
Qed.

Lemma keeps_createChallenge (base : Base) : keeps (createChallenge base).
Proof.
  unfold createChallenge.
  keep_step. { keep_step. } keep_step. { apply keeps_drawNonce. } keep_auto.
Qed.

Lemma keeps_generateMathWithin (n : nat) : keeps (generateMathWithin n).
Proof.
  induction n as [|n IH]; cbn [generateMathWithin].
  - keep_auto.
  - do 4 (keep_step; [keep_step|]).
    keep_step. { keep_auto. }
    destruct (isNaN _); [exact IH|apply keeps_createChallenge].
Qed.

Lemma keeps_generateMath : keeps generateMath.
Proof.
  unfold generateMath. keep_step; [keep_step|apply keeps_generateMathWithin].
Qed.

Ltac keep_provider :=
  keep_step; [keep_step|]; keep_step; [keep_step|];
  try match goal with
      | |- respects _ (match ?x with _ => _ end) => destruct x
      end;
  first [apply keeps_createChallenge | keep_auto].

Lemma keeps_generateText : keeps generateText.
Proof. unfold generateText. keep_provider. Qed.

Lemma keeps_generateSequence : keeps generateSequence.
Proof. unfold generateSequence. keep_provider. Qed.

Lemma keeps_generateScramble : keeps generateScramble.
Proof. unfold generateScramble. keep_provider. Qed.

Lemma keeps_generateReverse : keeps generateReverse.
Proof. unfold generateReverse. keep_provider. Qed.

Lemma keeps_generateCustom : keeps generateCustom.
Proof.
  unfold generateCustom. keep_step; [keep_step|].
  destruct (customGenerator _); [|keep_auto].
  keep_step; [keep_step|apply keeps_createChallenge].
Qed.

Variable locales : Locale.Data.

Lemma keeps_generateRiddle : keeps (generateRiddle locales).
Proof. unfold generateRiddle. keep_provider. Qed.

Lemma keeps_generateLogic : keeps (generateLogic locales).
Proof. unfold generateLogic. keep_provider. Qed.

Lemma keeps_generateMulti : keeps (generateMulti locales).
Proof.
  unfold generateMulti.
  keep_step; [apply keeps_generateMath|].
  keep_step; [apply keeps_generateRiddle|apply keeps_createChallenge].
Qed.

(** With a kind the code has a branch for, [generate] leaves the options
    alone, whether it returns or raises. *)
Lemma keeps_listed (depth : nat) (g : t) (w : World.t) (o : Options) (kind : jsstring) :
  customOptions g = None -> standardOptions g = Some o ->
  o_type o = Str kind -> In kind listed_kinds ->
  match generateWithin locales depth (g, w) with
  | Ok _ s' | Fail _ s' => same_options (g, w) s'
  | Starved => True
  end.
Proof.
  intros Hc Hs Ht Hin. destruct depth as [|depth]; [exact I|].
  cbn [generateWithin]. unfold bind at 1. unfold read at 1. cbn [fst].
  rewrite Hc, Hs, Ht.
  cbn [In listed_kinds] in Hin.
  destruct Hin as [<-|[<-|[<-|[<-|[<-|[<-|[<-|[<-|[]]]]]]]]];
    match goal with
    | |- match ?m (g, w) with _ => _ end =>
        let m' := eval cbn in m in change m with m'
    end;
    first [ apply keeps_generateMath | apply keeps_generateText
          | apply keeps_generateRiddle | apply keeps_generateSequence
          | apply keeps_generateScramble | apply keeps_generateLogic
          | apply keeps_generateReverse | apply keeps_generateMulti ].
Qed.

End OptionsKept.

Section Issued.

Import CaptchaGenerator.

Lemma generateNonce_length (w w' : World.t) (n : jsstring) :
  Random.generateNonce w = Ok n w' -> List.length n = 32%nat.
Proof.
  unfold Random.generateNonce. intros H.
  apply bind_Ok in H. destruct H as (b & w1 & Hb & H).
  apply ret_Ok in H. destruct H as [-> _].
  destruct (proj2 (randomBytes_Ok 16 w ltac:(lia)) _ _ Hb) as (Hl & _).
  unfold CryptoBuffer.toString_hex. rewrite hex_length. lia.
Qed.

Lemma generateSalt_length (w w' : World.t) (n : jsstring) :
  Random.generateSalt w = Ok n w' -> List.length n = 16%nat.
Proof.
  unfold Random.generateSalt. intros H.
  apply bind_Ok in H. destruct H as (b & w1 & Hb & H).
  apply ret_Ok in H. destruct H as [-> _].
  destruct (proj2 (randomBytes_Ok 8 w ltac:(lia)) _ _ Hb) as (Hl & _).
  unfold CryptoBuffer.toString_hex. rewrite hex_length. lia.
Qed.

Lemma drawNonce_length (turns : nat) (s s' : t * World.t) (n : jsstring) :
  drawNonce turns s = Ok n s' -> List.length n = 32%nat.
Proof.
  revert s. induction turns as [|turns IH]; intros [g w] H; cbn [drawNonce] in H;
    [discriminate|].
  apply bind_Ok in H. destruct H as (n1 & [g1 w1] & H1 & H).
  apply on_snd_Ok in H1. destruct H1 as [-> H1].
  apply bind_Ok in H. destruct H as (s0 & s1 & Hr & H).
  apply read_Ok in Hr. destruct Hr as [-> ->]. cbn [fst] in H.
  destruct (bool_decide _).
  - eapply IH. exact H.
  - apply ret_Ok in H. destruct H as [-> _]. eapply generateNonce_length. exact H1.
Qed.

Lemma digest_hex_format (h : CryptoHash.t) :
  List.length (CryptoHash.digest_hex h) = 64%nat
  /\ forallb is_lower_hex (CryptoHash.digest_hex h) = true.
Proof.
  unfold CryptoHash.digest_hex, CryptoHash.digest_bytes.
  destruct (computeHashSync_bytes (CryptoHash.getCombinedData h)) as [Hb Hl].
  split; [rewrite hex_length, Hl; reflexivity|apply hex_lower; exact Hb].
Qed.

Lemma createChallenge_sealed (base : Base) (s s' : t * World.t) (c : CaptchaChallenge) :
  createChallenge base s = Ok c s' ->
  type c = b_type base /\ question c = b_question base
  /\ answer c = b_answer base /\ steps c = b_steps base /\ sealed c.
Proof.
  destruct s as [g w]. destruct s' as [g' w']. intros H.
  destruct (createChallenge_Ok _ _ _ _ _ _ H)
    as ((Ht & Hq & Ha & Hs) & _ & _ & (a & Hm & Hh)).
  repeat split; try assumption.
  - unfold createChallenge in H.
    apply bind_Ok in H. destruct H as (s0 & s1 & Hr & H).
    apply read_Ok in Hr. destruct Hr as [-> ->].
    apply bind_Ok in H. destruct H as (n & s2 & Hn & H).
    apply drawNonce_length in Hn.
    apply bind_Ok in H. destruct H as (u & s3 & _ & H).
    apply bind_Ok in H. destruct H as (now & s4 & _ & H).
    apply bind_Ok in H. destruct H as (sa & s5 & _ & H).
    apply bind_Ok in H. destruct H as (hash & s6 & _ & H).
    apply bind_Ok in H. destruct H as (a' & s7 & _ & H).
    apply ret_Ok in H. destruct H as [-> _]. exact Hn.
  - unfold createChallenge in H.
    apply bind_Ok in H. destruct H as (s0 & s1 & Hr & H).
    apply bind_Ok in H. destruct H as (n & s2 & Hn & H).
    apply bind_Ok in H. destruct H as (u & s3 & _ & H).
    apply bind_Ok in H. destruct H as (now & s4 & _ & H).
    apply bind_Ok in H. destruct H as (sa & [g5 w5] & Hsa & H).
    destruct s4 as [g4 w4]. apply on_snd_Ok in Hsa. destruct Hsa as [_ Hsa].
    apply generateSalt_length in Hsa.
    apply bind_Ok in H. destruct H as (hash & s6 & _ & H).
    apply bind_Ok in H. destruct H as (a' & s7 & _ & H).
    apply ret_Ok in H. destruct H as [-> _]. exact Hsa.
  - rewrite Hh. apply digest_hex_format.
  - rewrite Hh. apply digest_hex_format.
  - exists a. rewrite Ha. split; [exact Hm|exact Hh].
Qed.

Lemma issued_simple (base : Base) (s s' : t * World.t) (c : CaptchaChallenge) :
  createChallenge base s = Ok c s' ->
  b_steps base = None -> JSString.eqb (b_type base) (str "multi") = false ->
  issued_as (b_type base) c.
Proof.
  intros H Hs Hk. destruct (createChallenge_sealed _ _ _ _ H) as (Ht & _ & _ & Hst & Hse).
  unfold issued_as. rewrite Hk. split; [exact Ht|]. split; [exact Hse|]. congruence.
Qed.

Ltac open_provider H :=
  let s0 := fresh "s" in let s1 := fresh "s" in let Hr := fresh "Hr" in
  apply bind_Ok in H; destruct H as (s0 & s1 & Hr & H);
  apply read_Ok in Hr; destruct Hr as [-> ->];
  let x := fresh "x" in let s2 := fresh "s" in let Hp := fresh "Hp" in
  apply bind_Ok in H; destruct H as (x & s2 & Hp & H).

Lemma generateMathWithin_issued (tries : nat) (s s' : t * World.t) (c : CaptchaChallenge) :
  generateMathWithin tries s = Ok c s' ->
  issued_as (str "math") c /\ exists x, answer c = Num x /\ isNaN x = false.
Proof.
  revert s. induction tries as [|tries IH]; intros s H; cbn [generateMathWithin] in H;
    [discriminate|].
  apply bind_Ok in H. destruct H as (s0 & s1 & _ & H).
  apply bind_Ok in H. destruct H as (n1 & s2 & _ & H).
  apply bind_Ok in H. destruct H as (n2 & s3 & _ & H).
  apply bind_Ok in H. destruct H as (op & s4 & _ & H).
  apply bind_Ok in H. destruct H as (n2' & s5 & _ & H).
  destruct (isNaN _) eqn:E; [eapply IH; exact H|].
  split.
  - apply (issued_simple _ _ _ _ H); reflexivity.
  - destruct (createChallenge_sealed _ _ _ _ H) as (_ & _ & Ha & _).
    eexists. split; [exact Ha|exact E].
Qed.

Lemma generateMath_issued (s s' : t * World.t) (c : CaptchaChallenge) :
  generateMath s = Ok c s' ->
  issued_as (str "math") c /\ exists x, answer c = Num x /\ isNaN x = false.
Proof.
  unfold generateMath. intros H.
  apply bind_Ok in H. destruct H as (s0 & s1 & _ & H).
  eapply generateMathWithin_issued. exact H.
Qed.

Lemma generateText_issued (s s' : t * World.t) (c : CaptchaChallenge) :
  generateText s = Ok c s' -> issued_as (str "text") c.
Proof.
  unfold generateText. intros H. open_provider H.
  apply (issued_simple _ _ _ _ H); reflexivity.
Qed.

Lemma generateSequence_issued (s s' : t * World.t) (c : CaptchaChallenge) :
  generateSequence s = Ok c s' -> issued_as (str "sequence") c.
Proof.
  unfold generateSequence. intros H. open_provider H.
  apply (issued_simple _ _ _ _ H); reflexivity.
Qed.

Lemma generateScramble_issued (s s' : t * World.t) (c : CaptchaChallenge) :
  generateScramble s = Ok c s' -> issued_as (str "scramble") c.
Proof.
  unfold generateScramble. intros H. open_provider H.
  apply (issued_simple _ _ _ _ H); reflexivity.
Qed.

Lemma generateReverse_issued (s s' : t * World.t) (c : CaptchaChallenge) :
  generateReverse s = Ok c s' -> issued_as (str "reverse") c.
Proof.
  unfold generateReverse. intros H. open_provider H.
  apply (issued_simple _ _ _ _ H); reflexivity.
Qed.

Lemma generateCustom_issued (s s' : t * World.t) (c : CaptchaChallenge) :
  generateCustom s = Ok c s' -> issued_as (str "custom") c.
Proof.
  unfold generateCustom. intros H.
  apply bind_Ok in H. destruct H as (s0 & s1 & Hr & H).
  destruct (customGenerator (fst s0)); [|discriminate].
  apply bind_Ok in H. destruct H as (x & s2 & _ & H).
  apply (issued_simple _ _ _ _ H); reflexivity.
Qed.

Variable locales : Locale.Data.

Lemma generateRiddle_issued (s s' : t * World.t) (c : CaptchaChallenge) :
  generateRiddle locales s = Ok c s' -> issued_as (str "riddle") c.
Proof.
  unfold generateRiddle. intros H. open_provider H.
  destruct x as [riddle|]; [|discriminate].
  apply (issued_simple _ _ _ _ H); reflexivity.
Qed.

Lemma generateLogic_issued (s s' : t * World.t) (c : CaptchaChallenge) :
  generateLogic locales s = Ok c s' -> issued_as (str "logic") c.
Proof.
  unfold generateLogic. intros H. open_provider H.
  destruct x as [logic|]; [|discriminate].
  apply (issued_simple _ _ _ _ H); reflexivity.
Qed.

Lemma generateMulti_issued (s s' : t * World.t) (c : CaptchaChallenge) :
  generateMulti locales s = Ok c s' -> issued_as (str "multi") c.
Proof.
  unfold generateMulti. intros H.
  apply bind_Ok in H. destruct H as (step1 & s1 & H1 & H).
  apply bind_Ok in H. destruct H as (step2 & s2 & H2 & H).
  apply generateMath_issued in H1. destruct H1 as [(T1 & S1 & N1) _].
  apply generateRiddle_issued in H2. destruct H2 as (T2 & S2 & N2).
  destruct (createChallenge_sealed _ _ _ _ H) as (Ht & _ & Ha & Hst & Hse).
  cbn in N1, N2. unfold issued_as. change (JSString.eqb (str "multi") (str "multi")) with true.
  cbv iota. split; [exact Ht|]. split; [exact Hse|]. split; [exact Ha|].
  exists step1, step2. split; [exact Hst|]. tauto.
Qed.

(** [generate] for a kind that has a branch of its own. *)
Lemma generateWithin_listed (depth : nat) (g : t) (w : World.t) (o : Options)
      (kind : jsstring) (c : CaptchaChallenge) (s' : t * World.t) :
  customOptions g = None -> standardOptions g = Some o ->
  o_type o = Str kind -> In kind listed_kinds ->
  generateWithin locales depth (g, w) = Ok c s' ->
  issued_as kind c.
Proof.
  intros Hc Hs Ht Hin H. destruct depth as [|depth]; [discriminate|].
  cbn [generateWithin] in H. unfold bind at 1 in H. unfold read at 1 in H. cbn [fst] in H.
  rewrite Hc, Hs, Ht in H.
  cbn [In listed_kinds] in Hin.
  destruct Hin as [<-|[<-|[<-|[<-|[<-|[<-|[<-|[<-|[]]]]]]]]];
    match type of H with
    | ?m (g, w) = _ => let m' := eval cbn in m in change m with m' in H
    end.
  - apply generateMath_issued in H. tauto.
  - apply generateText_issued in H. exact H.
  - apply generateRiddle_issued in H. exact H.
  - apply generateSequence_issued in H. exact H.
  - apply generateScramble_issued in H. exact H.
  - apply generateLogic_issued in H. exact H.
  - apply generateReverse_issued in H. exact H.
  - apply generateMulti_issued in H. exact H.
Qed.

End Issued.

Section Mixed.

Import CaptchaGenerator.

Variable locales : Locale.Data.

Lemma drawn_kind_listed (b : Z) :
  let kind := nth (Z.to_nat (b mod 7)) (types) [] in
  In kind listed_kinds /\ JSString.eqb kind (str "multi") = false.
Proof.
  pose proof (Z.mod_pos_bound b 7 ltac:(lia)) as Hb.
  assert (Hcase : b mod 7 = 0 \/ b mod 7 = 1 \/ b mod 7 = 2 \/ b mod 7 = 3
                  \/ b mod 7 = 4 \/ b mod 7 = 5 \/ b mod 7 = 6) by lia.
  destruct Hcase as [E|[E|[E|[E|[E|[E|E]]]]]]; rewrite E; cbn; tauto.
Qed.

Lemma with_kind_fields (g : t) (o : Options) (kind : Value) :
  standardOptions g = Some o ->
  standardOptions (with_kind g kind)
  = Some {| o_type := kind; o_difficulty := o_difficulty o; o_locale := o_locale o;
            o_questions := o_questions o |}
  /\ customOptions (with_kind g kind) = customOptions g
  /\ customGenerator (with_kind g kind) = customGenerator g
  /\ usedNonces (with_kind g kind) = usedNonces g.
Proof. intros Hs. unfold with_kind. rewrite Hs. cbn. tauto. Qed.

Lemma setType_with_kind (g : t) (w : World.t) (kind : Value) :
  setType kind (g, w) = Ok tt (with_kind g kind, w).
Proof. unfold setType, with_kind. destruct (standardOptions g); reflexivity. Qed.

(** [generateMixed] once its byte is drawn: the kind is overwritten, the
    inner [generate] runs, and only its return leads on. *)
Lemma generateMixed_eq (gen : M (t * World.t) CaptchaChallenge) (g : t) (w : World.t)
      (b : Z) (rest : list Z) :
  World.entropy w = b :: rest ->
  generateMixed gen (g, w)
  = match gen (with_kind g (Str (nth (Z.to_nat (b mod 7)) types [])), consumed 1 w) with
    | Ok challenge s1 =>
        bind (if truthy (match standardOptions g with
                         | None => Undefined
                         | Some o => o_type o
                         end)
              then setType (match standardOptions g with
                            | None => Undefined
                            | Some o => o_type o
                            end)
              else ret tt)
             (fun _ => createChallenge
                         {| b_type := str "mixed"; b_question := question challenge;
                            b_answer := answer challenge; b_steps := steps challenge |}) s1
    | Fail e s1 => Fail e s1
    | Starved => Starved
    end.
Proof.
  intros He. unfold generateMixed.
  assert (Hb : CryptoUtils.randomBytes 1 w = Ok [b] (consumed 1 w)).
  { rewrite (randomBytes_enough 1 w ltac:(lia)) by (rewrite He; cbn [List.length]; lia).
    change (Z.to_nat 1) with 1%nat. rewrite He. reflexivity. }
  rewrite (bind_step _ _ _ _ _ (on_snd_step _ g _ _ _ Hb)).
  rewrite (bind_step read _ _ _ _ eq_refl). cbn [fst nth].
  rewrite (bind_step _ _ _ _ _ (setType_with_kind g (consumed 1 w) _)).
  unfold bind at 1. reflexivity.
Qed.

Lemma generateMixed_Ok_inv (gen : M (t * World.t) CaptchaChallenge) (g : t) (w : World.t)
      (c : CaptchaChallenge) (s' : t * World.t) :
  generateMixed gen (g, w) = Ok c s' ->
  exists b rest, World.entropy w = b :: rest.
Proof.
  intros H. destruct (World.entropy w) as [|b rest] eqn:E; [|eauto].
  exfalso. unfold generateMixed in H.
  apply bind_Ok in H. destruct H as (buffer & [g1 w1] & Hb & _).
  apply on_snd_Ok in Hb. destruct Hb as [_ Hb].
  destruct (proj2 (randomBytes_Ok 1 w ltac:(lia)) _ _ Hb) as (Hl & Hsplit & _).
  rewrite E in Hsplit. destruct buffer; [discriminate|].
  symmetry in Hsplit. apply app_eq_nil in Hsplit. destruct Hsplit. discriminate.
Qed.

Lemma generateMixed_issued (depth : nat) (g : t) (w : World.t) (o : Options)
      (c : CaptchaChallenge) (s' : t * World.t) :
  customOptions g = None -> standardOptions g = Some o ->
  generateMixed (generateWithin locales depth) (g, w) = Ok c s' ->
  issued_as (str "mixed") c
  /\ (truthy (o_type o) = true -> same_options (g, w) s').
Proof.
  intros Hc Hs H.
  destruct (generateMixed_Ok_inv _ _ _ _ _ H) as (b & rest & He).
  rewrite (generateMixed_eq _ g w b rest He) in H. rewrite Hs in H.
  destruct (drawn_kind_listed b) as [Hin Hnm]. cbv zeta in Hin, Hnm.
  set (kind := nth (Z.to_nat (b mod 7)) types []) in *.
  destruct (with_kind_fields g o (Str kind) Hs) as (Ws & Wc & Wg & _).
  set (drawn := {| o_type := Str kind; o_difficulty := o_difficulty o;
                   o_locale := o_locale o; o_questions := o_questions o |}) in *.
  pose proof (generateWithin_listed locales depth (with_kind g (Str kind)) (consumed 1 w)
                drawn kind) as Hinner.
  pose proof (keeps_listed locales depth (with_kind g (Str kind)) (consumed 1 w) drawn kind
                ltac:(congruence) Ws eq_refl Hin) as Hkept.
  destruct (generateWithin locales depth (with_kind g (Str kind), consumed 1 w))
    as [challenge [g1 w1]|e s1|] eqn:Einner; try discriminate.
  specialize (Hinner challenge (g1, w1) ltac:(congruence) Ws eq_refl Hin eq_refl).
  destruct Hinner as (_ & _ & Hsteps). rewrite Hnm in Hsteps.
  destruct Hkept as (K1 & K2 & K3). cbn [fst] in K1, K2, K3.
  apply bind_Ok in H. destruct H as (u & [g2 w2] & Hrestore & H).
  split.
  - pose proof (issued_simple _ _ _ _ H) as Hi. cbn [b_steps b_type] in Hi.
    apply Hi; [exact Hsteps|reflexivity].
  - intros Htruthy. rewrite Htruthy in Hrestore.
    rewrite setType_with_kind in Hrestore. inversion Hrestore; subst g2 w2.
    pose proof (respects_Ok _ _ _ _ _ (keeps_createChallenge _) H) as (R1 & R2 & R3).
    destruct s' as [g' w']. unfold same_options. cbn [fst] in *.
    rewrite R1, R2, R3.
    unfold with_kind. rewrite K1, Ws. cbn.
    rewrite K2, K3, Wc, Wg, Hs. destruct o. cbn. tauto.
Qed.

End Mixed.

Section Dispatch.

Import CaptchaGenerator.

Variable locales : Locale.Data.

Lemma is_str_true (v : Value) (k : jsstring) : is_str v k = true -> v = Str k.
Proof. destruct v; try discriminate. cbn. intros H. apply eqb_eq in H. congruence. Qed.

Lemma generate_eq (g : t) (w : World.t) :
  generate locales (g, w)
  = generateWithin locales (2 + List.length (World.entropy w)) (g, w).
Proof. reflexivity. Qed.

(** [generate] when the kind has no branch of its own. *)
Lemma generateWithin_unlisted (depth : nat) (g : t) (w : World.t) (o : Options) :
  customOptions g = None -> standardOptions g = Some o ->
  (forall kind, In kind listed_kinds -> o_type o <> Str kind) ->
  generateWithin locales (S depth) (g, w)
  = generateMixed (generateWithin locales depth) (g, w).
Proof.
  intros Hc Hs Hno. cbn [generateWithin]. unfold bind at 1. unfold read at 1. cbn [fst].
  rewrite Hc, Hs.
  repeat match goal with
         | |- context [is_str (o_type o) ?k] =>
             let E := fresh "E" in
             destruct (is_str (o_type o) k) eqn:E;
             [exfalso; apply is_str_true in E; apply (Hno k); [cbn; tauto|exact E]|]
         end.
  reflexivity.
Qed.

Lemma listed_or_not (o : Options) :
  (exists kind, In kind listed_kinds /\ o_type o = Str kind)
  \/ (forall kind, In kind listed_kinds -> o_type o <> Str kind).
Proof.
  destruct (o_type o) as [| |b|x|s|xs|props];
    try (right; intros kind _; discriminate).
  destruct (existsb (JSString.eqb s) listed_kinds) eqn:E.
  - left. apply existsb_exists in E. destruct E as (kind & Hin & He).
    apply eqb_eq in He. exists kind. split; [exact Hin|congruence].
  - right. intros kind Hin Heq. inversion Heq; subst.
    assert (existsb (JSString.eqb kind) listed_kinds = true); [|congruence].
    apply existsb_exists. exists kind. split; [exact Hin|apply eqb_refl].
Qed.

Lemma generate_issued (g : t) (w : World.t) (c : CaptchaChallenge) (s' : t * World.t) :
  generate locales (g, w) = Ok c s' ->
  match customOptions g, standardOptions g with
  | Some _, _ => issued_as (str "custom") c
  | None, Some o =>
      (forall kind, In kind listed_kinds -> o_type o = Str kind -> issued_as kind c)
      /\ ((forall kind, In kind listed_kinds -> o_type o <> Str kind) ->
          issued_as (str "mixed") c)
  | None, None => False
  end.
Proof.
  rewrite generate_eq. intros H.
  destruct (customOptions g) as [co|] eqn:Hc.
  - cbn [generateWithin Nat.add] in H. unfold bind at 1 in H. unfold read at 1 in H.
    cbn [fst] in H. rewrite Hc in H. eapply generateCustom_issued. exact H.
  - destruct (standardOptions g) as [o|] eqn:Hs.
    + split.
      * intros kind Hin Hk. eapply generateWithin_listed; eassumption.
      * intros Hno. cbn [Nat.add] in H.
        rewrite (generateWithin_unlisted _ g w o Hc Hs Hno) in H.
        eapply generateMixed_issued; eassumption.
    + cbn [generateWithin Nat.add] in H. unfold bind at 1 in H. unfold read at 1 in H.
      cbn [fst] in H. rewrite Hc, Hs in H. discriminate.
Qed.

Lemma generate_restores (g : t) (w : World.t) (o : Options) (c : CaptchaChallenge)
      (s' : t * World.t) :
  standardOptions g = Some o -> truthy (o_type o) = true ->
  generate locales (g, w) = Ok c s' -> same_options (g, w) s'.
Proof.
  intros Hs Ht. rewrite generate_eq. intros H.
  destruct (customOptions g) as [co|] eqn:Hc.
  - cbn [generateWithin Nat.add] in H. unfold bind at 1 in H. unfold read at 1 in H.
    cbn [fst] in H. rewrite Hc in H.
    exact (respects_Ok _ _ _ _ _ keeps_generateCustom H).
  - destruct (listed_or_not o) as [(kind & Hin & Hk)|Hno].
    + pose proof (keeps_listed locales (2 + List.length (World.entropy w)) g w o kind
                    Hc Hs Hk Hin) as K.
      rewrite H in K. exact K.
    + cbn [Nat.add] in H. rewrite (generateWithin_unlisted _ g w o Hc Hs Hno) in H.
      eapply generateMixed_issued; eassumption.
Qed.

Lemma mixed_failure (g : t) (w : World.t) (o : Options) (b : Z) (rest : list Z)
      (e : Exception) (s1 : t * World.t) :
  customOptions g = None -> standardOptions g = Some o ->
  (forall kind, In kind listed_kinds -> o_type o <> Str kind) ->
  World.entropy w = b :: rest ->
  generate locales (with_kind g (Str (nth (Z.to_nat (b mod 7)) types [])), consumed 1 w)
  = Fail e s1 ->
  generate locales (g, w) = Fail e s1
  /\ standardOptions (fst s1)
     = Some {| o_type := Str (nth (Z.to_nat (b mod 7)) types []);
               o_difficulty := o_difficulty o; o_locale := o_locale o;
               o_questions := o_questions o |}.
Proof.
  intros Hc Hs Hno He H. rewrite generate_eq in *.
  assert (Hd : (2 + List.length (World.entropy w)
                = S (2 + List.length (World.entropy (consumed 1 w))))%nat).
  { rewrite consumed_length, He. cbn [List.length]. lia. }
  rewrite Hd. rewrite (generateWithin_unlisted _ g w o Hc Hs Hno).
  rewrite (generateMixed_eq _ g w b rest He), H. split; [reflexivity|].
  destruct (drawn_kind_listed b) as [Hin _]. cbv zeta in Hin.
  destruct (with_kind_fields g o (Str (nth (Z.to_nat (b mod 7)) types [])) Hs)
    as (Ws & Wc & _).
  pose proof (keeps_listed locales
                (2 + List.length (World.entropy (consumed 1 w)))
                (with_kind g (Str (nth (Z.to_nat (b mod 7)) types [])))
                (consumed 1 w) _ _
                ltac:(rewrite Wc; exact Hc) Ws eq_refl Hin) as K.
  rewrite H in K. destruct K as (K1 & _). rewrite K1. exact Ws.
Qed.

End Dispatch.

(** Every challenge [generate] returns has the kind the instance is set to:
    ['custom'] for custom questions, the configured kind when it is one of
    the eight the code has a branch for, and ['mixed'] for any other value.
    It is sealed: a nonce of 32 and a salt of 16 characters, and as
    [hashedAnswer] the 64 hexadecimal characters of the digest of the
    answer's string followed by the salt. It has no steps, unless it is a
    multi challenge: then its answer is empty and its steps are a sealed
    math challenge and a sealed riddle. *)
Theorem generate_issues_the_configured_kind (locales : Locale.Data)
    (g : CaptchaGenerator.t) (w : World.t) (c : CaptchaChallenge)
    (s' : CaptchaGenerator.t * World.t) :
  CaptchaGenerator.generate locales (g, w) = Ok c s' ->
  match CaptchaGenerator.customOptions g, CaptchaGenerator.standardOptions g with
  | Some _, _ => issued_as (str "custom") c
  | None, Some o =>
      (forall kind, In kind listed_kinds -> o_type o = Str kind -> issued_as kind c)
      /\ ((forall kind, In kind listed_kinds -> o_type o <> Str kind) ->
          issued_as (str "mixed") c)
  | None, None => False
  end.
Proof. exact (generate_issued locales g w c s'). Qed.

Lemma generate_issues_the_configured_kind_witness :
  exists c s',
    CaptchaGenerator.generate Sample.locales
      (Sample.generator (str "multi") (str "easy"), Sample.world) = Ok c s'
    /\ issued_as (str "multi") c.
Proof.
  destruct (CaptchaGenerator.generate Sample.locales
              (Sample.generator (str "multi") (str "easy"), Sample.world))
    as [c s'|e s'|] eqn:E; [|vm_compute in E; discriminate|vm_compute in E; discriminate].
  exists c, s'. split; [reflexivity|].
  pose proof (generate_issues_the_configured_kind Sample.locales _ _ _ _ E) as H.
  cbn in H. destruct H as [H _]. apply H; [cbn; tauto|reflexivity].
Defined.

(** A call of [generate] that returns leaves the options of the instance as
    they were, the kind included: [generateMixed] puts back the kind it
    overwrote (the configured kind is truthy whenever the instance was built
    by [K9Guard]). The custom questions stay as well. *)
Theorem generate_restores_the_kind (locales : Locale.Data) (g : CaptchaGenerator.t)
    (w : World.t) (o : Options) (c : CaptchaChallenge) (s' : CaptchaGenerator.t * World.t) :
  CaptchaGenerator.standardOptions g = Some o -> truthy (o_type o) = true ->
  CaptchaGenerator.generate locales (g, w) = Ok c s' ->
  CaptchaGenerator.standardOptions (fst s') = Some o
  /\ CaptchaGenerator.customOptions (fst s') = CaptchaGenerator.customOptions g
  /\ CaptchaGenerator.customGenerator (fst s') = CaptchaGenerator.customGenerator g.
Proof.
  intros Hs Ht H. destruct (generate_restores locales g w o c s' Hs Ht H) as (H1 & H2 & H3).
  cbn [fst] in *. rewrite H1, Hs. tauto.
Qed.

Lemma generate_restores_the_kind_witness :
  exists c s' o,
    CaptchaGenerator.generate Sample.locales
      (Sample.generator (str "mixed") (str "easy"), Sample.world) = Ok c s'
    /\ CaptchaGenerator.standardOptions (fst s') = Some o
    /\ o_type o = Str (str "mixed").
Proof.
  destruct (CaptchaGenerator.generate Sample.locales
              (Sample.generator (str "mixed") (str "easy"), Sample.world))
    as [c s'|e s'|] eqn:E; [|vm_compute in E; discriminate|vm_compute in E; discriminate].
  exists c, s', {| o_type := Str (str "mixed"); o_difficulty := Str (str "easy");
                   o_locale := Str (str "en"); o_questions := Undefined |}.
  split; [reflexivity|]. split; [|reflexivity].
  apply (generate_restores_the_kind Sample.locales
           (Sample.generator (str "mixed") (str "easy")) Sample.world
           {| o_type := Str (str "mixed"); o_difficulty := Str (str "easy");
              o_locale := Str (str "en"); o_questions := Undefined |} c s'
           eq_refl eq_refl E).
Defined.

(** When the generation that [generateMixed] starts raises, the exception
    goes through and the kind is not put back: the instance is left with
    the kind that was drawn, and is no longer a mixed one. *)
Theorem mixed_failure_leaves_the_drawn_kind (locales : Locale.Data)
    (g : CaptchaGenerator.t) (w : World.t) (o : Options) (b : Z) (rest : list Z)
    (e : Exception) (s1 : CaptchaGenerator.t * World.t) :
  CaptchaGenerator.customOptions g = None ->
  CaptchaGenerator.standardOptions g = Some o ->
  (forall kind, In kind listed_kinds -> o_type o <> Str kind) ->
  World.entropy w = b :: rest ->
  CaptchaGenerator.generate locales
    (with_kind g (Str (nth (Z.to_nat (b mod 7)) (CaptchaGenerator.types) [])), consumed 1 w)
  = Fail e s1 ->
  CaptchaGenerator.generate locales (g, w) = Fail e s1
  /\ CaptchaGenerator.standardOptions (fst s1)
     = Some {| o_type := Str (nth (Z.to_nat (b mod 7)) (CaptchaGenerator.types) []);
               o_difficulty := o_difficulty o; o_locale := o_locale o;
               o_questions := o_questions o |}.
Proof. exact (mixed_failure locales g w o b rest e s1). Qed.

Lemma mixed_failure_leaves_the_drawn_kind_witness :
  exists k s1 o,
    K9Guard.constructor Sample.mixed_in_french = Returns k
    /\ CaptchaGenerator.generate Sample.locales
         (K9Guard.generator k, Sample.world_drawing_riddle) = Fail TypeError s1
    /\ CaptchaGenerator.standardOptions (fst s1) = Some o
    /\ o_type o = Str (str "riddle").
Proof.
  eexists. eexists. eexists. split; [vm_compute; reflexivity|].
  match goal with
  | |- CaptchaGenerator.generate _ (?g, _) = _ /\ _ =>
      destruct (mixed_failure_leaves_the_drawn_kind Sample.locales g
                  Sample.world_drawing_riddle
                  {| o_type := Str (str "mixed"); o_difficulty := Str (str "easy");
                     o_locale := Str (str "fr"); o_questions := Undefined |}
                  2 (Sample.bytes 100) TypeError
                  ({| CaptchaGenerator.standardOptions :=
                        Some {| o_type := Str (str "riddle");
                                o_difficulty := Str (str "easy");
                                o_locale := Str (str "fr"); o_questions := Undefined |};
                      CaptchaGenerator.customOptions := None;
                      CaptchaGenerator.customGenerator := None;
                      CaptchaGenerator.usedNonces := ∅ |},
                   consumed 4 (consumed 1 Sample.world_drawing_riddle)))
        as [H1 H2]
  end.
  - reflexivity.
  - reflexivity.
  - intros kind Hin. cbn in Hin.
    destruct Hin as [<-|[<-|[<-|[<-|[<-|[<-|[<-|[<-|[]]]]]]]]]; discriminate.
  - reflexivity.
  - vm_compute. reflexivity.
  - split; [exact H1|]. split; [exact H2|reflexivity].
Defined.

(** A math challenge is issued at the first try. Both operands are at
    least 1, so the answer is a number: the guard against a zero divisor
    and the retry on a NaN answer are never taken. Given 33 bytes of the
    source, a reading of the clock and a first nonce that is new,
    [generateMath] returns a math challenge without steps, having taken
    exactly those 33 bytes (4 + 4 + 1 for the question, 16 + 8 for nonce
    and salt) and that reading. *)
Theorem math_is_issued_at_the_first_try (g : CaptchaGenerator.t) (w : World.t) (now : Z)
    (rest : list Z) :
  (33 <= List.length (World.entropy w))%nat ->
  World.clock w = now :: rest ->
  hex (firstn 16 (skipn 9 (World.entropy w))) ∉ CaptchaGenerator.usedNonces g ->
  exists c g' w',
    CaptchaGenerator.generateMath (g, w) = Ok c (g', w')
    /\ type c = str "math"
    /\ (exists x, answer c = Num x /\ isNaN x = false)
    /\ steps c = None
    /\ nonce c = hex (firstn 16 (skipn 9 (World.entropy w)))
    /\ expiry c = of_Z (now + 300000)
    /\ CaptchaGenerator.usedNonces g' = {[nonce c]} ∪ CaptchaGenerator.usedNonces g
    /\ World.entropy w' = skipn 33 (World.entropy w)
    /\ World.clock w' = rest.
Proof.
  intros Hl Hc Hf.
  destruct (generateMath_returns g w now rest Hl Hc Hf)
    as (c & g' & w' & E & Ht & Hx & Hs & Hn & He & Hu & _ & _ & Hen & Hcl).
  exists c, g', w'. repeat split; assumption.
Qed.

Lemma math_is_issued_at_the_first_try_witness :
  exists c g' w',
    CaptchaGenerator.generateMath (Sample.generator (str "math") (str "hard"), Sample.world)
    = Ok c (g', w')
    /\ type c = str "math"
    /\ World.entropy w' = skipn 33 (World.entropy Sample.world).
Proof.
  destruct (math_is_issued_at_the_first_try
              (Sample.generator (str "math") (str "hard")) Sample.world 1700000000000
              [1700000000001; 1700000000002; 1700000000003; 1700000000004;
               1700000000005; 1700000000006; 1700000000007])
    as (c & g' & w' & E & Ht & _ & _ & _ & _ & _ & He & _).
  - apply Nat.leb_le. vm_compute. reflexivity.
  - reflexivity.
  - change (CaptchaGenerator.usedNonces (Sample.generator (str "math") (str "hard")))
      with (∅ : gset jsstring). set_solver.
  - exists c, g', w'. split; [exact E|]. split; [exact Ht|exact He].
Defined.

(** Whether [generate] returns or raises, it leaves the difficulty, the
    locale and the custom questions of the instance as they were, only adds
    to the set of used nonces, and only takes readings from the front of the
    clock. *)
Theorem generate_keeps_the_settings (locales : Locale.Data) (g : CaptchaGenerator.t)
    (w : World.t) (s' : CaptchaGenerator.t * World.t) :
  (exists c, CaptchaGenerator.generate locales (g, w) = Ok c s')
  \/ (exists e, CaptchaGenerator.generate locales (g, w) = Fail e s') ->
  CaptchaGenerator.getDifficulty (fst s') = CaptchaGenerator.getDifficulty g
  /\ CaptchaGenerator.getLocale (fst s') = CaptchaGenerator.getLocale g
  /\ CaptchaGenerator.customGenerator (fst s') = CaptchaGenerator.customGenerator g
  /\ CaptchaGenerator.usedNonces g ⊆ CaptchaGenerator.usedNonces (fst s')
  /\ exists past, World.clock w = past ++ World.clock (snd s').
Proof.
  intros H.
  assert (Hstep : step_of (g, w) s').
  { destruct H as [[c H]|[e H]].
    - exact (respects_Ok _ _ _ _ _ (steps_on_generate locales) H).
    - exact (respects_Fail _ _ _ _ _ (steps_on_generate locales) H). }
  destruct Hstep as [Hn Hset [_ Hcg] Hclock]. cbn [fst snd] in *.
  unfold CaptchaGenerator.getDifficulty, CaptchaGenerator.getLocale.
  unfold same_settings in Hset.
  destruct (CaptchaGenerator.standardOptions g) as [o|],
           (CaptchaGenerator.standardOptions (fst s')) as [o'|]; try contradiction.
  - destruct Hset as (Hd & Hl & _). rewrite Hd, Hl. repeat split; assumption.
  - repeat split; assumption.
Qed.

Lemma generate_keeps_the_settings_witness :
  exists s',
    CaptchaGenerator.generate Sample.locales
      (Sample.generator (str "reverse") (str "extreme"), Sample.world) = Fail TypeError s'
    /\ CaptchaGenerator.getDifficulty (fst s') = Str (str "extreme")
    /\ CaptchaGenerator.getLocale (fst s') = Str (str "en").
Proof.
  destruct (CaptchaGenerator.generate Sample.locales
              (Sample.generator (str "reverse") (str "extreme"), Sample.world))
    as [c s'|e s'|] eqn:E; [vm_compute in E; discriminate| |vm_compute in E; discriminate].
  assert (He : e = TypeError) by (vm_compute in E; congruence). subst e.
  exists s'. split; [reflexivity|].
  destruct (generate_keeps_the_settings Sample.locales _ _ s'
              (or_intror (ex_intro _ TypeError E))) as (Hd & Hl & _).
  split; [exact Hd|exact Hl].
Defined.

(** ** Custom questions: src/validators/customQuestionValidator.ts and
    src/utils/customQuestionGenerator.ts *)

Section Trim.

Lemma trimStart_head (s : jsstring) :
  match trimStart s with c :: _ => is_space c = false | [] => True end.
Proof.
  induction s as [|c s IH]; [exact I|]. cbn [trimStart].
  destruct (is_space c) eqn:E; [exact IH|exact E].
Qed.

Lemma trimStart_trimStart (s : jsstring) : trimStart (trimStart s) = trimStart s.
Proof. apply trimStart_id. apply trimStart_head. Qed.

Lemma trimStart_suffix (s : jsstring) : exists p, s = p ++ trimStart s.
Proof.
  induction s as [|c s [p IH]]; [exists []; reflexivity|]. cbn [trimStart].
  destruct (is_space c); [exists (c :: p); cbn; f_equal; exact IH|exists []; reflexivity].
Qed.

Lemma trimStart_length (s : jsstring) : (List.length (trimStart s) <= List.length s)%nat.
Proof.
  destruct (trimStart_suffix s) as [p E]. rewrite E at 2. rewrite length_app. lia.
Qed.

Lemma trimEnd_prefix (s : jsstring) : exists p, s = trimEnd s ++ p.
Proof.
  unfold trimEnd. destruct (trimStart_suffix (rev s)) as [p E].
  exists (rev p). rewrite <- rev_app_distr, <- E, rev_involutive. reflexivity.
Qed.

Lemma trimEnd_trimEnd (s : jsstring) : trimEnd (trimEnd s) = trimEnd s.
Proof. unfold trimEnd. rewrite rev_involutive, trimStart_trimStart. reflexivity. Qed.

(** Cutting spaces at the end leaves the first character where it is. *)
Lemma trimEnd_head (s : jsstring) :
  match s with c :: _ => is_space c = false | [] => True end ->
  match trimEnd s with c :: _ => is_space c = false | [] => True end.
Proof.
  intros Hs. destruct (trimEnd_prefix s) as [p E].
  destruct (trimEnd s) as [|c t]; [exact I|].
  rewrite E in Hs. exact Hs.
Qed.

Lemma trim_idempotent (s : jsstring) : trim (trim s) = trim s.
Proof.
  unfold trim.
  rewrite (trimStart_id (trimEnd (trimStart s))).
  - apply trimEnd_trimEnd.
  - apply trimEnd_head. apply trimStart_head.
Qed.

Lemma trim_length (s : jsstring) : JSString.length (trim s) <= JSString.length s.
Proof.
  unfold trim, trimEnd, JSString.length.
  pose proof (trimStart_length (rev (trimStart s))) as H1.
  pose proof (trimStart_length s) as H2.
  rewrite length_rev. rewrite length_rev in H1. lia.
Qed.

End Trim.

Section CustomQuestions.

Import CustomQuestionValidator.

Lemma item_props (q : CustomQuestion) :
  prop (item q) (str "question") = Str (cq_question q)
  /\ prop (item q) (str "answer") = Str (cq_answer q)
  /\ prop (item q) (str "difficulty") = cq_difficulty q.
Proof.
  unfold item. repeat split; cbn; destruct (cq_difficulty q); reflexivity.
Qed.

Lemma validateSingle_item (q : CustomQuestion) :
  validateSingle (item q) = Valid ->
  5 <= JSString.length (cq_question q) <= 500
  /\ 1 <= JSString.length (cq_answer q) <= 200
  /\ In (cq_difficulty q) [Str (str "easy"); Str (str "medium"); Str (str "hard")].
Proof.
  unfold validateSingle. destruct (item_props q) as (-> & -> & ->).
  change (negb (JSString.eqb (typeof (item q)) (str "object")) || false) with false.
  cbv iota. destruct (cq_difficulty q) as [| |b|x|d|xs|ps]; try discriminate.
  unfold MIN_QUESTION_LENGTH, MAX_QUESTION_LENGTH, MIN_ANSWER_LENGTH, MAX_ANSWER_LENGTH.
  destruct (existsb (JSString.eqb d) VALID_DIFFICULTY) eqn:Ed; [|discriminate].
  cbn [negb].
  destruct (_ <? 5) eqn:E1; [discriminate|].
  destruct (_ >? 500) eqn:E2; [discriminate|].
  destruct (_ <? 1) eqn:E3; [discriminate|].
  destruct (_ >? 200) eqn:E4; [discriminate|].
  intros _. apply Z.ltb_ge in E1, E3. rewrite Z.gtb_ltb in E2, E4.
  apply Z.ltb_ge in E2, E4. repeat split; try lia.
  apply existsb_exists in Ed. destruct Ed as (k & Hin & Hk). apply eqb_eq in Hk. subst k.
  cbn in Hin. cbn. intuition congruence.
Qed.

Lemma validateFrom_items (i : Z) (qs : list CustomQuestion) :
  validateFrom i (map item qs) = Valid ->
  Forall (fun q => validateSingle (item q) = Valid) qs.
Proof.
  revert i. induction qs as [|q qs IH]; intros i H; [constructor|].
  cbn [map validateFrom] in H.
  destruct (validateSingle (item q)) eqn:E; [|discriminate].
  constructor; [exact E|eapply IH; exact H].
Qed.

Lemma validate_to_value (qs : list CustomQuestion) :
  validate (to_value qs) = Valid ->
  1 <= Z.of_nat (List.length qs) <= 100
  /\ Forall (fun q => validateSingle (item q) = Valid) qs.
Proof.
  unfold validate, to_value, MAX_QUESTIONS. fold item. rewrite length_map.
  destruct (_ =? 0) eqn:E0; [discriminate|].
  destruct (_ >? 100) eqn:E1; [discriminate|].
  intros H. apply Z.eqb_neq in E0. rewrite Z.gtb_ltb in E1. apply Z.ltb_ge in E1.
  split; [lia|]. eapply validateFrom_items. exact H.
Qed.

Lemma sanitizeAll_trimmed (items : list Value) (qs : list CustomQuestion) :
  sanitizeAll items = Returns qs ->
  List.length qs = List.length items
  /\ Forall (fun q => trim (cq_question q) = cq_question q
                      /\ trim (cq_answer q) = cq_answer q) qs.
Proof.
  revert qs. induction items as [|v items IH]; intros qs H; cbn [sanitizeAll] in H.
  - inversion H. split; [reflexivity|constructor].
  - destruct (sanitizeOne v) as [q|e] eqn:E1; [|discriminate].
    destruct (sanitizeAll items) as [rest|e] eqn:E2; [|discriminate].
    inversion H; subst qs. destruct (IH rest eq_refl) as [Hl Hf].
    split; [cbn [List.length]; f_equal; exact Hl|]. constructor; [|exact Hf].
    unfold sanitizeOne in E1.
    destruct v; try discriminate;
      destruct (prop _ (str "question")); try discriminate;
      destruct (prop _ (str "answer")); try discriminate;
      inversion E1; cbn [cq_question cq_answer]; split; apply trim_idempotent.
Qed.

Lemma sanitizeAll_items (qs : list CustomQuestion) :
  Forall (fun q => trim (cq_question q) = cq_question q
                   /\ trim (cq_answer q) = cq_answer q) qs ->
  sanitizeAll (map item qs) = Returns qs.
Proof.
  induction 1 as [|q qs [Hq Ha] _ IH]; [reflexivity|].
  cbn [map sanitizeAll]. rewrite IH.
  assert (E : sanitizeOne (item q) = Returns q).
  { unfold sanitizeOne. destruct (item_props q) as (-> & -> & ->).
    unfold item. rewrite Hq, Ha. destruct q. reflexivity. }
  rewrite E. reflexivity.
Qed.

(** What [new K9Guard] does with options of kind ['custom']. *)
Lemma constructor_custom (options : Value) (k : K9Guard.t) :
  is_str (prop options (str "type")) (str "custom") = true ->
  K9Guard.constructor options = Returns k ->
  exists qs,
    validate (prop options (str "questions")) = Valid
    /\ sanitize (prop options (str "questions")) = Returns qs
    /\ validate (to_value qs) = Valid
    /\ CaptchaGenerator.customGenerator (K9Guard.generator k) = Some qs
    /\ CaptchaGenerator.standardOptions (K9Guard.generator k) = None
    /\ CaptchaGenerator.customOptions (K9Guard.generator k) <> None
    /\ CaptchaGenerator.usedNonces (K9Guard.generator k) = ∅.
Proof.
  intros Hc H. destruct options as [| |b|x|s|xs|props]; try discriminate.
  unfold K9Guard.constructor, K9Guard.processOptions in H.
  change (typeof (Obj props)) with (str "object") in H.
  change (JSString.eqb (str "object") (str "object")) with true in H.
  cbn [negb orb] in H. rewrite Hc in H.
  destruct (isArray (prop (Obj props) (str "questions"))) eqn:Harr; [|discriminate].
  cbn [negb] in H.
  destruct (validate (prop (Obj props) (str "questions"))) eqn:Hv; [|discriminate].
  destruct (sanitize (prop (Obj props) (str "questions"))) as [qs|e] eqn:Hs; [|discriminate].
  unfold CaptchaGenerator.constructor, CaptchaGenerator.isCustomOptions in H.
  cbn [o_type o_questions] in H.
  change (is_str (Str (str "custom")) (str "custom")) with true in H.
  change (isArray (to_value qs)) with true in H. cbn [andb] in H.
  destruct (validate (to_value qs)) eqn:Hv2; [|discriminate].
  assert (Hqs : sanitize (to_value qs) = Returns qs).
  { unfold sanitize, to_value. fold item. apply sanitizeAll_items.
    unfold sanitize in Hs. destruct (prop (Obj props) (str "questions")); try discriminate.
    apply sanitizeAll_trimmed in Hs. tauto. }
  rewrite Hqs in H. inversion H; subst k. cbn [K9Guard.generator].
  exists qs. repeat split; first [assumption | reflexivity | discriminate].
Qed.

Lemma kept_questions (options : Value) (k : K9Guard.t) :
  is_str (prop options (str "type")) (str "custom") = true ->
  K9Guard.constructor options = Returns k ->
  exists qs,
    CaptchaGenerator.customGenerator (K9Guard.generator k) = Some qs
    /\ 1 <= Z.of_nat (List.length qs) <= 100
    /\ Forall well_kept qs.
Proof.
  intros Hc H.
  destruct (constructor_custom options k Hc H) as (qs & _ & Hs & Hv & Hg & _).
  exists qs. split; [exact Hg|].
  destruct (validate_to_value qs Hv) as [Hl Hf]. split; [exact Hl|].
  assert (Ht : Forall (fun q => trim (cq_question q) = cq_question q
                                /\ trim (cq_answer q) = cq_answer q) qs).
  { unfold sanitize in Hs. destruct (prop options (str "questions")); try discriminate.
    apply sanitizeAll_trimmed in Hs. tauto. }
  rewrite List.Forall_forall in *. intros q Hq.
  destruct (validateSingle_item q (Hf q Hq)) as (H1 & H2 & H3).
  destruct (Ht q Hq) as [H4 H5]. unfold well_kept. tauto.
Qed.

End CustomQuestions.

(** An instance built from options of kind ['custom'] keeps between 1 and
    100 questions, each with a trimmed question of 5 to 500 characters, a
    trimmed answer of 1 to 200 characters and one of the difficulties easy,
    medium, hard: the questions are validated as given, trimmed, and
    validated again after trimming. *)
Theorem custom_instance_keeps_valid_trimmed_questions (options : Value) (k : K9Guard.t) :
  is_str (prop options (str "type")) (str "custom") = true ->
  K9Guard.constructor options = Returns k ->
  exists qs,
    CaptchaGenerator.customGenerator (K9Guard.generator k) = Some qs
    /\ 1 <= Z.of_nat (List.length qs) <= 100
    /\ Forall well_kept qs.
Proof. exact (kept_questions options k). Qed.

Lemma custom_instance_keeps_valid_trimmed_questions_witness :
  exists k qs,
    K9Guard.constructor Sample.custom_options = Returns k
    /\ CaptchaGenerator.customGenerator (K9Guard.generator k) = Some qs
    /\ Forall well_kept qs
    /\ map cq_answer qs = [str "4"; str "Paris"].
Proof.
  destruct (K9Guard.constructor Sample.custom_options) as [k|e] eqn:E;
    [|vm_compute in E; discriminate].
  destruct (custom_instance_keeps_valid_trimmed_questions Sample.custom_options k eq_refl E)
    as (qs & Hg & _ & Hf).
  exists k, qs. split; [reflexivity|]. split; [exact Hg|]. split; [exact Hf|].
  vm_compute in E. inversion E; subst k. cbn in Hg. inversion Hg. reflexivity.
Defined.

(** A question or an answer that is long enough only with its surrounding
    spaces passes [CustomQuestionValidator.validate] and still makes the
    construction fail: the second validation, after trimming, rejects it.
    Construction with a questions array succeeds only if the array is valid
    both as given and after [sanitize]. *)
Theorem custom_questions_are_validated_twice (options : Value) :
  is_str (prop options (str "type")) (str "custom") = true ->
  isArray (prop options (str "questions")) = true ->
  match K9Guard.constructor options with
  | Returns _ =>
      CustomQuestionValidator.validate (prop options (str "questions"))
      = CustomQuestionValidator.Valid
      /\ exists qs,
           CustomQuestionValidator.sanitize (prop options (str "questions")) = Returns qs
           /\ CustomQuestionValidator.validate (CustomQuestionValidator.to_value qs)
              = CustomQuestionValidator.Valid
  | Throws e =>
      (exists error,
          CustomQuestionValidator.validate (prop options (str "questions"))
          = CustomQuestionValidator.Invalid error
          /\ e = Error (str "Invalid custom questions: " ++ error))
      \/ (exists qs error,
             CustomQuestionValidator.validate (prop options (str "questions"))
             = CustomQuestionValidator.Valid
             /\ CustomQuestionValidator.sanitize (prop options (str "questions"))
                = Returns qs
             /\ CustomQuestionValidator.validate (CustomQuestionValidator.to_value qs)
                = CustomQuestionValidator.Invalid error
             /\ e = Error (str "Invalid custom questions: " ++ error))
      \/ (CustomQuestionValidator.sanitize (prop options (str "questions")) = Throws e)
  end.
Proof.
  intros Hc Harr.
  destruct (K9Guard.constructor options) as [k|e] eqn:E.
  - destruct (constructor_custom options k Hc E) as (qs & Hv & Hs & Hv2 & _).
    split; [exact Hv|]. exists qs. tauto.
  - destruct options as [| |b|x|s|xs|props]; try discriminate.
    unfold K9Guard.constructor, K9Guard.processOptions in E.
    change (typeof (Obj props)) with (str "object") in E.
    change (JSString.eqb (str "object") (str "object")) with true in E.
    cbn [negb orb] in E. rewrite Hc, Harr in E. cbn [negb] in E.
    destruct (CustomQuestionValidator.validate (prop (Obj props) (str "questions")))
      as [|error] eqn:Hv.
    + destruct (CustomQuestionValidator.sanitize (prop (Obj props) (str "questions")))
        as [qs|e'] eqn:Hs.
      * unfold CaptchaGenerator.constructor, CaptchaGenerator.isCustomOptions in E.
        cbn [o_type o_questions] in E.
        change (is_str (Str (str "custom")) (str "custom")) with true in E.
        change (isArray (CustomQuestionValidator.to_value qs)) with true in E.
        cbn [andb] in E.
        destruct (CustomQuestionValidator.validate (CustomQuestionValidator.to_value qs))
          as [|error] eqn:Hv2.
        -- destruct (CustomQuestionValidator.sanitize (CustomQuestionValidator.to_value qs))
             as [qs2|e2] eqn:Hs2; [discriminate|].
           exfalso.
           assert (Hqs : CustomQuestionValidator.sanitize (CustomQuestionValidator.to_value qs)
                         = Returns qs).
           { unfold CustomQuestionValidator.sanitize, CustomQuestionValidator.to_value.
             apply sanitizeAll_items.
             unfold CustomQuestionValidator.sanitize in Hs.
             destruct (prop (Obj props) (str "questions")); try discriminate.
             apply sanitizeAll_trimmed in Hs. tauto. }
           congruence.
        -- right. left. exists qs, error. inversion E. tauto.
      * right. right. inversion E. reflexivity.
    + left. exists error. inversion E. tauto.
Qed.

Lemma custom_questions_are_validated_twice_witness :
  CustomQuestionValidator.validate (prop Sample.custom_with_blank_answer (str "questions"))
  = CustomQuestionValidator.Valid
  /\ K9Guard.constructor Sample.custom_with_blank_answer
     = Throws (Error (str "Invalid custom questions: Question 1: Answer cannot be empty")).
Proof.
  split; [vm_compute; reflexivity|].
  pose proof (custom_questions_are_validated_twice Sample.custom_with_blank_answer
                eq_refl eq_refl) as H.
  destruct (K9Guard.constructor Sample.custom_with_blank_answer) as [k|e] eqn:E.
  - exfalso. destruct H as (_ & qs & Hs & Hv). vm_compute in Hs. inversion Hs; subst qs.
    vm_compute in Hv. discriminate.
  - vm_compute in E. inversion E; subst e. reflexivity.
Defined.

Section CustomGeneration.

Import CustomQuestionGenerator.

Lemma selectRandom_Ok (qs : list CustomQuestion) (w w' : World.t) (q a : jsstring) :
  qs <> [] ->
  selectRandom qs w = Ok (q, a) w' ->
  w' = consumed 4 w
  /\ exists x, In x qs /\ q = cq_question x /\ a = cq_answer x.
Proof.
  intros Hne H. unfold selectRandom in H. destruct qs as [|q0 qs0]; [congruence|].
  set (l := q0 :: qs0) in *.
  apply draw32_Ok in H. destruct H as (_ & u & _ & _ & H).
  destruct (l !! Z.to_nat (u mod Z.of_nat (List.length l))) as [x|] eqn:E; [|discriminate].
  apply ret_Ok in H. destruct H as [H ->]. inversion H; subst.
  split; [reflexivity|]. exists x. split; [|tauto].
  apply list_elem_of_In. eapply list_elem_of_lookup_2. exact E.
Qed.

Lemma filter_In (d : jsstring) (qs : list CustomQuestion) (x : CustomQuestion) :
  In x (filter (fun q => is_str (cq_difficulty q) d) qs) <->
  In x qs /\ cq_difficulty x = Str d.
Proof.
  rewrite <- !list_elem_of_In, list_elem_of_filter. split.
  - intros [H1 H2]. split; [exact H2|]. apply Is_true_true in H1.
    apply is_str_true. exact H1.
  - intros [H1 H2]. split; [|exact H1]. apply Is_true_true. rewrite H2. cbn.
    apply eqb_refl.
Qed.

Lemma generate_custom_Ok (qs : list CustomQuestion) (difficulty : option jsstring)
      (w w' : World.t) (q a : jsstring) :
  qs <> [] ->
  generate qs difficulty w = Ok (q, a) w' ->
  w' = consumed 4 w
  /\ exists x,
       In x qs /\ q = cq_question x /\ a = cq_answer x
       /\ forall d, difficulty = Some d -> d <> [] ->
            (exists y, In y qs /\ cq_difficulty y = Str d) -> cq_difficulty x = Str d.
Proof.
  intros Hne H. unfold generate in H.
  destruct difficulty as [[|ch d]|].
  - destruct qs as [|q0 qs0]; [congruence|].
    destruct (selectRandom_Ok _ _ _ _ _ Hne H) as (-> & x & Hx & Hq & Ha).
    split; [reflexivity|]. exists x. repeat split; try assumption.
    intros d Hd Hnil. inversion Hd; subst. congruence.
  - destruct (filter (fun q => is_str (cq_difficulty q) (ch :: d)) qs) as [|c0 cs] eqn:Ef.
    + destruct (selectRandom_Ok _ _ _ _ _ Hne H) as (-> & x & Hx & Hq & Ha).
      split; [reflexivity|]. exists x. repeat split; try assumption.
      intros d' Hd _ (y & Hy & Hyd). inversion Hd; subst d'. exfalso.
      assert (Hin : In y (filter (fun q => is_str (cq_difficulty q) (ch :: d)) qs))
        by (apply filter_In; tauto).
      rewrite Ef in Hin. exact Hin.
    + assert (Hne' : c0 :: cs <> []) by discriminate.
      destruct (selectRandom_Ok _ _ _ _ _ Hne' H) as (-> & x & Hx & Hq & Ha).
      rewrite <- Ef in Hx. apply filter_In in Hx. destruct Hx as [Hx Hxd].
      split; [reflexivity|]. exists x. repeat split; try assumption.
      intros d' Hd _ _. inversion Hd; subst d'. exact Hxd.
  - destruct qs as [|q0 qs0]; [congruence|].
    destruct (selectRandom_Ok _ _ _ _ _ Hne H) as (-> & x & Hx & Hq & Ha).
    split; [reflexivity|]. exists x. repeat split; try assumption.
    intros d Hd. discriminate.
Qed.

End CustomGeneration.

(** [CustomQuestionGenerator.generate] on a non-empty list takes four
    bytes of the source and returns the question and answer of one entry of
    the list. Called with a difficulty that some entry has, it returns an
    entry of that difficulty; with a difficulty no entry has it falls back
    to the whole list. *)
Theorem custom_generator_picks_a_listed_question (qs : list CustomQuestion)
    (difficulty : option jsstring) (w w' : World.t) (q a : jsstring) :
  qs <> [] ->
  CustomQuestionGenerator.generate qs difficulty w = Ok (q, a) w' ->
  w' = consumed 4 w
  /\ exists x,
       In x qs /\ q = cq_question x /\ a = cq_answer x
       /\ forall d, difficulty = Some d -> d <> [] ->
            (exists y, In y qs /\ cq_difficulty y = Str d) -> cq_difficulty x = Str d.
Proof. exact (generate_custom_Ok qs difficulty w w' q a). Qed.

Lemma custom_generator_picks_a_listed_question_witness :
  exists q a w',
    CustomQuestionGenerator.generate Sample.two_questions (Some (str "hard")) Sample.world
    = Ok (q, a) w'
    /\ a = str "Paris".
Proof.
  destruct (CustomQuestionGenerator.generate Sample.two_questions (Some (str "hard"))
              Sample.world) as [[q a] w'|e w'|] eqn:E;
    [|vm_compute in E; discriminate|vm_compute in E; discriminate].
  exists q, a, w'. split; [reflexivity|].
  assert (Hne : Sample.two_questions <> []) by discriminate.
  destruct (custom_generator_picks_a_listed_question Sample.two_questions
              (Some (str "hard")) Sample.world w' q a Hne E)
    as (_ & x & Hx & _ & Ha & Hd).
  assert (Hhard : str "hard" <> []) by discriminate.
  specialize (Hd (str "hard") eq_refl Hhard).
  destruct Hx as [<-|[<-|[]]].
  - exfalso. assert (Hc : Str (str "easy") = Str (str "hard")); [|discriminate].
    apply Hd. eexists. split; [right; left; reflexivity|reflexivity].
  - exact Ha.
Defined.

(** A challenge issued by an instance for custom questions asks one of the
    questions the instance keeps and carries the answer of that question. *)
Theorem custom_challenge_asks_a_kept_question (locales : Locale.Data)
    (g : CaptchaGenerator.t) (w : World.t) (qs : list CustomQuestion)
    (c : CaptchaChallenge) (s' : CaptchaGenerator.t * World.t) :
  CaptchaGenerator.customOptions g <> None ->
  CaptchaGenerator.customGenerator g = Some qs -> qs <> [] ->
  CaptchaGenerator.generate locales (g, w) = Ok c s' ->
  type c = str "custom"
  /\ exists x, In x qs /\ question c = cq_question x /\ answer c = Str (cq_answer x).
Proof.
  intros Hc Hg Hne H. rewrite generate_eq in H.
  cbn [CaptchaGenerator.generateWithin Nat.add] in H.
  unfold bind at 1 in H. unfold read at 1 in H. cbn [fst] in H.
  destruct (CaptchaGenerator.customOptions g) as [co|]; [|congruence].
  unfold CaptchaGenerator.generateCustom in H.
  unfold bind at 1 in H. unfold read at 1 in H. cbn [fst] in H. rewrite Hg in H.
  apply bind_Ok in H. destruct H as ([q a] & [g1 w1] & Hp & H).
  apply on_snd_Ok in Hp. destruct Hp as [-> Hp].
  destruct (generate_custom_Ok _ _ _ _ _ _ Hne Hp) as (_ & x & Hx & Hq & Ha & _).
  destruct (createChallenge_sealed _ _ _ _ H) as (Ht & Hqu & Han & _).
  cbn in Ht, Hqu, Han. split; [exact Ht|]. exists x. split; [exact Hx|].
  rewrite Hqu, Han, Hq, Ha. tauto.
Qed.

Lemma custom_challenge_asks_a_kept_question_witness :
  exists k c s',
    K9Guard.constructor Sample.custom_options = Returns k
    /\ CaptchaGenerator.generate Sample.locales (K9Guard.generator k, Sample.world) = Ok c s'
    /\ type c = str "custom"
    /\ (answer c = Str (str "4") \/ answer c = Str (str "Paris")).
Proof.
  destruct (K9Guard.constructor Sample.custom_options) as [k|e] eqn:Ek;
    [|vm_compute in Ek; discriminate].
  destruct (kept_questions Sample.custom_options k eq_refl Ek) as (qs & Hg & _ & _).
  assert (Hqs : map cq_answer qs = [str "4"; str "Paris"]).
  { vm_compute in Ek. inversion Ek; subst k. cbn in Hg. inversion Hg. reflexivity. }
  assert (Hco : CaptchaGenerator.customOptions (K9Guard.generator k) <> None).
  { vm_compute in Ek. inversion Ek; subst k. discriminate. }
  destruct (CaptchaGenerator.generate Sample.locales (K9Guard.generator k, Sample.world))
    as [c s'|e s'|] eqn:E.
  - exists k, c, s'. split; [reflexivity|]. split; [exact E|].
    destruct (custom_challenge_asks_a_kept_question Sample.locales _ _ qs c s' Hco Hg
                ltac:(intros ->; discriminate) E) as (Ht & x & Hx & _ & Ha).
    split; [exact Ht|]. rewrite Ha.
    destruct qs as [|q1 [|q2 [|q3 qs]]]; try discriminate.
    cbn in Hqs. injection Hqs as H1 H2.
    destruct Hx as [<-|[<-|[]]]; [left; rewrite H1|right; rewrite H2]; reflexivity.
  - exfalso. vm_compute in Ek. inversion Ek; subst k. vm_compute in E. discriminate.
  - exfalso. vm_compute in Ek. inversion Ek; subst k. vm_compute in E. discriminate.
Defined.

(** ** src/core/captchaValidator.ts: the kinds verified as text *)

Section TextKinds.

Import CaptchaValidator.

Lemma validate_text_eq (c : CaptchaChallenge) (userInput : jsstring) :
  JSString.eqb (type c) (str "multi") = false -> isNumericChallenge c = false ->
  validate c userInput
  = isValidInput (Str userInput)
    && VALID_CHAR_REGEX_test (trim userInput)
    && JSString.eqb (NodeCrypto.sha256_hex (trim userInput ++ salt c)) (hashedAnswer c).
Proof.
  intros Hm Hn. rewrite validate_eq, Hm, Hn.
  unfold validateCustom, validateText, verifyAnswer.
  destruct (isValidInput (Str userInput)); cbn [negb andb]; [|reflexivity].
  destruct (JSString.eqb (type c) (str "custom"));
    destruct (VALID_CHAR_REGEX_test (trim userInput)); reflexivity.
Qed.

End TextKinds.

(** For every kind that is verified as text (any kind but multi, math,
    sequence and a mixed challenge with a number as answer; custom
    included), [validate] accepts an input exactly when it has 1 to 1000
    characters, its trimmed form consists of characters of the class
    [a-zA-Z0-9], white space, [-.,'!?] and the twelve Turkish letters, and
    the SHA-256 of the trimmed input followed by the salt is the
    [hashedAnswer]. Nothing else of the challenge is looked at. *)
Theorem text_verification_criterion (c : CaptchaChallenge) (userInput : jsstring) :
  type c <> str "multi" -> ~ numeric_kind c ->
  CaptchaValidator.validate c userInput = true <->
  1 <= JSString.length userInput <= 1000
  /\ CaptchaValidator.VALID_CHAR_REGEX_test (trim userInput) = true
  /\ NodeCrypto.sha256_hex (trim userInput ++ salt c) = hashedAnswer c.
Proof.
  intros Hm Hn.
  assert (Hm' : JSString.eqb (type c) (str "multi") = false) by (apply eqb_neq; exact Hm).
  assert (Hn' : CaptchaValidator.isNumericChallenge c = false).
  { destruct (CaptchaValidator.isNumericChallenge c) eqn:E; [|reflexivity].
    exfalso. apply Hn. unfold CaptchaValidator.isNumericChallenge in E. unfold numeric_kind.
    apply orb_true_iff in E. destruct E as [E|E].
    - apply orb_true_iff in E. destruct E as [E|E]; apply eqb_eq in E; tauto.
    - apply andb_true_iff in E. destruct E as [E1 E2]. apply eqb_eq in E1.
      right. right. split; [exact E1|].
      destruct (answer c); try discriminate. eexists. reflexivity. }
  rewrite (validate_text_eq c userInput Hm' Hn').
  rewrite !andb_true_iff, isValidInput_length, eqb_eq. tauto.
Qed.

Lemma text_verification_criterion_witness :
  CaptchaValidator.validate Sample.cat (str "  cat ") = true.
Proof.
  apply (text_verification_criterion Sample.cat (str "  cat ")).
  - discriminate.
  - unfold numeric_kind. intros [H|[H|[H _]]]; discriminate.
  - split; [vm_compute; split; discriminate|]. split; vm_compute; reflexivity.
Defined.

(** For the kinds verified as text, white space around the input makes no
    difference: an input of at most 1000 characters that is not all white
    space is judged as its trimmed form is. *)
Theorem text_verification_ignores_outer_spaces (c : CaptchaChallenge) (userInput : jsstring) :
  type c <> str "multi" -> ~ numeric_kind c ->
  JSString.length userInput <= 1000 -> trim userInput <> [] ->
  CaptchaValidator.validate c userInput = CaptchaValidator.validate c (trim userInput).
Proof.
  intros Hm Hn Hlen Hne.
  assert (Hm' : JSString.eqb (type c) (str "multi") = false) by (apply eqb_neq; exact Hm).
  assert (Hn' : CaptchaValidator.isNumericChallenge c = false).
  { destruct (CaptchaValidator.isNumericChallenge c) eqn:E; [|reflexivity].
    exfalso. apply Hn. unfold CaptchaValidator.isNumericChallenge in E. unfold numeric_kind.
    apply orb_true_iff in E. destruct E as [E|E].
    - apply orb_true_iff in E. destruct E as [E|E]; apply eqb_eq in E; tauto.
    - apply andb_true_iff in E. destruct E as [E1 E2]. apply eqb_eq in E1.
      right. right. split; [exact E1|].
      destruct (answer c); try discriminate. eexists. reflexivity. }
  rewrite !(validate_text_eq c _ Hm' Hn'), trim_idempotent.
  pose proof (trim_length userInput) as Ht.
  assert (Hpos : 1 <= JSString.length (trim userInput)).
  { unfold JSString.length. destruct (trim userInput); [congruence|cbn [List.length]; lia]. }
  assert (H1 : CaptchaValidator.isValidInput (Str userInput) = true)
    by (apply isValidInput_length; lia).
  assert (H2 : CaptchaValidator.isValidInput (Str (trim userInput)) = true)
    by (apply isValidInput_length; lia).
  rewrite H1, H2. reflexivity.
Qed.

Lemma text_verification_ignores_outer_spaces_witness :
  CaptchaValidator.validate Sample.cat (str "  cat ")
  = CaptchaValidator.validate Sample.cat (str "cat").
Proof.
  apply (text_verification_ignores_outer_spaces Sample.cat (str "  cat ")).
  - discriminate.
  - unfold numeric_kind. intros [H|[H|[H _]]]; discriminate.
  - vm_compute. discriminate.
  - vm_compute. discriminate.
Defined.

(** ** src/index.ts: the two sides together *)

(** [validate] keeps no record of what was issued: any object with the six
    fields verifies, whoever made it. For a kind verified as text, a
    challenge whose [hashedAnswer] is the SHA-256 of an answer followed by
    its salt is accepted with that answer until it expires, whatever its
    nonce, question and [answer] field are; the answer only has to be
    trimmed, of 1 to 1000 characters, and within the character class. *)
Theorem self_made_challenge_is_accepted (now : Z) (c : CaptchaChallenge)
    (userInput : jsstring) :
  type c <> str "multi" -> ~ numeric_kind c ->
  1 <= JSString.length userInput <= 1000 ->
  CaptchaValidator.VALID_CHAR_REGEX_test userInput = true ->
  trim userInput = userInput ->
  hashedAnswer c = NodeCrypto.sha256_hex (userInput ++ salt c) ->
  gtb (of_Z now) (expiry c) = false ->
  K9Guard.validate now (K9Guard.of_challenge c) (Str userInput) = Returns true.
Proof.
  intros Hm Hn Hlen Hre Htr Hh Hexp.
  rewrite validate_of_challenge, Hexp. f_equal.
  assert (Hm' : JSString.eqb (type c) (str "multi") = false) by (apply eqb_neq; exact Hm).
  assert (Hn' : CaptchaValidator.isNumericChallenge c = false).
  { destruct (CaptchaValidator.isNumericChallenge c) eqn:E; [|reflexivity].
    exfalso. apply Hn. unfold CaptchaValidator.isNumericChallenge in E. unfold numeric_kind.
    apply orb_true_iff in E. destruct E as [E|E].
    - apply orb_true_iff in E. destruct E as [E|E]; apply eqb_eq in E; tauto.
    - apply andb_true_iff in E. destruct E as [E1 E2]. apply eqb_eq in E1.
      right. right. split; [exact E1|].
      destruct (answer c); try discriminate. eexists. reflexivity. }
  rewrite (validate_text_eq c userInput Hm' Hn'), Htr, Hre, Hh, eqb_refl.
  rewrite (proj2 (isValidInput_length userInput) Hlen). reflexivity.
Qed.

Lemma self_made_challenge_is_accepted_witness :
  K9Guard.validate 1700000000000 (K9Guard.of_challenge Sample.cat) (Str (str "cat"))
  = Returns true.
Proof.
  apply (self_made_challenge_is_accepted 1700000000000 Sample.cat (str "cat")).
  - discriminate.
  - unfold numeric_kind. intros [H|[H|[H _]]]; discriminate.
  - vm_compute. split; discriminate.
  - reflexivity.
  - reflexivity.
  - reflexivity.
  - vm_compute. reflexivity.
Defined.

(** An instance built with one of the eight kinds that [generate] has a
    branch for issues challenges of that kind: construction succeeds, and
    every challenge [generate] returns is one of that kind, sealed, with
    steps only for multi. *)
Theorem guard_issues_the_kind_it_was_built_with (locales : Locale.Data) (options : Value)
    (kind : jsstring) :
  prop options (str "type") = Str kind -> In kind listed_kinds ->
  exists k,
    K9Guard.constructor options = Returns k
    /\ forall w c s', K9Guard.generate locales (k, w) = Ok c s' -> issued_as kind c.
Proof.
  intros Hk Hin.
  assert (Hnc : is_str (prop options (str "type")) (str "custom") = false).
  { rewrite Hk. cbn [is_str]. apply eqb_neq. intros ->. cbn in Hin.
    repeat (destruct Hin as [Hin|Hin]; [discriminate|]). exact Hin. }
  rewrite (constructor_standard options Hnc). eexists. split; [reflexivity|].
  intros w c s' H. unfold K9Guard.generate in H. cbn [K9Guard.generator] in H.
  match type of H with
  | match ?m with _ => _ end = _ => destruct m as [c0 [g0 w0]|e [g0 w0]|] eqn:E
  end; try discriminate.
  inversion H; subst c0.
  pose proof (generate_issued locales _ _ _ _ E) as Hi. cbn in Hi.
  destruct Hi as [Hi _]. apply (Hi kind Hin).
  change (K9Guard.or_else (prop options (str "type")) (str "math") = Str kind).
  rewrite Hk. unfold K9Guard.or_else.
  assert (Ht : truthy (Str kind) = true).
  { destruct kind; [|reflexivity]. cbn in Hin.
    repeat (destruct Hin as [Hin|Hin]; [discriminate|]). contradiction. }
  rewrite Ht. reflexivity.
Qed.

Lemma guard_issues_the_kind_it_was_built_with_witness :
  exists k c s',
    K9Guard.constructor (Sample.options (str "scramble") (str "easy")) = Returns k
    /\ K9Guard.generate Sample.locales (k, Sample.world) = Ok c s'
    /\ issued_as (str "scramble") c.
Proof.
  destruct (guard_issues_the_kind_it_was_built_with Sample.locales
              (Sample.options (str "scramble") (str "easy")) (str "scramble") eq_refl)
    as (k & Hk & Hgen).
  - cbn. tauto.
  - destruct (K9Guard.generate Sample.locales (k, Sample.world)) as [c s'|e s'|] eqn:E.
    + exists k, c, s'. split; [exact Hk|]. split; [exact E|]. exact (Hgen _ _ _ E).
    + exfalso. vm_compute in Hk. inversion Hk; subst k. vm_compute in E. discriminate.
    + exfalso. vm_compute in Hk. inversion Hk; subst k. vm_compute in E. discriminate.
Defined.

(** [validate] can raise on a challenge that has the six fields: the fields
    of a step are not checked. For a multi challenge whose one step has
    the salt [{ "toString": 1 }], as [JSON.parse] may deliver it,
    [isValidChallenge] holds and [validate] with the input [["a"]] raises a
    TypeError where the input is joined with the salt of the step. *)
Theorem verify_raises_on_a_step_with_an_object_as_salt :
  K9Guard.isValidChallenge Sample.multi_with_odd_salt = Returns true
  /\ JSON_parse (stringify_strings [str "a"]) = Some (Arr [Str (str "a")])
  /\ K9Guard.validate 1700000000000 Sample.multi_with_odd_salt
       (Str (stringify_strings [str "a"]))
     = Throws TypeError.
Proof.
  split; [reflexivity|]. split; vm_compute; reflexivity.
Qed.
